(** * lwip-ftpd, vfs_esp32.h: the confined path layer of the FTP server

    A shallow embedding of the path code of [vfs_esp32.h]: the in-place
    normaliser [normalize_path], the resolver [abspath_] with its two
    wrappers, [vfs_chdir], [vfs_getcwd], [vfs_rename] and the one-path
    delegating operations.

    Memory model.  A [char] array is a [list ascii] whose length is the
    size of the array ([sizeof]); a [char*] into it is the array together
    with a [nat] offset.  The C functions used by the source ([strlen],
    [memmove], [memcpy], [memcmp], [strstr], [strrchr]) are defined on
    that representation.  A read past the end of the array yields NUL and
    a write past the end is dropped; C leaves both undefined, and the
    theorems below carry the bounds that keep every access inside the
    array.  Lengths are [nat]: every length the code computes is bounded
    by the size of a buffer plus the length of one client string, far
    below the range of [size_t]. *)

From Stdlib Require Import Ascii String ZArith Lia.
From stdpp Require Import base list strings.

(** ** Bytes and C strings *)

Definition NUL : ascii := "000"%char.

(** The bytes of a string literal, without terminator. *)
Definition bytes (s : string) : list ascii := list_ascii_of_string s.

(** The characters of [l] up to, and excluding, the first NUL. *)
Fixpoint cstr (l : list ascii) : list ascii :=
  match l with
  | [] => []
  | c :: l' => if Ascii.eqb c NUL then [] else c :: cstr l'
  end.

(** [b[i]] *)
Definition rd (b : list ascii) (i : nat) : ascii := nth i b NUL.

(** The C string that starts at [b + i]. *)
Definition str (b : list ascii) (i : nat) : list ascii := cstr (drop i b).

Definition strlen (b : list ascii) (i : nat) : nat := length (str b i).

(** The [n] bytes read from [b + src]. *)
Definition block (b : list ascii) (src n : nat) : list ascii :=
  rd b <$> seq src n.

(** [b[dst .. dst + |l|) := l], the array keeping its size. *)
Definition splice (b : list ascii) (dst : nat) (l : list ascii) : list ascii :=
  take (length b) (take dst b ++ l ++ drop (dst + length l) b).

(** [memmove(b + dst, b + src, n)] *)
Definition memmove (b : list ascii) (dst src n : nat) : list ascii :=
  splice b dst (block b src n).

(** [memcpy(b + dst, from + src, n)] from another array. *)
Definition memcpy (b : list ascii) (dst : nat) (from : list ascii) (src n : nat)
  : list ascii :=
  splice b dst (block from src n).

Definition bytes_eqb (l1 l2 : list ascii) : bool :=
  bool_decide (l1 = l2).

(** [memcmp(b + i, lit, |lit|) == 0] *)
Definition memcmp0 (b : list ascii) (i : nat) (lit : list ascii) : bool :=
  bytes_eqb (block b i (length lit)) lit.

(** Does [l] start with [needle]? *)
Fixpoint starts_with (needle l : list ascii) : bool :=
  match needle, l with
  | [], _ => true
  | _ :: _, [] => false
  | c :: needle', d :: l' => Ascii.eqb c d && starts_with needle' l'
  end.

(** Index of the first occurrence of [needle] in [l], counted from [i]. *)
Fixpoint find_sub (needle l : list ascii) (i : nat) : option nat :=
  match l with
  | [] => None
  | _ :: l' =>
      if starts_with needle l then Some i else find_sub needle l' (S i)
  end.

(** [strstr(b + pos, needle)], as an offset into [b]; the needles of the
    source are not empty and hold no NUL. *)
Definition strstr (b : list ascii) (pos : nat) (needle : list ascii)
  : option nat :=
  find_sub needle (str b pos) pos.

(** Index of the last [c] in [l], counted from [i]. *)
Fixpoint find_last (c : ascii) (l : list ascii) (i : nat) : option nat :=
  match l with
  | [] => None
  | d :: l' =>
      match find_last c l' (S i) with
      | Some j => Some j
      | None => if Ascii.eqb d c then Some i else None
      end
  end.

(** [strrchr(b + path, c)] for [c] other than NUL. *)
Definition strrchr (b : list ascii) (path : nat) (c : ascii) : option nat :=
  find_last c (str b path) path.

(** ** normalize_path *)

(** A [while] loop: [body] gives the next state, or [None] when the
    condition of the loop is false.  [fuel] bounds the rounds. *)
Fixpoint while {S : Type} (fuel : nat) (body : S -> option S) (s : S) : S :=
  match fuel with
  | 0 => s
  | S fuel' =>
      match body s with
      | Some s' => while fuel' body s'
      | None => s
      end
  end.

(** First loop: a leading [/] or [./] is removed, one byte at a time. *)
Definition strip_leading_body (path : nat) (b : list ascii)
  : option (list ascii) :=
  if Ascii.eqb (rd b path) "/"%char
     || (Ascii.eqb (rd b path) "."%char
         && Ascii.eqb (rd b (path + 1)) "/"%char)
  then Some (memmove b path (path + 1) (strlen b (path + 1) + 1))
  else None.

(** Second loop: every [//] loses its first byte.  The state is the
    buffer and [pos]. *)
Definition collapse_slashes_body (s : list ascii * nat)
  : option (list ascii * nat) :=
  let '(b, pos) := s in
  match strstr b pos (bytes "//") with
  | Some pos => Some (memmove b pos (pos + 1) (strlen b (pos + 1) + 1), pos)
  | None => None
  end.

(** Third loop: the [/.] and [/..] segments. *)
Definition resolve_dots_body (path : nat) (s : list ascii * nat)
  : option (list ascii * nat) :=
  let '(b, pos) := s in
  match strstr b pos (bytes "/.") with
  | None => None
  | Some pos =>
      if memcmp0 b pos (bytes "//") then
        Some (memmove b pos (pos + 1) (strlen b (pos + 1) + 1), pos)
      else if memcmp0 b pos ["/"%char; "."%char; NUL]
              || memcmp0 b pos (bytes "/./")
      then Some (memmove b pos (pos + 2) (strlen b (pos + 2) + 1), pos)
      else if memcmp0 b pos ["/"%char; "."%char; "."%char; NUL]
              || memcmp0 b pos (bytes "/../")
      then
        let b := <[pos := NUL]> b in
        let '(slash, pos) :=
          match strrchr b path "/"%char with
          | Some slash => (slash, pos)
          | None =>
              (path,
               if Ascii.eqb (rd b (pos + 3)) "/"%char then pos + 1 else pos)
          end in
        Some (memmove b slash (pos + 3) (strlen b (pos + 3) + 1), slash)
      else Some (b, pos + 2)
  end.

(** [normalize_path(b + path)].  Every iteration of a loop shortens the
    string that starts at its [pos], so [S (length b)] rounds are enough:
    see [normalize_path_fuel]. *)
Definition normalize_fuel (fuel : nat) (b : list ascii) (path : nat)
  : list ascii :=
  let b := while fuel (strip_leading_body path) b in
  let '(b, _) := while fuel collapse_slashes_body (b, path) in
  fst (while fuel (resolve_dots_body path) (b, path)).

Definition normalize_path (b : list ascii) (path : nat) : list ascii :=
  normalize_fuel (S (length b)) b path.

(** The normaliser as a function on fragments: the fragment is laid out
    with its terminator and normalised in place. *)
Definition normalize (p : list ascii) : list ascii :=
  str (normalize_path (p ++ [NUL]) 0) 0.

(** ** The session *)

(** [vfs_t]: the two path buffers and the two prefix lengths.  The size
    of the buffers, [CONFIG_FATFS_MAX_LFN + 1] in the source, is the
    length of the lists: [sizeof(vfs->file1)] is [length (file1 vfs)]. *)
Record vfs_t := Vfs {
  file1 : list ascii;
  file2 : list ascii;
  rootlen : nat;
  cwdlen : nat
}.

Definition set_file1 (vfs : vfs_t) (b : list ascii) : vfs_t :=
  Vfs b (file2 vfs) (rootlen vfs) (cwdlen vfs).

Definition set_file2 (vfs : vfs_t) (b : list ascii) : vfs_t :=
  Vfs (file1 vfs) b (rootlen vfs) (cwdlen vfs).

Definition VFS_ROOT : list ascii := bytes "/sdcard/".

(** [strcpy(b, lit)] *)
Definition strcpy (b : list ascii) (lit : list ascii) : list ascii :=
  splice b 0 (lit ++ [NUL]).

(** [vfs_openfs]: [mem] is what [malloc] hands out, [None] for a failed
    allocation, else the two arrays with whatever they hold. *)
Definition vfs_openfs (mem : option (list ascii * list ascii))
  : option vfs_t :=
  match mem with
  | None => None
  | Some (m1, m2) =>
      Some (Vfs (strcpy m1 VFS_ROOT) (strcpy m2 VFS_ROOT)
              (length VFS_ROOT) (length VFS_ROOT))
  end.

(** Why a call failed.  The source reports every failure the same way
    (a NULL pointer, a non-zero [int]); the constructor records which
    [return] was taken, each of which logs a message of its own. *)
Inductive error :=
  | PathTooLong        (* "path too long: ..." and "path too long in vfs_chdir" *)
  | PathEscapesRoot    (* "refusing absolute path which doesn't point into the current cwd" *)
  | NotADirectory.     (* "FTP client tried to chdir to a directory that doesn't exist" *)

(** What [abspath_] returns: its [buffer] argument, or NULL. *)
Inductive ptr :=
  | Ptr
  | Null (why : error).

Definition is_null (r : ptr) : bool :=
  match r with Ptr => false | Null _ => true end.

(** [abspath_(vfs, buffer, buflen, path, limit_to_cwd)]: the buffer after
    the call and the pointer returned.  [path] is the memory at the
    client's pointer; the client string is [str path 0]. *)
Definition abspath_ (vfs : vfs_t) (buffer : list ascii) (buflen : nat)
    (path : list ascii) (limit_to_cwd : bool) : list ascii * ptr :=
  let len := strlen path 0 in
  if buflen <? cwdlen vfs + len + 1 then (buffer, Null PathTooLong)
  else
    let buffer := <[cwdlen vfs - 1 := "/"%char]> buffer in
    if Ascii.eqb (rd path 0) "/"%char then
      if limit_to_cwd then
        let d := cwdlen vfs - rootlen vfs in
        if (len <? d)
           || negb (bytes_eqb (block buffer (rootlen vfs - 1) d) (block path 0 d))
           || (negb (Ascii.eqb (rd path d) NUL) && negb (Ascii.eqb (rd path d) "/"%char))
        then (buffer, Null PathEscapesRoot)
        else
          let buffer := memcpy buffer (cwdlen vfs - 1) path d (len - d + 1) in
          (normalize_path buffer (cwdlen vfs), Ptr)
      else
        let buffer := memcpy buffer (rootlen vfs - 1) path 0 (len + 1) in
        (normalize_path buffer (rootlen vfs), Ptr)
    else
      let buffer := memcpy buffer (cwdlen vfs) path 0 (len + 1) in
      if limit_to_cwd then (normalize_path buffer (cwdlen vfs), Ptr)
      else (normalize_path buffer (rootlen vfs), Ptr).

Definition abspath (vfs : vfs_t) (path : list ascii) : vfs_t * ptr :=
  let '(b, r) := abspath_ vfs (file1 vfs) (length (file1 vfs)) path true in
  (set_file1 vfs b, r).

Definition abspath2 (vfs : vfs_t) (path : list ascii) : vfs_t * ptr :=
  let '(b, r) := abspath_ vfs (file2 vfs) (length (file2 vfs)) path true in
  (set_file2 vfs b, r).

(** The delegate filesystem: what each primitive answers for a path.
    [stat_isdir p] is [stat(p, &st) == 0 && S_ISDIR(st.st_mode)]; the
    others are the [int] returned. *)
Record filesystem := Fs {
  stat_isdir : list ascii -> bool;
  fs_mkdir : list ascii -> Z;
  fs_rmdir : list ascii -> Z;
  fs_unlink : list ascii -> Z;
  fs_rename : list ascii -> list ascii -> Z
}.

(** The calls a facade operation makes on the delegate. *)
Inductive fs_call :=
  | CallMkdir (p : list ascii)
  | CallRmdir (p : list ascii)
  | CallUnlink (p : list ascii)
  | CallRename (from to : list ascii).

(** The outcome of [vfs_chdir]: [0], or [1] with the reason. *)
Inductive status :=
  | Done
  | Failed (why : error).

Definition status_code (r : status) : Z :=
  match r with Done => 0%Z | Failed _ => 1%Z end.

(** The two failure exits of [vfs_chdir] put the committed cwd back:
    [memcpy(file1, file2, cwdlen); file1[cwdlen] = 0]. *)
Definition chdir_rollback (vfs : vfs_t) (f1 : list ascii) : vfs_t :=
  set_file1 vfs
    (<[cwdlen vfs := NUL]> (memcpy f1 0 (file2 vfs) 0 (cwdlen vfs))).

Definition vfs_chdir (fs : filesystem) (vfs : vfs_t) (path : list ascii)
  : vfs_t * status :=
  let '(f1, r) :=
    abspath_ vfs (file1 vfs) (length (file1 vfs)) path false in
  match r with
  | Null why => (set_file1 vfs f1, Failed why)
  | Ptr =>
      let len := strlen f1 0 in
      let step :=
        if negb (Ascii.eqb (rd f1 (len - 1)) "/"%char) then
          if length f1 <=? len + 2 then None
          else Some (<[len + 1 := NUL]> (<[len := "/"%char]> f1), len + 1)
        else Some (f1, len) in
      match step with
      | None => (chdir_rollback vfs f1, Failed PathTooLong)
      | Some (f1, len) =>
          let f1 := <[len - 1 := NUL]> f1 in
          if (len =? rootlen vfs) || stat_isdir fs (str f1 0) then
            let f1 := <[len - 1 := "/"%char]> f1 in
            (Vfs f1 (memcpy (file2 vfs) 0 f1 0 (len + 1)) (rootlen vfs) len,
             Done)
          else (chdir_rollback vfs f1, Failed NotADirectory)
      end
  end.

(** [vfs_getcwd]: the session after the call and the string handed to
    the caller, a copy made by [strdup]. *)
Definition vfs_getcwd (vfs : vfs_t) : vfs_t * list ascii :=
  let f1 :=
    if rootlen vfs <? cwdlen vfs then <[cwdlen vfs - 1 := NUL]> (file1 vfs)
    else <[cwdlen vfs := NUL]> (file1 vfs) in
  (set_file1 vfs f1, str f1 (rootlen vfs - 1)).

(** [path && op(path) == 0 ? 0 : 1], with the calls made. *)
Definition delegate1 (op : list ascii -> Z) (call : list ascii -> fs_call)
    (r : vfs_t * ptr) : vfs_t * Z * list fs_call :=
  let '(vfs, p) := r in
  match p with
  | Null _ => (vfs, 1%Z, [])
  | Ptr =>
      let path := str (file1 vfs) 0 in
      (vfs, if Z.eqb (op path) 0 then 0%Z else 1%Z, [call path])
  end.

Definition vfs_mkdir (fs : filesystem) (vfs : vfs_t) (path : list ascii) :=
  delegate1 (fs_mkdir fs) CallMkdir (abspath vfs path).

Definition vfs_rmdir (fs : filesystem) (vfs : vfs_t) (path : list ascii) :=
  delegate1 (fs_rmdir fs) CallRmdir (abspath vfs path).

Definition vfs_remove (fs : filesystem) (vfs : vfs_t) (path : list ascii) :=
  delegate1 (fs_unlink fs) CallUnlink (abspath vfs path).

(** [from && to && rename(from, to) ? 1 : 0] *)
Definition vfs_rename (fs : filesystem) (vfs : vfs_t) (from to : list ascii)
  : vfs_t * Z * list fs_call :=
  let '(vfs, pfrom) := abspath vfs from in
  let '(vfs, pto) := abspath2 vfs to in
  if negb (is_null pfrom) && negb (is_null pto) then
    let a := str (file1 vfs) 0 in
    let b := str (file2 vfs) 0 in
    (vfs, if negb (Z.eqb (fs_rename fs a b) 0) then 1%Z else 0%Z,
     [CallRename a b])
  else (vfs, 0%Z, []).

(** ** The operations that open and inspect *)






(** ** Sessions *)

(** The committed cwd, separator included.  Both buffers hold it in
    their first [cwdlen] bytes, but for the separator, which a call may
    have replaced by NUL for a while; [file2] is the copy that
    [vfs_chdir] restores from. *)
Definition cwd_of (vfs : vfs_t) : list ascii :=
  take (cwdlen vfs - 1) (file2 vfs) ++ ["/"%char].

(** The root prefix. *)
Definition root_of (vfs : vfs_t) : list ascii :=
  take (rootlen vfs) (file2 vfs).

(** The part of the cwd beyond the root, as the client names it: from
    the separator that ends the root to the byte before the separator
    that ends the cwd.  It is empty at the root. *)
Definition cwd_rel (vfs : vfs_t) : list ascii :=
  drop (rootlen vfs - 1) (take (cwdlen vfs - 1) (file2 vfs)).

(** The states the operations keep the session in: every session that
    [vfs_openfs] opens has these properties and every operation keeps
    them, see [reachable_wf]. *)
Record wf (vfs : vfs_t) : Prop := Wf {
  wf_size : length (file1 vfs) = length (file2 vfs);
  wf_root : 1 ≤ rootlen vfs ≤ cwdlen vfs;
  wf_cap : cwdlen vfs < length (file1 vfs);
  wf_same :
    take (cwdlen vfs - 1) (file1 vfs) = take (cwdlen vfs - 1) (file2 vfs);
  wf_nonul : NUL ∉ take (cwdlen vfs - 1) (file1 vfs);
  wf_rootsep1 : rd (file1 vfs) (rootlen vfs - 1) = "/"%char;
  wf_rootsep2 : rd (file2 vfs) (rootlen vfs - 1) = "/"%char;
  wf_sep1 :
    rd (file1 vfs) (cwdlen vfs - 1) = "/"%char
    ∨ rd (file1 vfs) (cwdlen vfs - 1) = NUL;
  wf_sep2 :
    rd (file2 vfs) (cwdlen vfs - 1) = "/"%char
    ∨ rd (file2 vfs) (cwdlen vfs - 1) = NUL
}.

(** What the caller of a resolver holds: NULL, or the string in the
    buffer. *)
Definition resolved (r : list ascii * ptr) : option (list ascii) :=
  match r.2 with
  | Ptr => Some (str r.1 0)
  | Null _ => None
  end.

(** The byte that [vfs_getcwd] overwrites. *)
Definition getcwd_cut (vfs : vfs_t) : nat :=
  if rootlen vfs <? cwdlen vfs then cwdlen vfs - 1 else cwdlen vfs.

(** An absolute client path points outside the cwd: the part of the cwd
    beyond the root is not a prefix of it, or the character after that
    prefix is neither the end of the string nor a separator. *)
Definition escapes (vfs : vfs_t) (p : list ascii) : Prop :=
  ¬ cwd_rel vfs `prefix_of` p
  ∨ (nth (length (cwd_rel vfs)) p NUL ≠ NUL
     ∧ nth (length (cwd_rel vfs)) p NUL ≠ "/"%char).



(** The path is one that a resolve of the session can return: it begins
    with the root and is a string that fits the buffers. *)
Definition confined (vfs : vfs_t) (p : list ascii) : Prop :=
  root_of vfs `prefix_of` p ∧ (NUL ∉ p) ∧ length p < length (file1 vfs).

(** The path that [vfs_chdir] has normalised, as it stands behind the
    root: an absolute path without its first separator, a relative path
    behind the rest of the cwd. *)
Definition chdir_target (vfs : vfs_t) (path : list ascii) : list ascii :=
  normalize (if Ascii.eqb (rd path 0) "/"%char then drop 1 (str path 0)
             else drop (rootlen vfs) (cwd_of vfs) ++ str path 0).

(** The string without the separator at its end, if it has one. *)
Definition chop_sep (l : list ascii) : list ascii :=
  if bool_decide (last l = Some "/"%char) then take (length l - 1) l else l.

(** ** Sessions used as examples *)

(** Two fresh buffers of [CONFIG_FATFS_MAX_LFN + 1] bytes, for the
    default of 255. *)
Definition ex_mem : list ascii := replicate 256 NUL.

(** A delegate on which every path is a directory and every call
    succeeds. *)
Definition ex_fs : filesystem :=
  Fs (λ _, true) (λ _, 0%Z) (λ _, 0%Z) (λ _, 0%Z) (λ _ _, 0%Z).

(** A delegate with no directory at all. *)
Definition ex_fs_empty : filesystem :=
  Fs (λ _, false) (λ _, (-1)%Z) (λ _, (-1)%Z) (λ _, (-1)%Z) (λ _ _, (-1)%Z).

(** The session [vfs_openfs] returns. *)
Definition ex_root : vfs_t :=
  Vfs (strcpy ex_mem VFS_ROOT) (strcpy ex_mem VFS_ROOT) 8 8.

(** After [vfs_chdir("sub")]: the cwd is [/sdcard/sub/]. *)
Definition ex_sub : vfs_t := (vfs_chdir ex_fs ex_root (bytes "sub")).1.

(** After [vfs_getcwd] in that directory. *)
Definition ex_sub_pwd : vfs_t := (vfs_getcwd ex_sub).1.

(** A session whose root is [/data/] and whose cwd is [/data/sub/]. *)
Definition ex_data : vfs_t :=
  Vfs (strcpy ex_mem (bytes "/data/sub/")) (strcpy ex_mem (bytes "/data/sub/"))
    6 10.

(** A client path of 300 bytes, [/aaa...]. *)
Definition ex_long : list ascii := "/"%char :: replicate 299 "a"%char.


(** A plain name: no separator, no NUL, no leading dot.  It may be
    empty. *)
Definition plain (name : list ascii) : Prop :=
  (("/"%char) ∉ name) ∧ (NUL ∉ name) ∧ (head name ≠ Some "."%char).

(** The sessions the code can reach: opened by [vfs_openfs] on two
    arrays of one size with room for the root, then changed by the
    operations.  [vfs_rename] resolves with [abspath] and [abspath2] in
    turn, and the one-path operations with [abspath]. *)
Inductive reachable : vfs_t → Prop :=
  | reach_open m1 m2 vfs :
      length m1 = length m2 → length VFS_ROOT < length m1 →
      vfs_openfs (Some (m1, m2)) = Some vfs → reachable vfs
  | reach_chdir fs vfs path :
      reachable vfs → reachable (vfs_chdir fs vfs path).1
  | reach_getcwd vfs : reachable vfs → reachable (vfs_getcwd vfs).1
  | reach_abspath vfs path : reachable vfs → reachable (abspath vfs path).1
  | reach_abspath2 vfs path : reachable vfs → reachable (abspath2 vfs path).1.

(** ** Notions used by the proofs *)

(** [pos] points into the string that starts at [b + path], its
    terminator included. *)
Definition inside (path : nat) (b : list ascii) (pos : nat) : Prop :=
  path ≤ pos ≤ path + strlen b path.

(** [b'] is [b] with the string at [path] rewritten and not lengthened:
    the array keeps its size and the bytes before [path]. *)
Definition shrunk (path : nat) (b b' : list ascii) : Prop :=
  length b' = length b ∧ take path b' = take path b
  ∧ strlen b' path ≤ strlen b path.

(** Two loop states, one in the string at [path] of one buffer and one
    in the string at [q] of another, that hold the same string and
    stand at the same place in it. *)
Definition same_view (path q : nat) (s t : list ascii * nat) : Prop :=
  str s.1 path = str t.1 q ∧ inside path s.1 s.2 ∧ inside q t.1 t.2
  ∧ s.2 - path = t.2 - q.

(** Both loop bodies stop, or both go on to states that [R] relates. *)
Definition in_step {S T : Type} (R : S → T → Prop)
    (x : option S) (y : option T) : Prop :=
  match x, y with
  | Some s, Some t => R s t
  | None, None => True
  | _, _ => False
  end.

(** The literals that the third loop compares with. *)
Definition dot_literals : list (list ascii) :=
  [bytes "//"; ["/"%char; "."%char; NUL]; bytes "/./";
   ["/"%char; "."%char; "."%char; NUL]; bytes "/../"].

(** ** The form of a normalised string *)

(** The string ends here or goes on with a separator. *)
Definition ends_or_sep (t : list ascii) : bool :=
  match t with
  | [] => true
  | c :: _ => Ascii.eqb c "/"%char
  end.

(** [t] begins with a segment [.] or [..]: with [/.] or [/..], then the
    end of the string or a separator.  These are the four comparisons
    that the third loop of [normalize_path] makes at a [/.]. *)
Definition dot_segment (t : list ascii) : bool :=
  starts_with (bytes "/.") t
  && (ends_or_sep (drop 2 t)
      || (starts_with (bytes ".") (drop 2 t) && ends_or_sep (drop 3 t))).

(** A round of the third loop, seen on the string [s] that starts at
    [path]: the [/.] found at [q] is a segment [.] and is cut out; it is
    a segment [..] and is cut out together with what follows the last
    separator before it, or with all that precedes it; or it is neither
    and is passed over.  The string and the position after the round. *)
Inductive dots_case (s : list ascii) (q : nat) : list ascii → nat → Prop :=
  | dots_dot :
      ends_or_sep (drop (q + 2) s) = true →
      dots_case s q (take q s ++ drop (q + 2) s) q
  | dots_pop sl :
      dot_segment (drop q s) = true → ends_or_sep (drop (q + 3) s) = true →
      sl < q → nth sl s NUL = "/"%char →
      dots_case s q (take sl s ++ drop (q + 3) s) sl
  | dots_pop_first :
      dot_segment (drop q s) = true → ends_or_sep (drop (q + 3) s) = true →
      dots_case s q
        (drop (if Ascii.eqb (nth (q + 3) s NUL) "/"%char then q + 4
               else q + 3) s) 0
  | dots_skip :
      dot_segment (drop q s) = false → dots_case s q s (q + 2).

(** The string is in the form that [normalize_path] aims at, but for a
    leading [./] or [..]: it does not begin with a separator and holds
    neither [//] nor a segment [.] or [..] after a separator. *)
Definition normal (s : list ascii) : Prop :=
  head s ≠ Some "/"%char
  ∧ (∀ k, starts_with (bytes "//") (drop k s) = false)
  ∧ (∀ k, dot_segment (drop k s) = false).

(** The form that the second loop is after: no separator in front, no
    [//] before [i]. *)
Definition slashes_done (s : list ascii) (i : nat) : Prop :=
  head s ≠ Some "/"%char
  ∧ ∀ k, k < i → starts_with (bytes "//") (drop k s) = false.

(** And the third: no [//] anywhere, no segment [.] or [..] before
    [i]. *)
Definition dots_done (s : list ascii) (i : nat) : Prop :=
  head s ≠ Some "/"%char
  ∧ (∀ k, starts_with (bytes "//") (drop k s) = false)
  ∧ ∀ k, k < i → dot_segment (drop k s) = false.

(** * Properties *)

(** ** Reading bytes and strings *)

Section Bytes.
Implicit Types b c l : list ascii.
Implicit Types i j k n : nat.

Lemma eqb_NUL_false (x : ascii) : x ≠ NUL → Ascii.eqb x NUL = false.
Proof. intros H. by apply Ascii.eqb_neq. Qed.

Lemma rd_ge b i : length b ≤ i → rd b i = NUL.
Proof. intros H. unfold rd. by apply nth_overflow. Qed.

Lemma rd_lookup b i x : b !! i = Some x → rd b i = x.
Proof. intros H. unfold rd. by apply nth_lookup_Some. Qed.

Lemma rd_default b i : rd b i = default NUL (b !! i).
Proof. unfold rd. apply nth_lookup. Qed.

Lemma lookup_rd b i : i < length b → b !! i = Some (rd b i).
Proof.
  intros H. destruct (lookup_lt_is_Some_2 b i H) as [x Hx].
  by rewrite (rd_lookup _ _ _ Hx).
Qed.

Lemma rd_nonul_lt b i : rd b i ≠ NUL → i < length b.
Proof.
  intros H. destruct (decide (i < length b)) as [|Hge]; [done|].
  destruct H. apply rd_ge. lia.
Qed.

(** Two arrays of one size that read alike are equal. *)
Lemma rd_ext b c :
  length b = length c → (∀ i, i < length b → rd b i = rd c i) → b = c.
Proof.
  intros Hlen H. apply list_eq. intros i.
  destruct (decide (i < length b)) as [Hi|Hi].
  - rewrite !lookup_rd by lia. f_equal. by apply H.
  - rewrite !(lookup_ge_None_2 _ i) by lia. done.
Qed.

Lemma take_rd b c n i : take n b = take n c → i < n → rd b i = rd c i.
Proof.
  intros H Hi. rewrite !rd_default.
  rewrite <-(lookup_take_lt b n i), <-(lookup_take_lt c n i) by done.
  by rewrite H.
Qed.

Lemma rd_take_eq b c n :
  length b = length c → (∀ i, i < n → rd b i = rd c i) → take n b = take n c.
Proof.
  intros Hlen H. apply rd_ext.
  - rewrite !length_take. lia.
  - intros i Hi. rewrite length_take in Hi.
    rewrite !rd_default, !lookup_take_lt, <-!rd_default by lia.
    apply H. lia.
Qed.

Lemma str_unfold b i :
  str b i = if Ascii.eqb (rd b i) NUL then [] else rd b i :: str b (S i).
Proof.
  unfold str. destruct (b !! i) as [x|] eqn:Hx.
  - rewrite (rd_lookup _ _ _ Hx), (drop_S _ _ _ Hx). simpl.
    by destruct (Ascii.eqb x NUL).
  - apply lookup_ge_None_1 in Hx. rewrite rd_ge, drop_ge by done. done.
Qed.

Lemma str_nil b i : rd b i = NUL → str b i = [].
Proof. intros H. by rewrite str_unfold, H. Qed.

Lemma str_cons b i : rd b i ≠ NUL → str b i = rd b i :: str b (S i).
Proof. intros H. by rewrite str_unfold, eqb_NUL_false. Qed.

Lemma strlen_nil b i : rd b i = NUL → strlen b i = 0.
Proof. intros H. unfold strlen. by rewrite str_nil. Qed.

Lemma strlen_cons b i : rd b i ≠ NUL → strlen b i = S (strlen b (S i)).
Proof. intros H. unfold strlen. by rewrite str_cons. Qed.

Lemma cstr_nonul l : NUL ∉ cstr l.
Proof.
  induction l as [|x l IH]; simpl; [apply not_elem_of_nil|].
  destruct (Ascii.eqb_spec x NUL); [apply not_elem_of_nil|].
  apply not_elem_of_cons. done.
Qed.

Lemma cstr_app l l' : NUL ∉ l → cstr (l ++ NUL :: l') = l.
Proof.
  induction l as [|y l IH]; [done|]. intros [H1 H2]%not_elem_of_cons.
  simpl. rewrite eqb_NUL_false by done. by rewrite IH.
Qed.

Lemma cstr_app_nonul l l' : NUL ∉ l → cstr (l ++ l') = l ++ cstr l'.
Proof.
  induction l as [|x l IH]; [done|]. intros [H1 H2]%not_elem_of_cons.
  simpl. rewrite eqb_NUL_false by done. by rewrite IH.
Qed.

Lemma cstr_app_NUL l l' : cstr (l ++ NUL :: l') = cstr l.
Proof.
  induction l as [|x l IH]; simpl; [done|].
  destruct (Ascii.eqb x NUL); [done|]. by rewrite IH.
Qed.

Lemma length_cstr l : length (cstr l) ≤ length l.
Proof.
  induction l as [|x l IH]; simpl; [done|].
  destruct (Ascii.eqb x NUL); simpl; lia.
Qed.

Lemma str_nonul b i : NUL ∉ str b i.
Proof. apply cstr_nonul. Qed.

Lemma strlen_bound b i : i + strlen b i ≤ max i (length b).
Proof.
  unfold strlen, str. pose proof (length_cstr (drop i b)) as H.
  rewrite length_drop in H. lia.
Qed.

Lemma strlen_le b i : i ≤ length b → i + strlen b i ≤ length b.
Proof. pose proof (strlen_bound b i). lia. Qed.

(** The bytes of the string, and its terminator. *)
Lemma rd_str b i k : k < strlen b i → rd b (i + k) = nth k (str b i) NUL.
Proof.
  revert i. induction k as [|k IH]; intros i Hk.
  - rewrite Nat.add_0_r. destruct (Ascii.eqb_spec (rd b i) NUL) as [E|E].
    + rewrite strlen_nil in Hk by done. lia.
    + by rewrite str_cons.
  - destruct (Ascii.eqb_spec (rd b i) NUL) as [E|E].
    + rewrite strlen_nil in Hk by done. lia.
    + rewrite strlen_cons in Hk by done. rewrite str_cons by done. simpl.
      rewrite <-IH by lia. f_equal. lia.
Qed.

Lemma rd_str_nonul b i k : k < strlen b i → rd b (i + k) ≠ NUL.
Proof.
  intros Hk. rewrite rd_str by done. intros E.
  apply (str_nonul b i). rewrite <-E. apply list_elem_of_In, nth_In.
  done.
Qed.

Lemma rd_str_end b i : rd b (i + strlen b i) = NUL.
Proof.
  remember (strlen b i) as n eqn:Hn. revert i Hn.
  induction n as [|n IH]; intros i Hn.
  - rewrite Nat.add_0_r. destruct (Ascii.eqb_spec (rd b i) NUL) as [E|E]; [done|].
    rewrite strlen_cons in Hn by done. lia.
  - destruct (Ascii.eqb_spec (rd b i) NUL) as [E|E].
    + rewrite strlen_nil in Hn by done. lia.
    + rewrite strlen_cons in Hn by done.
      replace (i + S n) with (S i + n) by lia. apply IH. lia.
Qed.

(** A pointer into a string sees the rest of it. *)
Lemma str_shift b i k : k ≤ strlen b i → str b (i + k) = drop k (str b i).
Proof.
  revert i. induction k as [|k IH]; intros i Hk.
  - by rewrite Nat.add_0_r.
  - destruct (Ascii.eqb_spec (rd b i) NUL) as [E|E].
    + rewrite strlen_nil in Hk by done. lia.
    + rewrite strlen_cons in Hk by done. rewrite (str_cons b i) by done.
      simpl. rewrite <-IH by lia. f_equal. lia.
Qed.

Lemma strlen_shift b i k : k ≤ strlen b i → strlen b (i + k) = strlen b i - k.
Proof.
  intros H. unfold strlen at 1. rewrite str_shift by done.
  rewrite length_drop. done.
Qed.

(** A byte that is not NUL extends the string by one. *)
Lemma strlen_extend b i k : k ≤ strlen b i → rd b (i + k) ≠ NUL → S k ≤ strlen b i.
Proof.
  intros Hk Hrd. destruct (decide (k = strlen b i)) as [->|]; [|lia].
  destruct Hrd. apply rd_str_end.
Qed.

(** The string depends on the bytes up to its terminator only. *)
Lemma str_ext b i c j :
  (∀ k, k ≤ strlen c j → rd b (i + k) = rd c (j + k)) → str b i = str c j.
Proof.
  remember (strlen c j) as n eqn:Hn. revert i j Hn.
  induction n as [|n IH]; intros i j Hn H.
  - pose proof (H 0 ltac:(lia)) as H0. rewrite !Nat.add_0_r in H0.
    pose proof (rd_str_end c j) as He. rewrite <-Hn, Nat.add_0_r in He.
    rewrite (str_nil c j), (str_nil b i); congruence.
  - pose proof (H 0 ltac:(lia)) as H0. rewrite !Nat.add_0_r in H0.
    assert (rd c j ≠ NUL) as Hc.
    { intros E. rewrite strlen_nil in Hn by done. lia. }
    rewrite (str_cons c j), (str_cons b i) by congruence.
    rewrite H0. f_equal. apply IH.
    + rewrite strlen_cons in Hn by done. lia.
    + intros k Hk. replace (S i + k) with (i + S k) by lia.
      replace (S j + k) with (j + S k) by lia. apply H. lia.
Qed.

(** The string is what lies between the pointer and the first NUL. *)
Lemma str_unique b i l :
  NUL ∉ l → (∀ k, k < length l → rd b (i + k) = nth k l NUL) →
  rd b (i + length l) = NUL → str b i = l.
Proof.
  revert i. induction l as [|x l IH]; intros i Hl H He.
  - simpl in He. rewrite Nat.add_0_r in He. by apply str_nil.
  - apply not_elem_of_cons in Hl as [Hx Hl].
    pose proof (H 0 ltac:(simpl; lia)) as H0. rewrite Nat.add_0_r in H0.
    simpl in H0. rewrite str_cons by congruence. rewrite H0. f_equal.
    apply IH; [done| |].
    + intros k Hk. replace (S i + k) with (i + S k) by lia.
      rewrite H by (simpl; lia). done.
    + replace (S i + length l) with (i + length (x :: l)) by (simpl; lia).
      done.
Qed.

(** ** Writing bytes *)

Lemma length_block b src n : length (block b src n) = n.
Proof. unfold block. by rewrite length_fmap, length_seq. Qed.

Lemma lookup_block b src n k :
  k < n → block b src n !! k = Some (rd b (src + k)).
Proof.
  intros Hk. unfold block. rewrite list_lookup_fmap, lookup_seq_lt by done.
  done.
Qed.

Lemma nth_block b src n k : k < n → nth k (block b src n) NUL = rd b (src + k).
Proof. intros Hk. apply nth_lookup_Some. by apply lookup_block. Qed.

Lemma block_str b i : block b i (strlen b i + 1) = str b i ++ [NUL].
Proof.
  apply list_eq. intros k.
  destruct (decide (k < strlen b i + 1)) as [Hk|Hk].
  - rewrite lookup_block by done.
    destruct (decide (k < strlen b i)) as [Hk'|Hk'].
    + rewrite lookup_app_l by done. rewrite rd_str by done.
      symmetry. apply lookup_rd. done.
    + replace k with (strlen b i) by lia. rewrite rd_str_end.
      rewrite lookup_app_r by done. unfold strlen.
      by rewrite Nat.sub_diag.
  - rewrite !lookup_ge_None_2; [done| |].
    + rewrite length_app. simpl. unfold strlen in Hk. lia.
    + rewrite length_block. lia.
Qed.

Lemma length_splice b dst l : length (splice b dst l) = length b.
Proof.
  unfold splice. rewrite length_take, !length_app, length_take, length_drop.
  lia.
Qed.

Lemma rd_splice b dst l i :
  rd (splice b dst l) i =
  if decide (dst ≤ i < dst + length l ∧ i < length b)
  then nth (i - dst) l NUL else rd b i.
Proof.
  destruct (decide (i < length b)) as [Hi|Hi].
  2:{ rewrite decide_False by lia. rewrite !rd_ge; [done|lia|].
      rewrite length_splice. lia. }
  rewrite (rd_default (splice _ _ _)). unfold splice.
  rewrite lookup_take_lt by done.
  destruct (decide (i < dst)) as [Hd|Hd].
  - rewrite decide_False by lia.
    rewrite lookup_app_l by (rewrite length_take; lia).
    rewrite lookup_take_lt by done. by rewrite rd_default.
  - rewrite lookup_app_r by (rewrite length_take; lia).
    rewrite length_take_le by lia.
    destruct (decide (i - dst < length l)) as [Hl|Hl].
    + rewrite decide_True by lia. rewrite lookup_app_l by done.
      by rewrite nth_lookup.
    + rewrite decide_False by lia. rewrite lookup_app_r by lia.
      rewrite lookup_drop, rd_default. do 2 f_equal. lia.
Qed.

Lemma rd_splice_lt b dst l i : i < dst → rd (splice b dst l) i = rd b i.
Proof. intros H. rewrite rd_splice, decide_False by lia. done. Qed.

Lemma rd_splice_in b dst l k :
  k < length l → dst + k < length b → rd (splice b dst l) (dst + k) = nth k l NUL.
Proof.
  intros H1 H2. rewrite rd_splice, decide_True by lia. f_equal. lia.
Qed.

Lemma take_splice b dst l n : n ≤ dst → take n (splice b dst l) = take n b.
Proof.
  intros H. apply rd_take_eq; [apply length_splice|].
  intros i Hi. apply rd_splice_lt. lia.
Qed.

Lemma rd_insert b j x i :
  rd (<[j:=x]> b) i = if decide (i = j ∧ j < length b) then x else rd b i.
Proof.
  rewrite !rd_default. destruct (decide (i = j)) as [->|Hne].
  - destruct (decide (j < length b)) as [Hj|Hj].
    + rewrite decide_True by done. by rewrite list_lookup_insert_eq.
    + rewrite decide_False by lia. by rewrite list_insert_ge by lia.
  - rewrite decide_False by lia. by rewrite list_lookup_insert_ne.
Qed.

Lemma rd_insert_eq b j x : j < length b → rd (<[j:=x]> b) j = x.
Proof. intros H. rewrite rd_insert, decide_True by done. done. Qed.

Lemma rd_insert_ne b j x i : i ≠ j → rd (<[j:=x]> b) i = rd b i.
Proof. intros H. rewrite rd_insert, decide_False by lia. done. Qed.

(** A string written with its terminator is read back. *)
Lemma str_splice b dst l :
  NUL ∉ l → dst + length l ≤ max dst (length b) →
  str (splice b dst (l ++ [NUL])) dst = l.
Proof.
  intros Hl Hlen. apply str_unique; [done| |].
  - intros k Hk. rewrite rd_splice_in.
    + by rewrite app_nth1.
    + rewrite length_app. simpl. lia.
    + lia.
  - destruct (decide (dst + length l < length b)) as [Hd|Hd].
    + rewrite rd_splice_in.
      * rewrite app_nth2 by lia. by rewrite Nat.sub_diag.
      * rewrite length_app. simpl. lia.
      * done.
    + apply rd_ge. rewrite length_splice. lia.
Qed.

Lemma length_memmove b dst src n : length (memmove b dst src n) = length b.
Proof. apply length_splice. Qed.

Lemma take_memmove b dst src n k :
  k ≤ dst → take k (memmove b dst src n) = take k b.
Proof. apply take_splice. Qed.

Lemma rd_memmove_lt b dst src n i : i < dst → rd (memmove b dst src n) i = rd b i.
Proof. apply rd_splice_lt. Qed.

(** Moving a string to the left, terminator included. *)
Lemma memmove_str b dst src :
  dst ≤ src → str (memmove b dst src (strlen b src + 1)) dst = str b src.
Proof.
  intros H. unfold memmove. rewrite block_str. apply str_splice.
  - apply str_nonul.
  - pose proof (strlen_bound b src). unfold strlen in *. lia.
Qed.

Lemma length_memcpy b dst from src n :
  length (memcpy b dst from src n) = length b.
Proof. apply length_splice. Qed.

Lemma take_memcpy b dst from src n k :
  k ≤ dst → take k (memcpy b dst from src n) = take k b.
Proof. apply take_splice. Qed.

(** Copying a string in, terminator included. *)
Lemma memcpy_str b dst from src :
  dst + strlen from src < length b →
  str (memcpy b dst from src (strlen from src + 1)) dst = str from src.
Proof.
  intros H. unfold memcpy. rewrite block_str. apply str_splice.
  - apply str_nonul.
  - unfold strlen in *. lia.
Qed.

Lemma str_insert_lt b j x i : j < i → str (<[j:=x]> b) i = str b i.
Proof.
  intros H. apply str_ext. intros k _. apply rd_insert_ne. lia.
Qed.

(** A string whose first bytes are kept: the kept part, then whatever
    string now starts behind it. *)
Lemma str_prefix b c p q :
  (∀ k, k < q → rd c k = rd b k) → p ≤ q → q ≤ p + strlen b p →
  str c p = take (q - p) (str b p) ++ str c q.
Proof.
  intros Hrd. remember (q - p) as n eqn:Hn. revert p Hn.
  induction n as [|n IH]; intros p Hn Hpq Hq.
  - replace p with q by lia. done.
  - assert (rd b p ≠ NUL) as Hp.
    { intros E. rewrite strlen_nil in Hq by done. lia. }
    rewrite strlen_cons in Hq by done.
    rewrite (str_cons b p) by done. simpl.
    rewrite (str_cons c p) by (rewrite Hrd by lia; done).
    rewrite Hrd by lia. f_equal. apply IH; lia.
Qed.

End Bytes.

(** ** Searching *)

Section Search.
Implicit Types b c l : list ascii.

Lemma find_sub_Some needle l i q :
  find_sub needle l i = Some q →
  ∃ k, q = i + k ∧ k < length l ∧ starts_with needle (drop k l) = true
       ∧ ∀ k', k' < k → starts_with needle (drop k' l) = false.
Proof.
  revert i. induction l as [|x l IH]; intros i H; [done|].
  cbn [find_sub] in H.
  destruct (starts_with needle (x :: l)) eqn:E.
  - injection H as <-. exists 0. repeat split; [lia|simpl; lia|done|].
    intros k' Hk'. lia.
  - apply IH in H as (k & -> & Hk & Hs & Hmin).
    exists (S k). repeat split; [lia|simpl; lia|done|].
    intros [|k'] Hk'; [done|]. apply Hmin. lia.
Qed.

Lemma find_last_Some x l i q :
  find_last x l i = Some q → ∃ k, q = i + k ∧ k < length l ∧ nth k l NUL = x.
Proof.
  revert i. induction l as [|y l IH]; intros i H; [done|].
  cbn [find_last] in H. destruct (find_last x l (S i)) as [j|] eqn:E.
  - injection H as <-. apply IH in E as (k & -> & Hk & Hx).
    exists (S k). repeat split; [lia|simpl; lia|done].
  - destruct (Ascii.eqb_spec y x) as [->|]; [|done].
    injection H as <-. exists 0. repeat split; [lia|simpl; lia].
Qed.

(** Where [strstr] finds its two-byte needle. *)
Lemma strstr_Some b pos x y q :
  strstr b pos [x; y] = Some q →
  pos ≤ q ∧ S (S (q - pos)) ≤ strlen b pos ∧ rd b q = x ∧ rd b (S q) = y.
Proof.
  unfold strstr. intros (k & -> & Hk & Hs & _)%find_sub_Some.
  rewrite <-str_shift in Hs by (unfold strlen; lia).
  rewrite str_unfold in Hs.
  destruct (Ascii.eqb_spec (rd b (pos + k)) NUL) as [|E1]; [done|].
  rewrite str_unfold in Hs.
  destruct (Ascii.eqb_spec (rd b (S (pos + k))) NUL) as [|E2];
    [simpl in Hs; by rewrite andb_false_r in Hs|].
  simpl in Hs. rewrite andb_true_r in Hs.
  apply andb_true_iff in Hs as [->%Ascii.eqb_eq ->%Ascii.eqb_eq].
  assert (S k ≤ strlen b pos) as H1.
  { apply strlen_extend; [unfold strlen; lia|done]. }
  assert (S (S k) ≤ strlen b pos) as H2.
  { apply strlen_extend; [done|]. by replace (pos + S k) with (S (pos + k)) by lia. }
  replace (pos + k - pos) with k by lia. repeat split; [lia|done..].
Qed.

Lemma strrchr_Some b path x q :
  strrchr b path x = Some q →
  path ≤ q < path + strlen b path ∧ rd b q = x.
Proof.
  unfold strrchr. intros (k & -> & Hk & Hx)%find_last_Some.
  split; [unfold strlen; lia|]. by rewrite rd_str.
Qed.

Lemma memcmp0_rd b i lit k :
  memcmp0 b i lit = true → k < length lit → rd b (i + k) = nth k lit NUL.
Proof.
  unfold memcmp0, bytes_eqb. intros H%bool_decide_eq_true Hk.
  rewrite <-(nth_block b i (length lit) k) by done. by rewrite H.
Qed.

End Search.

(** ** Loops *)

Section While.
Context {S : Type} (body : S → option S).

Lemma while_inv (P : S → Prop) :
  (∀ s s', P s → body s = Some s' → P s') →
  ∀ n s, P s → P (while n body s).
Proof.
  intros Hstep n. induction n as [|n IH]; intros s Hs; [done|].
  simpl. destruct (body s) as [s'|] eqn:E; [|done].
  apply IH. by apply (Hstep s).
Qed.

(** With a measure that every round decreases, the loop leaves by its
    condition as soon as the fuel exceeds the measure, and more fuel
    changes nothing. *)
Context (I : S → Prop) (mu : S → nat).
Hypothesis step : ∀ s s', I s → body s = Some s' → I s' ∧ mu s' < mu s.

Lemma while_exit n s : I s → mu s < n → body (while n body s) = None.
Proof.
  revert s. induction n as [|n IH]; intros s Hs Hn; [lia|].
  simpl. destruct (body s) as [s'|] eqn:E; [|done].
  destruct (step s s' Hs E) as [Hs' Hmu]. apply IH; [done|lia].
Qed.

Lemma while_fuel n m s : I s → mu s < n → mu s < m →
  while n body s = while m body s.
Proof.
  revert m s. induction n as [|n IH]; intros m s Hs Hn Hm; [lia|].
  destruct m as [|m]; [lia|].
  simpl. destruct (body s) as [s'|] eqn:E; [|done].
  destruct (step s s' Hs E) as [Hs' Hmu]. apply IH; [done|lia..].
Qed.

End While.

(** ** normalize_path: what every round keeps *)

Section Normalize.
Variable path : nat.
Implicit Types b c : list ascii.

Lemma inside_start b : inside path b path.
Proof. unfold inside. lia. Qed.

Lemma shrunk_refl b : shrunk path b b.
Proof. by repeat split. Qed.

Lemma shrunk_trans b1 b2 b3 :
  shrunk path b1 b2 → shrunk path b2 b3 → shrunk path b1 b3.
Proof.
  intros (H1 & H2 & H3) (H4 & H5 & H6). repeat split; [congruence..|lia].
Qed.

Lemma strlen_inside b pos :
  inside path b pos → strlen b pos = strlen b path - (pos - path).
Proof.
  intros [H1 H2]. rewrite <-strlen_shift by lia. f_equal. lia.
Qed.

Lemma strlen_max b i : strlen b i ≤ length b.
Proof. pose proof (strlen_bound b i). lia. Qed.

(** The one way the loops change the buffer: the string at [src] is
    moved left to [q], both inside the string at [path].  [b1] is [b],
    or [b] with a NUL put at [pos] by the third loop. *)
Lemma delete_core b b1 q src :
  length b1 = length b → (∀ k, k < q → rd b1 k = rd b k) →
  str b1 src = str b src →
  path ≤ q → q ≤ src → src ≤ path + strlen b path →
  let b' := memmove b1 q src (strlen b1 src + 1) in
  shrunk path b b' ∧ inside path b' q
  ∧ strlen b' q = strlen b path - (src - path)
  ∧ str b' path = take (q - path) (str b path) ++ str b src.
Proof.
  intros Hlen Hrd Hsrc Hq Hqs Hs b'.
  assert (length b' = length b) as Hlen'.
  { unfold b'. by rewrite length_memmove. }
  assert (∀ k, k < q → rd b' k = rd b k) as Hrd'.
  { intros k Hk. unfold b'. rewrite rd_memmove_lt by done. by apply Hrd. }
  assert (str b' q = str b src) as Hq'.
  { unfold b'. by rewrite memmove_str. }
  assert (str b' path = take (q - path) (str b path) ++ str b src) as Hv.
  { rewrite <-Hq'. apply str_prefix; [done|lia..]. }
  assert (strlen b src = strlen b path - (src - path)) as Hl.
  { apply strlen_inside. unfold inside. lia. }
  assert (strlen b' path = (q - path) + strlen b src) as Hl'.
  { unfold strlen at 1. rewrite Hv, length_app, length_take.
    unfold strlen in *. lia. }
  repeat split; try done.
  - apply rd_take_eq; [done|]. intros i Hi. apply Hrd'. lia.
  - lia.
  - lia.
  - unfold strlen at 1. rewrite Hq'. done.
Qed.

Lemma strip_leading_step b b' :
  strip_leading_body path b = Some b' →
  shrunk path b b' ∧ strlen b' path < strlen b path.
Proof.
  unfold strip_leading_body. intros H.
  destruct (_ || _) eqn:E; [|done]. injection H as <-.
  assert (rd b path ≠ NUL) as Hnz.
  { apply orb_true_iff in E as [E|E].
    - apply Ascii.eqb_eq in E. rewrite E. done.
    - apply andb_true_iff in E as [E _]. apply Ascii.eqb_eq in E.
      rewrite E. done. }
  assert (1 ≤ strlen b path) as H1.
  { apply (strlen_extend b path 0); [lia|]. by rewrite Nat.add_0_r. }
  destruct (delete_core b b path (path + 1)) as (Hs & _ & Hl & _);
    [done|done|done|lia..|].
  split; [done|]. rewrite Hl. lia.
Qed.

Lemma collapse_slashes_step b pos b' pos' :
  inside path b pos → collapse_slashes_body (b, pos) = Some (b', pos') →
  shrunk path b b' ∧ inside path b' pos' ∧ strlen b' pos' < strlen b pos.
Proof.
  intros Hin H. unfold collapse_slashes_body in H.
  destruct (strstr b pos (bytes "//")) as [q|] eqn:E; [|done].
  injection H as <- <-.
  apply strstr_Some in E as (Hq & Hlen & _ & _).
  pose proof (strlen_inside b pos Hin) as Hp. destruct Hin as [Hin1 Hin2].
  destruct (delete_core b b q (q + 1)) as (Hs & Hi & Hl & _);
    [done|done|done|lia..|].
  repeat split; [apply Hs..|apply Hi|apply Hi|]. rewrite Hl. lia.
Qed.

Lemma resolve_dots_step b pos b' pos' :
  inside path b pos → resolve_dots_body path (b, pos) = Some (b', pos') →
  shrunk path b b' ∧ inside path b' pos' ∧ strlen b' pos' < strlen b pos.
Proof.
  intros Hin H. unfold resolve_dots_body in H.
  destruct (strstr b pos (bytes "/.")) as [q|] eqn:E; [|done].
  apply strstr_Some in E as (Hq & Hlen & Hq0 & Hq1).
  pose proof (strlen_inside b pos Hin) as Hp. destruct Hin as [Hin1 Hin2].
  destruct (memcmp0 b q (bytes "//")) eqn:E1.
  { injection H as <- <-.
    destruct (delete_core b b q (q + 1)) as (Hs & Hi & Hl & _);
      [done|done|done|lia..|].
    repeat split; [apply Hs..|apply Hi|apply Hi|]. rewrite Hl. lia. }
  destruct (_ || _) eqn:E2 in H.
  { injection H as <- <-.
    destruct (delete_core b b q (q + 2)) as (Hs & Hi & Hl & _);
      [done|done|done|lia..|].
    repeat split; [apply Hs..|apply Hi|apply Hi|]. rewrite Hl. lia. }
  destruct (_ || _) eqn:E3 in H.
  2:{ injection H as <- <-. split; [apply shrunk_refl|].
      split; [unfold inside; lia|].
      rewrite (strlen_inside b (q + 2)) by (unfold inside; lia). lia. }
  assert (rd b (q + 2) = "."%char) as Hq2.
  { apply orb_true_iff in E3 as [E3|E3];
      apply (memcmp0_rd _ _ _ 2) in E3; try done; simpl; lia. }
  assert (q + 3 ≤ path + strlen b path) as Hq3.
  { pose proof (strlen_extend b path (q + 2 - path)) as He.
    replace (path + (q + 2 - path)) with (q + 2) in He by lia.
    rewrite Hq2 in He. specialize (He ltac:(lia) ltac:(done)). lia. }
  assert (q < length b) as Hqb.
  { apply rd_nonul_lt. by rewrite Hq0. }
  set (b1 := <[q:=NUL]> b) in *.
  assert (length b1 = length b) as Hb1 by apply length_insert.
  assert (∀ src, q < src → str b1 src = str b src) as Hsrc.
  { intros src Hsrc. by apply str_insert_lt. }
  assert (str b1 path = take (q - path) (str b path)) as Hv1.
  { rewrite (str_prefix b b1 path q); [|intros; apply rd_insert_ne; lia|lia..].
    rewrite (str_nil b1 q); [by rewrite app_nil_r|]. by apply rd_insert_eq. }
  destruct (strrchr b1 path "/"%char) as [slash|] eqn:Er.
  - injection H as <- <-.
    apply strrchr_Some in Er as [Hsl _].
    assert (slash < q) as Hslq.
    { unfold strlen in Hsl. rewrite Hv1, length_take in Hsl. lia. }
    destruct (delete_core b b1 slash (q + 3)) as (Hs & Hi & Hl & _);
      [done| |apply Hsrc; lia|lia..|].
    { intros k Hk. apply rd_insert_ne. lia. }
    repeat split; [apply Hs..|apply Hi|apply Hi|]. rewrite Hl. lia.
  - destruct (Ascii.eqb_spec (rd b1 (q + 3)) "/"%char) as [E4|E4];
      injection H as <- <-.
    + assert (q + 4 ≤ path + strlen b path) as Hq4.
      { unfold b1 in E4. rewrite rd_insert_ne in E4 by lia.
        pose proof (strlen_extend b path (q + 3 - path)) as He.
        replace (path + (q + 3 - path)) with (q + 3) in He by lia.
        rewrite E4 in He. specialize (He ltac:(lia) ltac:(done)). lia. }
      destruct (delete_core b b1 path (q + 1 + 3)) as (Hs & Hi & Hl & _);
        [done| |apply Hsrc; lia|lia..|].
      { intros k Hk. apply rd_insert_ne. lia. }
      repeat split; [apply Hs..|apply Hi|apply Hi|]. rewrite Hl. lia.
    + destruct (delete_core b b1 path (q + 3)) as (Hs & Hi & Hl & _);
        [done| |apply Hsrc; lia|lia..|].
      { intros k Hk. apply rd_insert_ne. lia. }
      repeat split; [apply Hs..|apply Hi|apply Hi|]. rewrite Hl. lia.
Qed.

End Normalize.

(** ** normalize_path as a whole *)

Section NormalizeLoops.
Variable path : nat.
Implicit Types b c : list ascii.

Let good (b0 : list ascii) (s : list ascii * nat) : Prop :=
  shrunk path b0 s.1 ∧ inside path s.1 s.2.

Lemma strip_leading_shrunk n b :
  shrunk path b (while n (strip_leading_body path) b).
Proof.
  apply (while_inv _ (shrunk path b)); [|apply shrunk_refl].
  intros s s' Hs Hb. apply strip_leading_step in Hb as [Hb _].
  by apply (shrunk_trans _ _ s).
Qed.

Lemma collapse_slashes_good n b0 s :
  good b0 s → good b0 (while n collapse_slashes_body s).
Proof.
  apply (while_inv _ (good b0)).
  intros [b pos] [b' pos'] [Hs Hi] Hb.
  apply (collapse_slashes_step path) in Hb as (Hb1 & Hb2 & _); [|done].
  split; [|done]. by apply (shrunk_trans _ _ b).
Qed.

Lemma resolve_dots_good n b0 s :
  good b0 s → good b0 (while n (resolve_dots_body path) s).
Proof.
  apply (while_inv _ (good b0)).
  intros [b pos] [b' pos'] [Hs Hi] Hb.
  apply resolve_dots_step in Hb as (Hb1 & Hb2 & _); [|done].
  split; [|done]. by apply (shrunk_trans _ _ b).
Qed.

(** Normalising keeps the array's size and the bytes before [path], and
    does not lengthen the string at [path]. *)
Lemma normalize_fuel_shrunk n b : shrunk path b (normalize_fuel n b path).
Proof.
  unfold normalize_fuel.
  pose proof (strip_leading_shrunk n b) as H1.
  set (b1 := while n (strip_leading_body path) b) in *.
  pose proof (collapse_slashes_good n b (b1, path)) as H2.
  destruct (while n collapse_slashes_body (b1, path)) as [b2 p2].
  destruct H2 as [H2 _]; [split; [done|apply inside_start]|].
  apply resolve_dots_good. split; [done|apply inside_start].
Qed.

Lemma normalize_path_shrunk b : shrunk path b (normalize_path b path).
Proof. apply normalize_fuel_shrunk. Qed.

(** The fuel of [normalize_path] is enough: every loop leaves by its own
    condition, and any larger bound gives the same buffer. *)
Lemma strip_leading_fuel n m b :
  strlen b path < n → strlen b path < m →
  while n (strip_leading_body path) b = while m (strip_leading_body path) b.
Proof.
  apply (while_fuel _ (λ _, True) (λ b, strlen b path)); [|done].
  intros s s' _ Hb. apply strip_leading_step in Hb as [_ Hb]. done.
Qed.

Lemma collapse_slashes_fuel n m s :
  inside path s.1 s.2 → strlen s.1 s.2 < n → strlen s.1 s.2 < m →
  while n collapse_slashes_body s = while m collapse_slashes_body s.
Proof.
  apply (while_fuel _ (λ s, inside path s.1 s.2) (λ s, strlen s.1 s.2)).
  intros [b pos] [b' pos'] Hi Hb.
  apply (collapse_slashes_step path) in Hb as (_ & Hb2 & Hb3); done.
Qed.

Lemma resolve_dots_fuel n m s :
  inside path s.1 s.2 → strlen s.1 s.2 < n → strlen s.1 s.2 < m →
  while n (resolve_dots_body path) s = while m (resolve_dots_body path) s.
Proof.
  apply (while_fuel _ (λ s, inside path s.1 s.2) (λ s, strlen s.1 s.2)).
  intros [b pos] [b' pos'] Hi Hb.
  apply resolve_dots_step in Hb as (_ & Hb2 & Hb3); done.
Qed.

Lemma resolve_dots_exit n s :
  inside path s.1 s.2 → strlen s.1 s.2 < n →
  resolve_dots_body path (while n (resolve_dots_body path) s) = None.
Proof.
  apply (while_exit _ (λ s, inside path s.1 s.2) (λ s, strlen s.1 s.2)).
  intros [b pos] [b' pos'] Hi Hb.
  apply resolve_dots_step in Hb as (_ & Hb2 & Hb3); done.
Qed.

Lemma normalize_path_fuel n b :
  length b < n → normalize_fuel n b path = normalize_path b path.
Proof.
  intros Hn. unfold normalize_path, normalize_fuel.
  rewrite (strip_leading_fuel n (S (length b)) b)
    by (pose proof (strlen_max b path); lia).
  pose proof (strip_leading_shrunk (S (length b)) b) as (H1 & _ & _).
  set (b1 := while (S (length b)) (strip_leading_body path) b) in *.
  rewrite (collapse_slashes_fuel n (S (length b)) (b1, path));
    [|apply inside_start|simpl; pose proof (strlen_max b1 path); lia..].
  pose proof (collapse_slashes_good (S (length b)) b1 (b1, path)) as H2.
  destruct (while (S (length b)) collapse_slashes_body (b1, path)) as [b2 p2].
  destruct H2 as [(H2 & _ & _) _]; [split; [apply shrunk_refl|apply inside_start]|].
  simpl in H2.
  rewrite (resolve_dots_fuel n (S (length b)) (b2, path));
    [done|apply inside_start|simpl; pose proof (strlen_max b2 path); lia..].
Qed.

End NormalizeLoops.

(** ** The normaliser sees the string only *)

Section Views.
Implicit Types b c l s : list ascii.

Lemma rd_view b i k : k ≤ strlen b i → rd b (i + k) = nth k (str b i) NUL.
Proof.
  intros Hk. destruct (decide (k < strlen b i)) as [Hlt|Hge].
  - by apply rd_str.
  - replace k with (strlen b i) by lia. rewrite rd_str_end.
    symmetry. apply nth_overflow. unfold strlen. lia.
Qed.

Lemma find_sub_base needle l i :
  find_sub needle l i = (λ k, i + k) <$> find_sub needle l 0.
Proof.
  revert i. induction l as [|x l IH]; intros i; [done|].
  cbn [find_sub]. destruct (starts_with needle (x :: l)).
  - simpl. f_equal. lia.
  - rewrite (IH (S i)), (IH 1). destruct (find_sub needle l 0); simpl; [|done].
    f_equal. lia.
Qed.

Lemma find_last_base x l i :
  find_last x l i = (λ k, i + k) <$> find_last x l 0.
Proof.
  revert i. induction l as [|y l IH]; intros i; [done|].
  cbn [find_last]. rewrite (IH (S i)), (IH 1).
  destruct (find_last x l 0); simpl.
  - f_equal. lia.
  - destruct (Ascii.eqb y x); simpl; [|done]. f_equal. lia.
Qed.

Lemma block_S b i n : block b i (S n) = rd b i :: block b (S i) n.
Proof. done. Qed.

Lemma bytes_eqb_cons x l y l' :
  bytes_eqb (x :: l) (y :: l') = Ascii.eqb x y && bytes_eqb l l'.
Proof.
  unfold bytes_eqb. destruct (Ascii.eqb_spec x y) as [->|Hne]; simpl.
  - apply bool_decide_ext. split; [by intros [= ->]|by intros ->].
  - apply bool_decide_eq_false_2. by intros [= ? ?].
Qed.

(** [memcmp] against a literal without NUL asks whether the string
    starts with it. *)
Lemma memcmp0_plain b i lit :
  NUL ∉ lit → memcmp0 b i lit = starts_with lit (str b i).
Proof.
  unfold memcmp0. revert i. induction lit as [|x lit IH]; intros i Hn.
  - done.
  - apply not_elem_of_cons in Hn as [Hx Hn]. simpl length.
    rewrite block_S, bytes_eqb_cons, IH by done. rewrite (str_unfold b i).
    destruct (Ascii.eqb_spec (rd b i) NUL) as [E|E].
    + rewrite E. destruct (Ascii.eqb_spec NUL x); [done|done].
    + cbn [starts_with]. by rewrite (Ascii.eqb_sym x).
Qed.

(** [memcmp] against a literal that ends with its NUL asks whether the
    string is the literal. *)
Lemma memcmp0_nul b i lit :
  NUL ∉ lit → memcmp0 b i (lit ++ [NUL]) = bytes_eqb (str b i) lit.
Proof.
  unfold memcmp0. revert i. induction lit as [|x lit IH]; intros i Hn.
  - simpl. rewrite block_S, bytes_eqb_cons. rewrite (str_unfold b i).
    destruct (Ascii.eqb_spec (rd b i) NUL) as [E|E]; simpl; [done|].
    symmetry. by apply bool_decide_eq_false_2.
  - apply not_elem_of_cons in Hn as [Hx Hn]. simpl.
    rewrite block_S, bytes_eqb_cons, IH by done. rewrite (str_unfold b i).
    destruct (Ascii.eqb_spec (rd b i) NUL) as [E|E].
    + rewrite E. destruct (Ascii.eqb_spec NUL x); [done|]. simpl.
      symmetry. by apply bool_decide_eq_false_2.
    + by rewrite bytes_eqb_cons.
Qed.

End Views.

(** ** Two runs of the normaliser on one string *)

Section Simulation.
Context {S T : Type} (R : S → T → Prop).
Context (body1 : S → option S) (body2 : T → option T).

Lemma while_sim :
  (∀ s t, R s t → in_step R (body1 s) (body2 t)) →
  ∀ n s t, R s t → R (while n body1 s) (while n body2 t).
Proof.
  intros Hstep n. induction n as [|n IH]; intros s t Hst; [done|].
  simpl. specialize (Hstep s t Hst). unfold in_step in Hstep.
  destruct (body1 s), (body2 t); try done. by apply IH.
Qed.

End Simulation.

(** A NUL put inside the string cuts it there. *)
Lemma str_cut (path : nat) (b : list ascii) (p : nat) :
  inside path b p → p < length b →
  str (<[p:=NUL]> b) path = take (p - path) (str b path).
Proof.
  intros [H1 H2] Hp.
  rewrite (str_prefix b (<[p:=NUL]> b) path p);
    [|intros; apply rd_insert_ne; lia|lia..].
  rewrite (str_nil _ p); [by rewrite app_nil_r|]. by apply rd_insert_eq.
Qed.

Section Locality.
Variables path q : nat.
Implicit Types b c l s : list ascii.

Lemma memcmp0_sim b i c j lit :
  lit ∈ dot_literals → str b i = str c j → memcmp0 b i lit = memcmp0 c j lit.
Proof.
  intros Hlit Hs. unfold dot_literals in Hlit.
  assert (∀ l, NUL ∉ l → memcmp0 b i l = memcmp0 c j l) as Hp.
  { intros l Hl. by rewrite !memcmp0_plain, Hs. }
  assert (∀ l, NUL ∉ l → memcmp0 b i (l ++ [NUL]) = memcmp0 c j (l ++ [NUL]))
    as Hn.
  { intros l Hl. by rewrite !memcmp0_nul, Hs. }
  repeat (apply elem_of_cons in Hlit as [->|Hlit]).
  - apply Hp. apply (bool_decide_unpack _). by vm_compute.
  - apply (Hn (bytes "/.")). apply (bool_decide_unpack _). by vm_compute.
  - apply Hp. apply (bool_decide_unpack _). by vm_compute.
  - apply (Hn (bytes "/..")). apply (bool_decide_unpack _). by vm_compute.
  - apply Hp. apply (bool_decide_unpack _). by vm_compute.
  - by apply elem_of_nil in Hlit.
Qed.

Lemma strip_leading_sim b c :
  str b path = str c q →
  in_step (λ b' c', str b' path = str c' q)
    (strip_leading_body path b) (strip_leading_body q c).
Proof.
  intros Hv. unfold strip_leading_body.
  assert (strlen b path = strlen c q) as Hl by (unfold strlen; by rewrite Hv).
  assert (rd b path = rd c q) as H0.
  { pose proof (rd_view b path 0 ltac:(lia)) as H1.
    pose proof (rd_view c q 0 ltac:(lia)) as H2.
    rewrite Nat.add_0_r in H1, H2. by rewrite H1, H2, Hv. }
  assert (rd b path ≠ NUL → rd b (path + 1) = rd c (q + 1)
                            ∧ str b (path + 1) = str c (q + 1)) as H1.
  { intros Hnz.
    assert (1 ≤ strlen b path) as Hb.
    { apply (strlen_extend b path 0); [lia|]. by rewrite Nat.add_0_r. }
    rewrite !rd_view, !str_shift by lia. by rewrite Hv. }
  rewrite <-H0.
  destruct (_ || _) eqn:E.
  - assert (rd b path ≠ NUL) as Hnz.
    { apply orb_true_iff in E as [E|E].
      - apply Ascii.eqb_eq in E. by rewrite E.
      - apply andb_true_iff in E as [E _]. apply Ascii.eqb_eq in E.
        by rewrite E. }
    destruct (H1 Hnz) as [H2 H3]. rewrite <-H2, E. simpl.
    rewrite !memmove_str by lia. done.
  - destruct (Ascii.eqb_spec (rd b path) NUL) as [Hz|Hnz].
    + rewrite Hz in *. simpl. done.
    + destruct (H1 Hnz) as [H2 H3]. rewrite <-H2, E. done.
Qed.

(** The string at [path + m] of [b], moved to [path + j], and the same
    move in [c]. *)
Lemma delete_sim b b1 c c1 j m p1 r1 p2 r2 :
  p1 = path + j → r1 = path + m → p2 = q + j → r2 = q + m →
  str b path = str c q → j ≤ m → m ≤ strlen b path →
  length b1 = length b → (∀ k, k < p1 → rd b1 k = rd b k) →
  str b1 r1 = str b r1 →
  length c1 = length c → (∀ k, k < p2 → rd c1 k = rd c k) →
  str c1 r2 = str c r2 →
  same_view path q
    (memmove b1 p1 r1 (strlen b1 r1 + 1), p1)
    (memmove c1 p2 r2 (strlen c1 r2 + 1), p2).
Proof.
  intros -> -> -> -> Hv Hjm Hm Hb1 Hb2 Hb3 Hc1 Hc2 Hc3.
  assert (strlen b path = strlen c q) as Hl by (unfold strlen; by rewrite Hv).
  destruct (delete_core path b b1 (path + j) (path + m))
    as (_ & Hbi & _ & Hbv); [done|done|done|lia..|].
  destruct (delete_core q c c1 (q + j) (q + m))
    as (_ & Hci & _ & Hcv); [done|done|done|lia..|].
  repeat split; simpl; try apply Hbi; try apply Hci; [|lia].
  rewrite Hbv, Hcv, !str_shift by lia. rewrite Hv. do 2 f_equal; lia.
Qed.

Lemma collapse_slashes_sim (x y : list ascii * nat) :
  same_view path q x y →
  in_step (same_view path q) (collapse_slashes_body x) (collapse_slashes_body y).
Proof.
  destruct x as [b pos], y as [c qos]. intros (Hv & Hi1 & Hi2 & Hoff).
  simpl in *.
  assert (strlen b path = strlen c q) as Hl by (unfold strlen; by rewrite Hv).
  destruct Hi1 as [Hi1 Hi1'], Hi2 as [Hi2 Hi2'].
  assert (∃ i, pos = path + i ∧ qos = q + i) as (i & -> & ->).
  { exists (pos - path). lia. }
  unfold collapse_slashes_body, strstr.
  rewrite !str_shift by lia. rewrite <-Hv.
  rewrite (find_sub_base _ _ (path + i)), (find_sub_base _ _ (q + i)).
  destruct (find_sub _ _ 0) as [k|] eqn:Ef; simpl; [|done].
  assert (i + k + 2 ≤ strlen b path) as Hk.
  { pose proof (strstr_Some b (path + i) "/"%char "/"%char (path + i + k)) as H.
    unfold strstr in H. rewrite str_shift, find_sub_base in H by lia.
    rewrite Ef in H.
    destruct (H eq_refl) as (_ & H2 & _).
    rewrite (strlen_shift b path i) in H2 by lia. lia. }
  apply (delete_sim b b c c (i + k) (i + k + 1)); try done; lia.
Qed.

Ltac dot_literal := apply (bool_decide_unpack _); by vm_compute.

Lemma resolve_dots_sim (x y : list ascii * nat) :
  same_view path q x y →
  in_step (same_view path q)
    (resolve_dots_body path x) (resolve_dots_body q y).
Proof.
  destruct x as [b pos], y as [c qos]. intros (Hv & Hi1 & Hi2 & Hoff).
  simpl in *.
  assert (strlen b path = strlen c q) as Hl by (unfold strlen; by rewrite Hv).
  destruct Hi1 as [Hi1 Hi1'], Hi2 as [Hi2 Hi2'].
  assert (∃ i, pos = path + i ∧ qos = q + i) as (i & -> & ->).
  { exists (pos - path). lia. }
  unfold resolve_dots_body, strstr.
  rewrite !str_shift by lia. rewrite <-Hv.
  rewrite (find_sub_base _ _ (path + i)), (find_sub_base _ _ (q + i)).
  destruct (find_sub _ _ 0) as [k|] eqn:Ef; simpl; [|done].
  assert (i + k + 2 ≤ strlen b path ∧ rd b (path + i + k) = "/"%char) as [Hk Hk0].
  { pose proof (strstr_Some b (path + i) "/"%char "."%char (path + i + k)) as H.
    unfold strstr in H. rewrite str_shift, find_sub_base in H by lia.
    rewrite Ef in H. destruct (H eq_refl) as (_ & H2 & H3 & _).
    rewrite (strlen_shift b path i) in H2 by lia. split; [lia|done]. }
  assert (str b (path + i + k) = str c (q + i + k)) as Hvk.
  { rewrite <-!Nat.add_assoc, !str_shift by lia. by rewrite Hv. }
  assert (∀ lit, lit ∈ dot_literals →
            memcmp0 c (q + i + k) lit = memcmp0 b (path + i + k) lit) as Hmc.
  { intros lit Hlit. symmetry. by apply memcmp0_sim. }
  rewrite !Hmc by dot_literal.
  destruct (memcmp0 b (path + i + k) [_; _]) eqn:E1.
  { apply (delete_sim b b c c (i + k) (i + k + 1)); try done; lia. }
  destruct (_ || _) eqn:E2.
  { apply (delete_sim b b c c (i + k) (i + k + 2)); try done; lia. }
  destruct (_ || _) eqn:E3 in |- *.
  2:{ repeat split; simpl; lia || done. }
  assert (rd b (path + i + k + 2) = "."%char) as Hk2.
  { apply orb_true_iff in E3 as [E3|E3];
      apply (memcmp0_rd _ _ _ 2) in E3; try done; simpl; lia. }
  assert (i + k + 3 ≤ strlen b path) as Hk3.
  { pose proof (strlen_extend b path (i + k + 2)) as He.
    replace (path + (i + k + 2)) with (path + i + k + 2) in He by lia.
    rewrite Hk2 in He. specialize (He ltac:(lia) ltac:(done)). lia. }
  assert (path + i + k < length b) as Hpb.
  { apply rd_nonul_lt. by rewrite Hk0. }
  assert (q + i + k < length c) as Hqc.
  { apply rd_nonul_lt. rewrite <-Nat.add_assoc, rd_view, <-Hv by lia.
    rewrite <-rd_view, Nat.add_assoc by lia. by rewrite Hk0. }
  unfold strrchr.
  rewrite (str_cut path b) by (done || split; lia).
  rewrite (str_cut q c) by (done || split; lia).
  replace (path + i + k - path) with (i + k) by lia.
  replace (q + i + k - q) with (i + k) by lia. rewrite <-Hv.
  rewrite (find_last_base _ _ path), (find_last_base _ _ q).
  destruct (find_last _ _ 0) as [m|] eqn:El; simpl.
  - apply find_last_Some in El as (m' & -> & Hm & _).
    rewrite length_take in Hm. simpl.
    apply (delete_sim b _ c _ m' (i + k + 3)); try done; try lia.
    + apply length_insert.
    + intros z Hz. apply rd_insert_ne. lia.
    + apply str_insert_lt. lia.
    + apply length_insert.
    + intros z Hz. apply rd_insert_ne. lia.
    + apply str_insert_lt. lia.
  - rewrite !rd_insert_ne by lia.
    assert (rd c (q + i + k + 3) = rd b (path + i + k + 3)) as ->.
    { rewrite <-!Nat.add_assoc, !rd_view by lia. by rewrite Hv. }
    destruct (Ascii.eqb_spec (rd b (path + i + k + 3)) "/"%char) as [E4|E4].
    + assert (i + k + 4 ≤ strlen b path) as Hk4.
      { pose proof (strlen_extend b path (i + k + 3)) as He.
        replace (path + (i + k + 3)) with (path + i + k + 3) in He by lia.
        rewrite E4 in He. specialize (He ltac:(lia) ltac:(done)). lia. }
      apply (delete_sim b _ c _ 0 (i + k + 4)); try done; try lia.
      * apply length_insert.
      * intros z Hz. apply rd_insert_ne. lia.
      * apply str_insert_lt. lia.
      * apply length_insert.
      * intros z Hz. apply rd_insert_ne. lia.
      * apply str_insert_lt. lia.
    + apply (delete_sim b _ c _ 0 (i + k + 3)); try done; try lia.
      * apply length_insert.
      * intros z Hz. apply rd_insert_ne. lia.
      * apply str_insert_lt. lia.
      * apply length_insert.
      * intros z Hz. apply rd_insert_ne. lia.
      * apply str_insert_lt. lia.
Qed.

Lemma normalize_fuel_sim n b c :
  str b path = str c q →
  str (normalize_fuel n b path) path = str (normalize_fuel n c q) q.
Proof.
  intros Hv. unfold normalize_fuel.
  pose proof (while_sim (λ b' c', str b' path = str c' q) _ _
                strip_leading_sim n b c Hv) as H1.
  set (b1 := while n (strip_leading_body path) b) in *.
  set (c1 := while n (strip_leading_body q) c) in *.
  pose proof (while_sim (same_view path q) _ _
                collapse_slashes_sim n (b1, path) (c1, q)) as H2.
  destruct (while n collapse_slashes_body (b1, path)) as [b2 p2].
  destruct (while n collapse_slashes_body (c1, q)) as [c2 q2].
  destruct H2 as (H2 & _).
  { repeat split; simpl; done || lia. }
  simpl in H2.
  pose proof (while_sim (same_view path q) _ _
                resolve_dots_sim n (b2, path) (c2, q)) as H3.
  destruct H3 as (H3 & _); [|done].
  repeat split; simpl; done || lia.
Qed.

End Locality.

(** Normalising the string at [path] of a buffer gives the string that
    [normalize] gives for it: neither the bytes before [path] nor those
    after the terminator count. *)
Lemma normalize_path_local b path :
  str (normalize_path b path) path = normalize (str b path).
Proof.
  unfold normalize.
  set (c := str b path ++ [NUL]).
  set (n := S (max (length b) (length c))).
  rewrite <-(normalize_path_fuel path n b) by (unfold n; lia).
  rewrite <-(normalize_path_fuel 0 n c) by (unfold n; lia).
  apply normalize_fuel_sim. unfold c. symmetry.
  apply (cstr_app (str b path) []). apply str_nonul.
Qed.

Lemma normalize_shorter p : length (normalize p) ≤ length p.
Proof.
  unfold normalize.
  destruct (normalize_path_shrunk 0 (p ++ [NUL])) as (_ & _ & H).
  unfold strlen in H. etrans; [apply H|].
  unfold str. rewrite drop_0, (cstr_app_NUL p []). apply length_cstr.
Qed.

(** ** The normaliser on fragments *)

(** C5: what the code does.  Normalising twice is not normalising once:
    when [/..] removes the first segment, a [./] that comes to the front
    stays, and only a second run strips it. *)
Theorem normalize_not_idempotent :
  normalize (bytes "a/.././x") = bytes "./x"
  ∧ normalize (normalize (bytes "a/.././x")) = bytes "x"
  ∧ normalize (normalize (bytes "a/.././x")) ≠ normalize (bytes "a/.././x").
Proof. by vm_compute. Qed.

(** C3 as stated fails: a [..] at the very start of a fragment stays. *)
Lemma normalize_keeps_leading_dotdot :
  normalize (bytes "../x") = bytes "../x" ∧ normalize (bytes "..") = bytes "..".
Proof. by vm_compute. Qed.

(** ** [..] at the start of a fragment *)

Section DotDot.
Implicit Types b l seg name : list ascii.

Lemma while_stop {S : Type} (body : S → option S) n s :
  body s = None → while n body s = s.
Proof. intros H. destruct n; simpl; [done|]. by rewrite H. Qed.

Lemma while_step {S : Type} (body : S → option S) n s s' :
  body s = Some s' → while (Datatypes.S n) body s = while n body s'.
Proof. intros H. simpl. by rewrite H. Qed.

(** The search passes over bytes that are not the first of the needle. *)
Lemma find_sub_skip x needle l1 l2 i :
  x ∉ l1 →
  find_sub (x :: needle) (l1 ++ l2) i
  = find_sub (x :: needle) l2 (i + length l1).
Proof.
  revert i. induction l1 as [|y l1 IH]; intros i Hx.
  - simpl. by rewrite Nat.add_0_r.
  - apply not_elem_of_cons in Hx as [Hy Hx]. simpl.
    destruct (Ascii.eqb_spec x y) as [|_]; [done|]. simpl.
    rewrite IH by done. f_equal. lia.
Qed.

Lemma find_sub_absent x needle l i : x ∉ l → find_sub (x :: needle) l i = None.
Proof.
  intros Hx. rewrite <-(app_nil_r l), find_sub_skip by done. done.
Qed.

Lemma find_last_absent x l i : x ∉ l → find_last x l i = None.
Proof.
  revert i. induction l as [|y l IH]; intros i Hx; [done|].
  apply not_elem_of_cons in Hx as [Hy Hx]. simpl. rewrite IH by done.
  destruct (Ascii.eqb_spec y x) as [E|_]; [by destruct Hy|done].
Qed.

Lemma str_fragment p l : NUL ∉ p → str (p ++ NUL :: l) 0 = p.
Proof. intros H. unfold str. rewrite drop_0. by apply cstr_app. Qed.

(** A fragment on which no loop finds anything to do is left as it is. *)
Lemma normalize_fixed p :
  NUL ∉ p →
  strip_leading_body 0 (p ++ [NUL]) = None →
  find_sub (bytes "//") p 0 = None →
  find_sub (bytes "/.") p 0 = None →
  normalize p = p.
Proof.
  intros Hp H1 H2 H3. unfold normalize, normalize_path, normalize_fuel.
  rewrite (while_stop _ _ _ H1).
  rewrite (while_stop collapse_slashes_body).
  2:{ unfold collapse_slashes_body, strstr. by rewrite str_fragment, H2. }
  rewrite (while_stop (resolve_dots_body 0)).
  2:{ unfold resolve_dots_body, strstr. by rewrite str_fragment, H3. }
  by apply str_fragment.
Qed.

(** At a separator that a name follows, no needle [/y] is found unless
    the name starts with [y]. *)
Lemma find_sub_at_sep y name i :
  ("/"%char) ∉ name → head name ≠ Some y →
  find_sub ["/"%char; y] ("/"%char :: name) i = None.
Proof.
  intros Hs Hy. cbn [find_sub starts_with]. rewrite Ascii.eqb_refl.
  destruct name as [|c name]; [done|].
  cbn [starts_with andb].
  destruct (Ascii.eqb_spec y c) as [->|_]; [by destruct Hy|].
  cbn [andb]. by apply find_sub_absent.
Qed.

Lemma sep_not_head name : ("/"%char) ∉ name → head name ≠ Some "/"%char.
Proof.
  destruct name as [|c name]; [done|].
  intros [H _]%not_elem_of_cons [= ->]. done.
Qed.

Ltac no_byte := apply (bool_decide_unpack _); by vm_compute.

(** A [..] that starts the fragment stays. *)
Lemma normalize_leading_dotdot name :
  plain name → normalize (bytes "../" ++ name) = bytes "../" ++ name.
Proof.
  intros (Hs & Hn & Hd).
  change (bytes "../" ++ name) with (bytes ".." ++ "/"%char :: name).
  apply normalize_fixed.
  - apply not_elem_of_app. split; [no_byte|].
    apply not_elem_of_cons. by split.
  - done.
  - change (bytes "//") with ["/"%char; "/"%char].
    rewrite (find_sub_skip "/"%char) by no_byte.
    apply find_sub_at_sep; [done|by apply sep_not_head].
  - change (bytes "/.") with ["/"%char; "."%char].
    rewrite (find_sub_skip "/"%char) by no_byte.
    by apply find_sub_at_sep.
Qed.

(** The comparisons of the third loop at a [/..] that ends the fragment
    or that a separator follows. *)
Lemma dotdot_conditions b n t :
  str b n = bytes "/.." ++ t → t = [] ∨ (∃ name, t = "/"%char :: name) →
  memcmp0 b n (bytes "//") = false
  ∧ memcmp0 b n ["/"%char; "."%char; NUL] || memcmp0 b n (bytes "/./") = false
  ∧ memcmp0 b n ["/"%char; "."%char; "."%char; NUL]
    || memcmp0 b n (bytes "/../") = true.
Proof.
  intros Hs Ht.
  change ["/"%char; "."%char; NUL] with (bytes "/." ++ [NUL]).
  change ["/"%char; "."%char; "."%char; NUL] with (bytes "/.." ++ [NUL]).
  rewrite (memcmp0_plain b n (bytes "//")), (memcmp0_plain b n (bytes "/./")),
    (memcmp0_plain b n (bytes "/../")), (memcmp0_nul b n (bytes "/.")),
    (memcmp0_nul b n (bytes "/..")) by no_byte.
  rewrite Hs.
  destruct Ht as [->|[name ->]].
  - by vm_compute.
  - split; [done|]. split.
    + apply orb_false_iff. split; [|done].
      apply bool_decide_eq_false_2. discriminate.
    + apply orb_true_iff. right.
      change (bytes "/.." ++ "/"%char :: name) with (bytes "/../" ++ name).
      clear. induction (bytes "/../") as [|x l IH]; [done|].
      cbn [starts_with app]. by rewrite Ascii.eqb_refl.
Qed.

(** One round of the third loop on [seg/..] followed by the end or by a
    separator, [seg] being the one segment before: both go. *)
Lemma resolve_dots_pop_first b seg t :
  str b 0 = seg ++ bytes "/.." ++ t → ("/"%char) ∉ seg →
  t = [] ∨ (∃ name, t = "/"%char :: name) →
  ∃ b', resolve_dots_body 0 (b, 0) = Some (b', 0) ∧ str b' 0 = drop 1 t.
Proof.
  intros Hstr Hseg Ht. set (n := length seg).
  assert (strlen b 0 = n + (3 + length t)) as Hlen.
  { unfold strlen. by rewrite Hstr, !length_app. }
  assert (str b n = bytes "/.." ++ t) as Hsn.
  { pose proof (str_shift b 0 n ltac:(lia)) as H. simpl in H.
    rewrite H, Hstr. apply drop_app_length. }
  assert (str b (n + 3) = t) as Hs3.
  { pose proof (str_shift b 0 (n + 3) ltac:(lia)) as H. simpl in H.
    rewrite H, Hstr. unfold n. by rewrite drop_app_add. }
  assert (rd b n = "/"%char) as Hrn.
  { pose proof (rd_view b n 0 ltac:(lia)) as H.
    rewrite Nat.add_0_r in H. by rewrite H, Hsn. }
  assert (n < length b) as Hnb.
  { apply rd_nonul_lt. by rewrite Hrn. }
  assert (rd b (n + 3) = nth 0 t NUL) as Hr3.
  { pose proof (rd_view b (n + 3) 0 ltac:(lia)) as H.
    rewrite Nat.add_0_r in H. by rewrite H, Hs3. }
  destruct (dotdot_conditions b n t Hsn Ht) as (C1 & C2 & C3).
  unfold resolve_dots_body, strstr. rewrite Hstr.
  change (bytes "/.") with ["/"%char; "."%char].
  rewrite find_sub_skip by done.
  change (bytes "/.." ++ t) with ("/"%char :: "."%char :: "."%char :: t).
  cbn [find_sub starts_with]. rewrite !Ascii.eqb_refl. cbn [andb Nat.add].
  fold n. rewrite C1, C2, C3.
  unfold strrchr. rewrite (str_cut 0 b n) by (done || split; lia).
  rewrite Hstr, Nat.sub_0_r. unfold n at 1. rewrite take_app_length.
  rewrite find_last_absent by done.
  rewrite rd_insert_ne by lia. rewrite Hr3.
  destruct Ht as [->|[name ->]].
  - change (Ascii.eqb (nth 0 [] NUL) "/"%char) with false. cbv iota.
    eexists. split; [done|].
    rewrite memmove_str by lia. rewrite str_insert_lt by lia. by rewrite Hs3.
  - change (Ascii.eqb (nth 0 ("/"%char :: name) NUL) "/"%char) with true.
    cbv iota. eexists. split; [done|].
    rewrite memmove_str by lia. rewrite str_insert_lt by lia.
    pose proof (str_shift b (n + 3) 1) as H. rewrite Hs3 in H.
    replace (n + 1 + 3) with (n + 3 + 1) by lia. rewrite H; [done|].
    unfold strlen. rewrite Hs3. simpl. lia.
Qed.

(** C3, as amended.  A [..] at the very start of a fragment, which no
    [/] precedes, is not a [/..] segment for the normaliser: followed by
    nothing or by a plain name it stays in the output.  What is deleted
    is the [/..] that follows the first segment of the fragment, when it
    ends the fragment or a plain name follows it: that [..] and the
    segment before it both go, the first segment being [..] or not.
    Whatever the fragment, the bytes before it are left alone. *)
Theorem dotdot_at_start seg name :
  plain name →
  normalize (bytes "..") = bytes ".."
  ∧ normalize (bytes "../" ++ name) = bytes "../" ++ name
  ∧ (seg ≠ [] → ("/"%char) ∉ seg → NUL ∉ seg → seg ≠ bytes "." →
     normalize (seg ++ bytes "/..") = []
     ∧ normalize (seg ++ bytes "/../" ++ name) = name)
  ∧ (∀ b path, take path (normalize_path b path) = take path b).
Proof.
  intros Hpl. split; [by vm_compute|].
  split; [by apply normalize_leading_dotdot|].
  split; [|intros b path; apply normalize_path_shrunk].
  intros Hne Hs Hn Hdot. destruct Hpl as (Hps & Hpn & Hpd).
  assert (∀ t, t = [] ∨ t = "/"%char :: name →
               normalize (seg ++ bytes "/.." ++ t) = drop 1 t) as H.
  { intros t Ht.
    assert (NUL ∉ t) as Hnt.
    { destruct Ht as [->| ->]; [apply not_elem_of_nil|].
      apply not_elem_of_cons. by split. }
    assert (NUL ∉ seg ++ bytes "/.." ++ t) as Hnp.
    { apply not_elem_of_app. split; [done|].
      apply not_elem_of_app. split; [no_byte|done]. }
    set (p := seg ++ bytes "/.." ++ t) in *.
    unfold normalize, normalize_path, normalize_fuel.
    rewrite (while_stop (strip_leading_body 0)).
    2:{ unfold strip_leading_body, p.
        destruct seg as [|c0 [|c1 seg']]; [done| |].
        - change (rd _ 0) with c0.
          destruct (Ascii.eqb_spec c0 "/"%char) as [->|_].
          { destruct Hs. apply elem_of_cons. by left. }
          destruct (Ascii.eqb_spec c0 "."%char) as [->|_]; [by destruct Hdot|].
          done.
        - change (rd _ 0) with c0. change (rd _ (0 + 1)) with c1.
          destruct (Ascii.eqb_spec c0 "/"%char) as [->|_].
          { destruct Hs. apply elem_of_cons. by left. }
          destruct (Ascii.eqb_spec c1 "/"%char) as [->|_].
          { destruct Hs. apply elem_of_cons. right. apply elem_of_cons.
            by left. }
          by rewrite andb_false_r. }
    rewrite (while_stop collapse_slashes_body).
    2:{ unfold collapse_slashes_body, strstr.
        rewrite (str_fragment p []) by done. unfold p.
        change (bytes "//") with ["/"%char; "/"%char].
        rewrite find_sub_skip by done.
        change (bytes "/.." ++ t) with ("/"%char :: bytes ".." ++ t).
        cbn [find_sub starts_with].
        change (bytes ".." ++ t) with ("."%char :: "."%char :: t).
        cbn [find_sub starts_with].
        change (Ascii.eqb "/"%char "."%char) with false.
        rewrite Ascii.eqb_refl. cbn [andb].
        destruct Ht as [->| ->]; [done|].
        rewrite find_sub_at_sep; [done|done|by apply sep_not_head]. }
    destruct (resolve_dots_pop_first (p ++ [NUL]) seg t) as (b' & Hb & Hs').
    { by apply str_fragment. }
    { done. }
    { destruct Ht as [->| ->]; [by left|right; by exists name]. }
    rewrite (while_step _ _ _ _ Hb).
    rewrite (while_stop (resolve_dots_body 0)); [done|].
    unfold resolve_dots_body, strstr. rewrite Hs'.
    change (bytes "/.") with ["/"%char; "."%char].
    destruct Ht as [->| ->]; [done|]. simpl drop.
    by rewrite find_sub_absent. }
  split.
  - rewrite <-(app_nil_r (bytes "/..")). by rewrite H by (by left).
  - change (bytes "/../" ++ name) with (bytes "/.." ++ "/"%char :: name).
    by rewrite H by (by right).
Qed.

Lemma dotdot_at_start_witness :
  plain (bytes "etc")
  ∧ normalize (bytes "../" ++ bytes "etc") = bytes "../" ++ bytes "etc"
  ∧ normalize (bytes ".." ++ bytes "/../" ++ bytes "etc") = bytes "etc".
Proof.
  assert (plain (bytes "etc")) as Hpl.
  { repeat split; [no_byte|no_byte|done]. }
  split; [done|].
  destruct (dotdot_at_start (bytes "..") (bytes "etc") Hpl)
    as (_ & H1 & H2 & _).
  split; [done|]. apply H2; [done|no_byte|no_byte|done].
Defined.

End DotDot.

(** ** The resolver *)

Section Resolver.
Implicit Types b c l : list ascii.
Implicit Types vfs : vfs_t.

Lemma str_0_split b k : NUL ∉ take k b → str b 0 = take k b ++ str b k.
Proof.
  intros H. unfold str. rewrite drop_0.
  rewrite <-(take_drop k b) at 1. by apply cstr_app_nonul.
Qed.

Lemma take_S_rd b k : k < length b → take (S k) b = take k b ++ [rd b k].
Proof. intros H. apply take_S_r. by apply lookup_rd. Qed.

Lemma block_take_drop b i n :
  i + n ≤ length b → block b i n = take n (drop i b).
Proof.
  intros H. apply list_eq. intros k.
  destruct (decide (k < n)) as [Hk|Hk].
  - rewrite lookup_block by done. rewrite lookup_take_lt by done.
    rewrite lookup_drop. symmetry. apply lookup_rd. lia.
  - rewrite !lookup_ge_None_2; [done| |].
    + rewrite length_take. lia.
    + rewrite length_block. lia.
Qed.

Lemma block_str_le b i n : n ≤ strlen b i → block b i n = take n (str b i).
Proof.
  intros H. apply list_eq. intros k.
  destruct (decide (k < n)) as [Hk|Hk].
  - rewrite lookup_block by done. rewrite lookup_take_lt by done.
    rewrite rd_str by lia. symmetry. apply lookup_rd. unfold strlen in H. lia.
  - rewrite !lookup_ge_None_2; [done| |].
    + rewrite length_take. lia.
    + rewrite length_block. lia.
Qed.

Lemma wf_size2 vfs : wf vfs → cwdlen vfs < length (file2 vfs).
Proof. intros H. rewrite <-(wf_size _ H). apply (wf_cap _ H). Qed.

Lemma wf_nonul2 vfs : wf vfs → NUL ∉ take (cwdlen vfs - 1) (file2 vfs).
Proof. intros H. rewrite <-(wf_same _ H). apply (wf_nonul _ H). Qed.

Lemma length_cwd_of vfs : wf vfs → length (cwd_of vfs) = cwdlen vfs.
Proof.
  intros H. unfold cwd_of. rewrite length_app, length_take. simpl.
  pose proof (wf_size2 _ H). pose proof (wf_root _ H). lia.
Qed.

Lemma length_root_of vfs : wf vfs → length (root_of vfs) = rootlen vfs.
Proof.
  intros H. unfold root_of. rewrite length_take.
  pose proof (wf_size2 _ H). pose proof (wf_root _ H). lia.
Qed.

(** The root is the start of the cwd. *)
Lemma root_prefix_cwd vfs : wf vfs → root_of vfs `prefix_of` cwd_of vfs.
Proof.
  intros H. unfold root_of, cwd_of.
  pose proof (wf_size2 _ H). pose proof (wf_root _ H) as [Hr1 Hr2].
  destruct (decide (rootlen vfs = cwdlen vfs)) as [E|E].
  - replace (rootlen vfs) with (S (cwdlen vfs - 1)) at 1 by lia.
    rewrite take_S_rd by lia.
    replace (cwdlen vfs - 1) with (rootlen vfs - 1) at 2 by lia.
    by rewrite (wf_rootsep2 _ H).
  - apply prefix_app_r.
    replace (rootlen vfs) with (min (rootlen vfs) (cwdlen vfs - 1)) by lia.
    rewrite <-take_take. apply prefix_take.
Qed.

Lemma cwd_rel_block vfs b :
  wf vfs → take (cwdlen vfs - 1) b = take (cwdlen vfs - 1) (file2 vfs) →
  length b = length (file2 vfs) →
  block b (rootlen vfs - 1) (cwdlen vfs - rootlen vfs) = cwd_rel vfs.
Proof.
  intros H Hb Hlen. pose proof (wf_size2 _ H). pose proof (wf_root _ H).
  rewrite block_take_drop by lia. unfold cwd_rel. rewrite <-Hb.
  rewrite take_drop_commute. do 2 f_equal. lia.
Qed.

(** Copying the client's bytes in at [dst] and normalising from [p]
    keeps the size of the buffer and the [k] bytes before both. *)
Lemma put_normalize_frame b dst path src m p k :
  k ≤ dst → k ≤ p →
  let b' := normalize_path (memcpy b dst path src m) p in
  length b' = length b ∧ take k b' = take k b.
Proof.
  intros Hd Hp b'.
  destruct (normalize_path_shrunk p (memcpy b dst path src m)) as (Hl & Ht & _).
  fold b' in Hl, Ht. rewrite length_memcpy in Hl. split; [done|].
  replace k with (min k p) by lia.
  rewrite <-!(take_take _ k p), Ht, !take_take.
  replace (min k p) with k by lia. by apply take_memcpy.
Qed.

(** The frame of a resolve: the size of the buffer, and the bytes before
    the place where the client's path is put. *)
Lemma abspath__frame vfs buffer n path lim :
  rootlen vfs ≤ cwdlen vfs →
  let b' := (abspath_ vfs buffer n path lim).1 in
  let k := (if lim then cwdlen vfs else rootlen vfs) - 1 in
  length b' = length buffer ∧ take k b' = take k buffer.
Proof.
  intros Hr. unfold abspath_. cbv zeta.
  set (b1 := <[cwdlen vfs - 1 := "/"%char]> buffer).
  assert (length b1 = length buffer) as Hb1 by apply length_insert.
  assert (∀ k, k ≤ cwdlen vfs - 1 → take k b1 = take k buffer) as Ht1.
  { intros k Hk. by apply take_insert_ge. }
  destruct (_ <? _); [done|].
  destruct (Ascii.eqb _ _); destruct lim.
  - destruct (_ || _); simpl; [split; [done|apply Ht1; lia]|].
    rewrite <-Hb1, <-(Ht1 (cwdlen vfs - 1)) by lia.
    apply put_normalize_frame; lia.
  - simpl. rewrite <-Hb1, <-(Ht1 (rootlen vfs - 1)) by lia.
    apply put_normalize_frame; lia.
  - simpl. rewrite <-Hb1, <-(Ht1 (cwdlen vfs - 1)) by lia.
    apply put_normalize_frame; lia.
  - simpl. rewrite <-Hb1, <-(Ht1 (rootlen vfs - 1)) by lia.
    apply put_normalize_frame; lia.
Qed.

Lemma strlen_le_NUL b i k : rd b (i + k) = NUL → strlen b i ≤ k.
Proof.
  intros H. destruct (decide (k < strlen b i)) as [Hk|Hk]; [|lia].
  by destruct (rd_str_nonul b i k Hk).
Qed.

(** The byte at [cwdlen - 1] after a resolve under the cwd that
    succeeded: the separator, unless the client named the cwd itself by
    an absolute path, whose terminator then lies there. *)
Lemma abspath__true_sep vfs buffer n path b' :
  1 ≤ rootlen vfs ≤ cwdlen vfs → cwdlen vfs ≤ length buffer →
  abspath_ vfs buffer n path true = (b', Ptr) →
  rd b' (cwdlen vfs - 1) = "/"%char
  ∨ (rd b' (cwdlen vfs - 1) = NUL ∧ rd path 0 = "/"%char
     ∧ strlen path 0 = cwdlen vfs - rootlen vfs
     ∧ block (<[cwdlen vfs - 1 := "/"%char]> buffer) (rootlen vfs - 1)
         (cwdlen vfs - rootlen vfs)
       = block path 0 (cwdlen vfs - rootlen vfs)).
Proof.
  intros Hr Hcap. unfold abspath_. cbv zeta.
  set (b1 := <[cwdlen vfs - 1 := "/"%char]> buffer).
  set (d := cwdlen vfs - rootlen vfs). set (len := strlen path 0).
  assert (length b1 = length buffer) as Hb1 by apply length_insert.
  destruct (_ <? _); [done|].
  destruct (Ascii.eqb_spec (rd path 0) "/"%char) as [Habs|Hrel].
  - destruct (_ || _) eqn:E; [done|]. intros [= <-].
    apply orb_false_iff in E as [E E3]. apply orb_false_iff in E as [E1 E2].
    apply Nat.ltb_ge in E1. apply negb_false_iff, bool_decide_eq_true in E2.
    destruct (normalize_path_shrunk (cwdlen vfs)
                (memcpy b1 (cwdlen vfs - 1) path d (len - d + 1)))
      as (_ & Ht & _).
    rewrite (take_rd _ _ _ (cwdlen vfs - 1) Ht) by lia.
    unfold memcpy.
    pose proof (rd_splice_in b1 (cwdlen vfs - 1) (block path d (len - d + 1)) 0)
      as Hx.
    rewrite Nat.add_0_r in Hx. rewrite Hx; [|rewrite length_block; lia|lia].
    rewrite nth_block, Nat.add_0_r by lia.
    destruct (Ascii.eqb_spec (rd path d) NUL) as [E4|E4].
    + right. repeat split; [done..| |done].
      pose proof (strlen_le_NUL path 0 d E4). unfold len in E1. lia.
    + left. simpl in E3. apply negb_false_iff in E3.
      by apply Ascii.eqb_eq in E3.
  - intros [= <-]. left.
    destruct (normalize_path_shrunk (cwdlen vfs)
                (memcpy b1 (cwdlen vfs) path 0 (len + 1)))
      as (_ & Ht & _).
    rewrite (take_rd _ _ _ (cwdlen vfs - 1) Ht) by lia.
    unfold memcpy. rewrite rd_splice_lt by lia.
    apply rd_insert_eq. lia.
Qed.

End Resolver.

(** ** The capacity check *)

(** The one exit of the resolver that reports [PathTooLong]. *)
Lemma abspath__too_long vfs buffer n path lim :
  (abspath_ vfs buffer n path lim).2 = Null PathTooLong
  ↔ n < cwdlen vfs + strlen path 0 + 1.
Proof.
  unfold abspath_. cbv zeta.
  destruct (Nat.ltb_spec n (cwdlen vfs + strlen path 0 + 1)) as [H|H]; simpl.
  { done. }
  split; [|lia].
  destruct (Ascii.eqb _ _); destruct lim; try destruct (_ || _); done.
Qed.

(** Without [limit_to_cwd] the resolver has no other failure. *)
Lemma abspath__root_mode vfs buffer n path :
  (abspath_ vfs buffer n path false).2 = Ptr
  ∨ (abspath_ vfs buffer n path false).2 = Null PathTooLong.
Proof.
  unfold abspath_. cbv zeta.
  destruct (_ <? _); [by right|]. destruct (Ascii.eqb _ _); by left.
Qed.

(** ** Absolute paths under the cwd *)

Section Absolute.
Implicit Types vfs : vfs_t.

Lemma length_cwd_rel vfs :
  wf vfs → length (cwd_rel vfs) = cwdlen vfs - rootlen vfs.
Proof.
  intros H. unfold cwd_rel. rewrite length_drop, length_take.
  pose proof (wf_size2 _ H). pose proof (wf_root _ H). lia.
Qed.

Lemma nth_str b i k : k < strlen b i → nth k (str b i) NUL = rd b (i + k).
Proof. intros H. by rewrite rd_str. Qed.

Lemma prefix_take_eq (l p : list ascii) :
  l `prefix_of` p ↔ length l ≤ length p ∧ take (length l) p = l.
Proof.
  split.
  - intros [k ->]. rewrite length_app, take_app_length. split; [lia|done].
  - intros [_ <-]. apply prefix_take.
Qed.

(** The test that [abspath_] makes on an absolute path. *)
Lemma escape_check vfs buffer path :
  wf vfs → buffer = file1 vfs ∨ buffer = file2 vfs →
  let b1 := <[cwdlen vfs - 1 := "/"%char]> buffer in
  let d := cwdlen vfs - rootlen vfs in
  (strlen path 0 <? d)
  || negb (bytes_eqb (block b1 (rootlen vfs - 1) d) (block path 0 d))
  || (negb (Ascii.eqb (rd path d) NUL)
      && negb (Ascii.eqb (rd path d) "/"%char)) = true
  ↔ escapes vfs (str path 0).
Proof.
  intros Hwf Hbuf b1 d.
  pose proof (wf_root _ Hwf) as Hr. pose proof (wf_size2 _ Hwf) as Hc2.
  pose proof (length_cwd_rel _ Hwf) as Hd. fold d in Hd.
  assert (block b1 (rootlen vfs - 1) d = cwd_rel vfs) as Hblk.
  { apply cwd_rel_block; [done| |].
    - unfold b1. rewrite take_insert_ge by lia.
      destruct Hbuf as [->| ->]; [apply (wf_same _ Hwf)|done].
    - unfold b1. rewrite length_insert.
      destruct Hbuf as [->| ->]; [apply (wf_size _ Hwf)|done]. }
  rewrite Hblk. unfold escapes. rewrite Hd, prefix_take_eq, Hd.
  fold (strlen path 0).
  destruct (Nat.ltb_spec (strlen path 0) d) as [Hlt|Hge]; simpl.
  { split; [|done]. intros _. left. lia. }
  rewrite block_str_le by done. unfold bytes_eqb.
  destruct (decide (cwd_rel vfs = take d (str path 0))) as [E|E].
  - rewrite bool_decide_eq_true_2 by done. simpl.
    destruct (Ascii.eqb_spec (rd path d) NUL) as [E1|E1]; simpl.
    + split; [done|]. intros [[]|[Hn _]]; [by split|].
      rewrite nth_overflow in Hn; [done|].
      pose proof (strlen_le_NUL path 0 d E1). unfold strlen in *. lia.
    + assert (d < strlen path 0) as Hlt.
      { apply (strlen_extend path 0 d); done. }
      rewrite nth_str by done. simpl.
      destruct (Ascii.eqb_spec (rd path d) "/"%char) as [E2|E2]; simpl.
      * split; [done|]. intros [[]|[_ Hn]]; [by split|done].
      * split; [|done]. intros _. by right.
  - rewrite bool_decide_eq_false_2 by done. simpl.
    split; [|done]. intros _. left. intros [_ Ht]. by destruct E.
Qed.

End Absolute.

(** ** What the resolver returns *)

Section Resolved.
Implicit Types vfs : vfs_t.
Implicit Types b l : list ascii.

Lemma str_split_at b i k :
  i ≤ k → k ≤ length b → NUL ∉ drop i (take k b) →
  str b i = drop i (take k b) ++ str b k.
Proof.
  intros Hik Hk Hn. unfold str.
  rewrite <-(take_drop k b) at 1.
  rewrite drop_app_le by (rewrite length_take; lia).
  by apply cstr_app_nonul.
Qed.

Lemma cwd_of_nonul vfs : wf vfs → NUL ∉ cwd_of vfs.
Proof.
  intros H. unfold cwd_of. apply not_elem_of_app. split.
  - by apply wf_nonul2.
  - apply not_elem_of_cons. split; [done|apply not_elem_of_nil].
Qed.

Lemma take_root_cwd vfs : wf vfs → take (rootlen vfs) (cwd_of vfs) = root_of vfs.
Proof.
  intros H. destruct (root_prefix_cwd vfs H) as [k Hk].
  rewrite Hk. rewrite <-(length_root_of vfs H). apply take_app_length.
Qed.

(** The buffer with its separator restored holds the committed cwd. *)
Lemma restore_cwd vfs buffer :
  wf vfs → buffer = file1 vfs ∨ buffer = file2 vfs →
  take (cwdlen vfs) (<[cwdlen vfs - 1 := "/"%char]> buffer) = cwd_of vfs.
Proof.
  intros Hwf Hbuf.
  pose proof (wf_root _ Hwf) as Hr. pose proof (wf_size2 _ Hwf) as Hc2.
  assert (length buffer = length (file2 vfs)) as Hlen.
  { destruct Hbuf as [->| ->]; [apply (wf_size _ Hwf)|done]. }
  replace (cwdlen vfs) with (S (cwdlen vfs - 1)) at 1 by lia.
  rewrite take_S_rd by (rewrite length_insert; lia).
  rewrite rd_insert_eq by lia. rewrite take_insert_ge by lia.
  unfold cwd_of. f_equal.
  destruct Hbuf as [->| ->]; [apply (wf_same _ Hwf)|done].
Qed.

Lemma wf_buffer_length vfs buffer :
  wf vfs → buffer = file1 vfs ∨ buffer = file2 vfs →
  cwdlen vfs < length buffer.
Proof.
  intros Hwf [->| ->]; [apply (wf_cap _ Hwf)|by apply wf_size2].
Qed.

(** A relative path: the cwd, then the normalised path; in root mode
    the root, then the normalised rest of the cwd and path. *)
Lemma abspath__relative vfs buffer path lim :
  wf vfs → buffer = file1 vfs ∨ buffer = file2 vfs →
  rd path 0 ≠ "/"%char →
  cwdlen vfs + strlen path 0 + 1 ≤ length buffer →
  resolved (abspath_ vfs buffer (length buffer) path lim)
  = Some (if lim then cwd_of vfs ++ normalize (str path 0)
          else root_of vfs
               ++ normalize (drop (rootlen vfs) (cwd_of vfs) ++ str path 0)).
Proof.
  intros Hwf Hbuf Hrel Hfit.
  pose proof (wf_root _ Hwf) as Hr.
  pose proof (wf_buffer_length _ _ Hwf Hbuf) as Hc.
  pose proof (restore_cwd _ _ Hwf Hbuf) as Hcwd.
  pose proof (cwd_of_nonul _ Hwf) as Hnn.
  unfold abspath_. cbv zeta.
  set (b1 := <[cwdlen vfs - 1 := "/"%char]> buffer) in *.
  assert (length b1 = length buffer) as Hb1 by apply length_insert.
  destruct (Nat.ltb_spec (length buffer) (cwdlen vfs + strlen path 0 + 1));
    [lia|].
  destruct (Ascii.eqb_spec (rd path 0) "/"%char); [done|].
  set (b2 := memcpy b1 (cwdlen vfs) path 0 (strlen path 0 + 1)).
  assert (length b2 = length buffer) as Hb2.
  { unfold b2. by rewrite length_memcpy. }
  assert (take (cwdlen vfs) b2 = cwd_of vfs) as Ht2.
  { unfold b2. by rewrite take_memcpy. }
  assert (str b2 (cwdlen vfs) = str path 0) as Hs2.
  { unfold b2. apply memcpy_str. lia. }
  destruct lim; unfold resolved; simpl; f_equal.
  - destruct (normalize_path_shrunk (cwdlen vfs) b2) as (Hl & Ht & _).
    rewrite (str_0_split _ (cwdlen vfs)) by (by rewrite Ht, Ht2).
    by rewrite Ht, Ht2, normalize_path_local, Hs2.
  - destruct (normalize_path_shrunk (rootlen vfs) b2) as (Hl & Ht & _).
    assert (take (rootlen vfs) b2 = root_of vfs) as Hroot.
    { rewrite <-take_root_cwd, <-Ht2, take_take by done. f_equal. lia. }
    rewrite (str_0_split _ (rootlen vfs)) by
      (rewrite Ht, Hroot, <-take_root_cwd by done;
       intros Hin; apply Hnn; by apply (subseteq_take _ _ _ Hin)).
    rewrite Ht, Hroot, normalize_path_local. do 2 f_equal.
    rewrite (str_split_at b2 (rootlen vfs) (cwdlen vfs)); [|lia|lia|].
    + by rewrite Ht2, Hs2.
    + rewrite Ht2. intros Hin. apply Hnn. by apply (subseteq_drop _ _ _ Hin).
Qed.

(** An absolute path in root mode: the root, then the normalised path
    without its leading separator. *)
Lemma abspath__absolute_root vfs buffer path :
  wf vfs → buffer = file1 vfs ∨ buffer = file2 vfs →
  rd path 0 = "/"%char →
  cwdlen vfs + strlen path 0 + 1 ≤ length buffer →
  resolved (abspath_ vfs buffer (length buffer) path false)
  = Some (root_of vfs ++ normalize (drop 1 (str path 0))).
Proof.
  intros Hwf Hbuf Habs Hfit.
  pose proof (wf_root _ Hwf) as Hr.
  pose proof (wf_buffer_length _ _ Hwf Hbuf) as Hc.
  pose proof (restore_cwd _ _ Hwf Hbuf) as Hcwd.
  pose proof (cwd_of_nonul _ Hwf) as Hnn.
  unfold abspath_. cbv zeta.
  set (b1 := <[cwdlen vfs - 1 := "/"%char]> buffer) in *.
  assert (length b1 = length buffer) as Hb1 by apply length_insert.
  destruct (Nat.ltb_spec (length buffer) (cwdlen vfs + strlen path 0 + 1));
    [lia|].
  rewrite Habs. simpl.
  set (b2 := memcpy b1 (rootlen vfs - 1) path 0 (strlen path 0 + 1)).
  assert (1 ≤ strlen path 0) as Hlen.
  { apply (strlen_extend path 0 0); [lia|]. simpl. by rewrite Habs. }
  assert (str b2 (rootlen vfs - 1) = str path 0) as Hs2.
  { unfold b2. apply memcpy_str. lia. }
  assert (str b2 (rootlen vfs) = drop 1 (str path 0)) as Hs2'.
  { rewrite <-Hs2, <-str_shift by (unfold strlen; rewrite Hs2; done).
    f_equal. lia. }
  assert (take (rootlen vfs) b2 = root_of vfs) as Hroot.
  { replace (rootlen vfs) with (S (rootlen vfs - 1)) at 1 by lia.
    rewrite take_S_rd by (unfold b2; rewrite length_memcpy; lia).
    replace (rd b2 (rootlen vfs - 1)) with "/"%char.
    2:{ pose proof (rd_view b2 (rootlen vfs - 1) 0 ltac:(lia)) as H0.
        rewrite Nat.add_0_r in H0. rewrite H0, Hs2.
        rewrite <-(rd_view path 0 0) by lia. done. }
    unfold b2. rewrite take_memcpy by lia.
    rewrite <-take_root_cwd, <-Hcwd by done. rewrite take_take.
    replace (rootlen vfs `min` cwdlen vfs) with (S (rootlen vfs - 1)) by lia.
    rewrite take_S_rd by lia. f_equal. f_equal.
    destruct (decide (rootlen vfs = cwdlen vfs)) as [E|E].
    - rewrite E. unfold b1. rewrite rd_insert_eq by lia. done.
    - unfold b1. rewrite rd_insert_ne by lia.
      destruct Hbuf as [->| ->];
        [by rewrite (wf_rootsep1 _ Hwf)|by rewrite (wf_rootsep2 _ Hwf)]. }
  unfold resolved. simpl. f_equal.
  destruct (normalize_path_shrunk (rootlen vfs) b2) as (Hl & Ht & _).
  rewrite (str_0_split _ (rootlen vfs)).
  - by rewrite Ht, Hroot, normalize_path_local, Hs2'.
  - rewrite Ht, Hroot, <-take_root_cwd by done.
    intros Hin. apply Hnn. by apply (subseteq_take _ _ _ Hin).
Qed.

(** An absolute path under the cwd: the cwd, then the normalised rest of
    the path; when the path names the cwd itself, the cwd without its
    separator. *)
Lemma abspath__absolute_cwd vfs buffer path :
  wf vfs → buffer = file1 vfs ∨ buffer = file2 vfs →
  rd path 0 = "/"%char →
  cwdlen vfs + strlen path 0 + 1 ≤ length buffer →
  ¬ escapes vfs (str path 0) →
  resolved (abspath_ vfs buffer (length buffer) path true)
  = Some (if decide (strlen path 0 = cwdlen vfs - rootlen vfs)
          then take (cwdlen vfs - 1) (cwd_of vfs)
          else cwd_of vfs
               ++ normalize (drop (cwdlen vfs - rootlen vfs + 1) (str path 0))).
Proof.
  intros Hwf Hbuf Habs Hfit Hesc.
  pose proof (wf_root _ Hwf) as Hr.
  pose proof (wf_buffer_length _ _ Hwf Hbuf) as Hc.
  pose proof (restore_cwd _ _ Hwf Hbuf) as Hcwd.
  pose proof (cwd_of_nonul _ Hwf) as Hnn.
  pose proof (escape_check vfs buffer path Hwf Hbuf) as Hchk.
  cbv zeta in Hchk. unfold abspath_. cbv zeta.
  set (b1 := <[cwdlen vfs - 1 := "/"%char]> buffer) in *.
  set (d := cwdlen vfs - rootlen vfs) in *.
  assert (length b1 = length buffer) as Hb1 by apply length_insert.
  destruct (Nat.ltb_spec (length buffer) (cwdlen vfs + strlen path 0 + 1));
    [lia|].
  rewrite Habs. simpl.
  destruct (_ || _) eqn:E in |- *; [by apply Hchk in E|].
  rewrite E in Hchk. clear Hchk.
  apply orb_false_iff in E as [E E3]. apply orb_false_iff in E as [E1 _].
  apply Nat.ltb_ge in E1.
  pose proof (strlen_shift path 0 d E1) as Hsd. simpl in Hsd.
  pose proof (str_shift path 0 d E1) as Hstrd. simpl in Hstrd.
  rewrite <-Hsd.
  set (b2 := memcpy b1 (cwdlen vfs - 1) path d (strlen path d + 1)).
  assert (str b2 (cwdlen vfs - 1) = drop d (str path 0)) as Hs2.
  { unfold b2. rewrite memcpy_str; [done|lia]. }
  assert (take (cwdlen vfs - 1) b2 = take (cwdlen vfs - 1) (cwd_of vfs)) as Ht2.
  { unfold b2. rewrite take_memcpy by lia. rewrite <-Hcwd, take_take.
    f_equal. lia. }
  assert (NUL ∉ take (cwdlen vfs - 1) (cwd_of vfs)) as Hnn'.
  { intros Hin. apply Hnn. by apply (subseteq_take _ _ _ Hin). }
  destruct (normalize_path_shrunk (cwdlen vfs) b2) as (Hl & Ht & _).
  assert (take (cwdlen vfs - 1) (normalize_path b2 (cwdlen vfs))
          = take (cwdlen vfs - 1) (cwd_of vfs)) as Ht'.
  { rewrite <-Ht2.
    replace (cwdlen vfs - 1) with (min (cwdlen vfs - 1) (cwdlen vfs)) by lia.
    by rewrite <-!take_take, Ht. }
  unfold resolved. simpl. f_equal.
  destruct (decide (strlen path 0 = d)) as [Hd|Hd].
  - rewrite (str_0_split _ (cwdlen vfs - 1)) by (by rewrite Ht').
    rewrite Ht'. rewrite (str_nil _ (cwdlen vfs - 1)); [by rewrite app_nil_r|].
    rewrite (take_rd _ _ _ _ Ht) by lia.
    pose proof (rd_view b2 (cwdlen vfs - 1) 0 ltac:(lia)) as H0.
    rewrite Nat.add_0_r in H0. rewrite H0, Hs2.
    rewrite drop_ge by (unfold strlen in Hd; lia). done.
  - assert (rd path d = "/"%char) as Hsep.
    { destruct (Ascii.eqb_spec (rd path d) NUL) as [E4|E4].
      - pose proof (strlen_le_NUL path 0 d E4). lia.
      - simpl in E3. apply negb_false_iff in E3. by apply Ascii.eqb_eq in E3. }
    assert (str b2 (cwdlen vfs - 1)
            = "/"%char :: drop (d + 1) (str path 0)) as Hs2'.
    { rewrite Hs2, <-Hstrd.
      rewrite str_cons by (by rewrite Hsep). rewrite Hsep. f_equal.
      pose proof (str_shift path 0 (d + 1) ltac:(lia)) as H1. simpl in H1.
      rewrite <-H1. f_equal. lia. }
    assert (rd b2 (cwdlen vfs - 1) = "/"%char) as Hrd.
    { pose proof (rd_view b2 (cwdlen vfs - 1) 0 ltac:(lia)) as H0.
      rewrite Nat.add_0_r in H0. by rewrite H0, Hs2'. }
    assert (take (cwdlen vfs) b2 = cwd_of vfs) as Hcwd2.
    { replace (cwdlen vfs) with (S (cwdlen vfs - 1)) at 1 by lia.
      rewrite take_S_rd by (unfold b2; rewrite length_memcpy; lia).
      rewrite Ht2, Hrd. unfold cwd_of.
      rewrite take_app_le by (rewrite length_take;
        pose proof (wf_size2 _ Hwf); lia).
      rewrite take_take. do 2 f_equal. lia. }
    assert (str b2 (cwdlen vfs) = drop (d + 1) (str path 0)) as Hs3.
    { rewrite str_cons in Hs2' by (by rewrite Hrd).
      injection Hs2' as _ Hs2'. rewrite <-Hs2'. f_equal. lia. }
    rewrite (str_0_split _ (cwdlen vfs)) by (by rewrite Ht, Hcwd2).
    by rewrite Ht, Hcwd2, normalize_path_local, Hs3.
Qed.

End Resolved.

(** ** The example sessions *)

Ltac concrete := vm_compute; first [done | lia | tauto].

Ltac concrete_wf :=
  constructor;
  first [ concrete
        | apply (bool_decide_unpack _); vm_compute; exact I ].

Lemma ex_open : vfs_openfs (Some (ex_mem, ex_mem)) = Some ex_root.
Proof. reflexivity. Qed.

Lemma ex_root_wf : wf ex_root.
Proof. concrete_wf. Qed.

Lemma ex_sub_wf : wf ex_sub.
Proof. concrete_wf. Qed.

Lemma ex_sub_pwd_wf : wf ex_sub_pwd.
Proof. concrete_wf. Qed.

Lemma ex_data_wf : wf ex_data.
Proof. concrete_wf. Qed.

Lemma ex_sub_cwd : cwd_of ex_sub = bytes "/sdcard/sub/".
Proof. by vm_compute. Qed.

Lemma ex_data_cwd :
  cwd_of ex_data = bytes "/data/sub/" ∧ root_of ex_data = bytes "/data/".
Proof. by vm_compute. Qed.

(** ** Confinement *)

(** C1.  A resolve under the cwd ([limit_to_cwd] set, into either
    buffer) that succeeds returns a path that begins with the root
    prefix and is not shorter than [rootlen], whatever [..] segments the
    client sent.  It begins with the committed cwd too, separator
    included, but for one case: when the client names the cwd itself by
    an absolute path, the result is the cwd without its final
    separator. *)
Theorem abspath_confined vfs buffer path b' :
  wf vfs → buffer = file1 vfs ∨ buffer = file2 vfs →
  abspath_ vfs buffer (length buffer) path true = (b', Ptr) →
  root_of vfs `prefix_of` str b' 0
  ∧ rootlen vfs ≤ length (str b' 0)
  ∧ (cwd_of vfs `prefix_of` str b' 0
     ∨ (str b' 0 ++ ["/"%char] = cwd_of vfs
        ∧ rootlen vfs < cwdlen vfs ∧ str path 0 = cwd_rel vfs)).
Proof.
  intros Hwf Hbuf H.
  pose proof (wf_root _ Hwf) as Hr. pose proof (wf_size2 _ Hwf) as Hc2.
  pose proof (wf_size _ Hwf) as Hsz.
  assert (length buffer = length (file2 vfs)) as Hlen.
  { destruct Hbuf as [->| ->]; [done|done]. }
  assert (take (cwdlen vfs - 1) buffer = take (cwdlen vfs - 1) (file2 vfs))
    as Hpre.
  { destruct Hbuf as [->| ->]; [apply (wf_same _ Hwf)|done]. }
  destruct (abspath__frame vfs buffer (length buffer) path true) as [Hl Ht];
    [lia|]. rewrite H in Hl, Ht. simpl in Hl, Ht.
  rewrite Hpre in Ht.
  assert (str b' 0 = take (cwdlen vfs - 1) (file2 vfs)
                     ++ str b' (cwdlen vfs - 1)) as Hs.
  { rewrite <-Ht. apply str_0_split. rewrite Ht. by apply wf_nonul2. }
  assert (cwd_of vfs `prefix_of` str b' 0
          ∨ (str b' 0 ++ ["/"%char] = cwd_of vfs
             ∧ rootlen vfs < cwdlen vfs ∧ str path 0 = cwd_rel vfs)) as Hcwd.
  { destruct (abspath__true_sep vfs buffer _ path b' Hr ltac:(lia) H)
      as [Hsep|(Hsep & Habs & Hd & Hblk)].
    - left. rewrite Hs, str_cons by (rewrite Hsep; done). rewrite Hsep.
      unfold cwd_of. exists (str b' (S (cwdlen vfs - 1))).
      by rewrite <-app_assoc.
    - right. rewrite Hs, (str_nil _ _ Hsep), app_nil_r.
      assert (rootlen vfs < cwdlen vfs) as Hlt.
      { assert (1 ≤ strlen path 0); [|lia].
        apply (strlen_extend path 0 0); [lia|]. simpl. by rewrite Habs. }
      repeat split; [done|].
      rewrite (cwd_rel_block vfs) in Hblk.
      + rewrite Hblk. rewrite block_str_le by lia.
        rewrite <-Hd. symmetry. apply take_ge. unfold strlen. done.
      + done.
      + rewrite take_insert_ge by lia. done.
      + by rewrite length_insert. }
  assert (root_of vfs `prefix_of` str b' 0) as Hroot.
  { destruct Hcwd as [Hcwd|(Hcwd & Hlt & _)].
    - etrans; [by apply root_prefix_cwd|done].
    - rewrite Hs in *. apply prefix_app_r. unfold root_of.
      replace (rootlen vfs) with (min (rootlen vfs) (cwdlen vfs - 1)) by lia.
      rewrite <-take_take. apply prefix_take. }
  repeat split; [done| |done].
  apply prefix_length in Hroot. by rewrite length_root_of in Hroot.
Qed.

Lemma abspath_confined_witness :
  wf ex_sub
  ∧ abspath_ ex_sub (file1 ex_sub) (length (file1 ex_sub)) (bytes "../../x")
      true
    = ((abspath ex_sub (bytes "../../x")).1.(file1), Ptr)
  ∧ root_of ex_sub
    `prefix_of` str (abspath ex_sub (bytes "../../x")).1.(file1) 0.
Proof.
  split; [apply ex_sub_wf|]. split; [reflexivity|].
  apply (abspath_confined ex_sub (file1 ex_sub) (bytes "../../x")).
  - apply ex_sub_wf.
  - by left.
  - reflexivity.
Defined.

(** ** Absolute paths that leave the cwd *)

(** C7, as amended.  For an absolute client path resolved under the cwd
    into either buffer, the resolver refuses with [PathEscapesRoot]
    exactly when its capacity check passes and the path [escapes]: the
    part of the cwd beyond the root is not a prefix of it, or the next
    character is neither the end nor a separator.  (A path that is too
    long is refused with [PathTooLong] before that test.)  On that
    refusal the buffer is the one given with the separator at
    [cwdlen - 1] restored: its first [cwdlen] bytes are the committed
    cwd.  With cwd [/data/sub/] under root [/data/], the path [/other] is
    refused this way. *)
Theorem abspath_escape vfs buffer path :
  wf vfs → buffer = file1 vfs ∨ buffer = file2 vfs →
  rd path 0 = "/"%char →
  let r := abspath_ vfs buffer (length buffer) path true in
  (r.2 = Null PathEscapesRoot
   ↔ cwdlen vfs + strlen path 0 + 1 ≤ length buffer
     ∧ escapes vfs (str path 0))
  ∧ (r.2 = Null PathEscapesRoot →
     r.1 = <[cwdlen vfs - 1 := "/"%char]> buffer
     ∧ take (cwdlen vfs) r.1 = cwd_of vfs)
  ∧ (abspath ex_data (bytes "/other")).2 = Null PathEscapesRoot.
Proof.
  intros Hwf Hbuf Habs r.
  pose proof (escape_check vfs buffer path Hwf Hbuf) as Hchk.
  cbv zeta in Hchk. unfold r, abspath_. cbv zeta. rewrite Habs. simpl.
  destruct (Nat.ltb_spec (length buffer) (cwdlen vfs + strlen path 0 + 1))
    as [Hcap|Hcap]; simpl.
  { split; [|split; [done|by vm_compute]]. split; [done|]. lia. }
  destruct (_ || _) eqn:E in |- *; simpl.
  - rewrite E in Hchk. split; [|split; [|by vm_compute]].
    + split; [|done]. intros _. split; [done|]. by apply Hchk.
    + intros _. split; [done|].
      pose proof (wf_root _ Hwf) as Hr. pose proof (wf_size2 _ Hwf) as Hc2.
      assert (length buffer = length (file2 vfs)) as Hlen.
      { destruct Hbuf as [->| ->]; [apply (wf_size _ Hwf)|done]. }
      replace (cwdlen vfs) with (S (cwdlen vfs - 1)) at 1 by lia.
      rewrite take_S_rd by (rewrite length_insert; lia).
      rewrite rd_insert_eq by lia. rewrite take_insert_ge by lia.
      unfold cwd_of. f_equal.
      destruct Hbuf as [->| ->]; [apply (wf_same _ Hwf)|done].
  - rewrite E in Hchk. split; [|split; [done|by vm_compute]].
    split; [done|]. intros [_ He]. apply Hchk in He. done.
Qed.

(** C7 as stated fails on a path that is too long and outside the cwd:
    it escapes, yet the refusal is [PathTooLong]. *)
Lemma abspath_escape_too_long :
  wf ex_sub ∧ rd ex_long 0 = "/"%char
  ∧ escapes ex_sub (str ex_long 0)
  ∧ (abspath ex_sub ex_long).2 = Null PathTooLong
  ∧ ¬ ((abspath ex_sub ex_long).2 = Null PathEscapesRoot
       ↔ escapes ex_sub (str ex_long 0)).
Proof.
  assert (escapes ex_sub (str ex_long 0)) as He.
  { left. apply (bool_decide_unpack _). vm_compute. exact I. }
  assert ((abspath ex_sub ex_long).2 = Null PathTooLong) as Hr
    by (by vm_compute).
  split; [apply ex_sub_wf|]. split; [reflexivity|].
  split; [done|]. split; [done|].
  rewrite Hr. intros [_ H]. by specialize (H He).
Qed.

Lemma abspath_escape_witness :
  wf ex_sub ∧ rd (bytes "/other") 0 = "/"%char
  ∧ ((abspath ex_sub (bytes "/other")).2 = Null PathEscapesRoot
     ↔ cwdlen ex_sub + strlen (bytes "/other") 0 + 1 ≤ length (file1 ex_sub)
       ∧ escapes ex_sub (str (bytes "/other") 0)).
Proof.
  split; [apply ex_sub_wf|]. split; [reflexivity|].
  apply (abspath_escape ex_sub (file1 ex_sub) (bytes "/other")).
  - apply ex_sub_wf.
  - by left.
  - reflexivity.
Defined.

(** ** [..] under the cwd *)

(** C4 as stated fails: under the cwd the path [../x] is returned with
    its [..]. *)
Lemma resolve_dotdot_under_cwd :
  wf ex_data
  ∧ cwd_of ex_data = bytes "/data/sub/" ∧ root_of ex_data = bytes "/data/"
  ∧ resolved (abspath_ ex_data (file1 ex_data) (length (file1 ex_data))
                (bytes "../x") true)
    = Some (bytes "/data/sub/../x")
  ∧ resolved (abspath_ ex_data (file1 ex_data) (length (file1 ex_data))
                (bytes "../x") true)
    ≠ Some (bytes "/data/x").
Proof.
  split; [apply ex_data_wf|]. by vm_compute.
Qed.

(** C4, as amended.  In a session whose root is [/data/] and whose cwd
    is [/data/sub/], with room for the path, resolving [../x] under the
    cwd succeeds and returns [/data/sub/../x]: the [..] stands at the
    start of the part that is normalised and stays.  Resolved in root
    mode, as [vfs_chdir] does, the same path gives [/data/x]. *)
Theorem resolve_dotdot vfs buffer :
  wf vfs → buffer = file1 vfs ∨ buffer = file2 vfs →
  root_of vfs = bytes "/data/" → cwd_of vfs = bytes "/data/sub/" →
  15 ≤ length buffer →
  resolved (abspath_ vfs buffer (length buffer) (bytes "../x") true)
  = Some (bytes "/data/sub/../x")
  ∧ resolved (abspath_ vfs buffer (length buffer) (bytes "../x") false)
    = Some (bytes "/data/x").
Proof.
  intros Hwf Hbuf Hroot Hcwd Hlen.
  pose proof (length_cwd_of _ Hwf) as Hc. rewrite Hcwd in Hc.
  pose proof (length_root_of _ Hwf) as Hr. rewrite Hroot in Hr.
  simpl in Hc, Hr.
  assert (cwdlen vfs + strlen (bytes "../x") 0 + 1 ≤ length buffer) as Hfit.
  { rewrite <-Hc. change (strlen (bytes "../x") 0) with 4. lia. }
  rewrite !abspath__relative by done.
  rewrite Hcwd, Hroot, <-Hr. split; by vm_compute.
Qed.

Lemma resolve_dotdot_witness :
  wf ex_data
  ∧ root_of ex_data = bytes "/data/" ∧ cwd_of ex_data = bytes "/data/sub/"
  ∧ 15 ≤ length (file1 ex_data)
  ∧ resolved (abspath_ ex_data (file1 ex_data) (length (file1 ex_data))
                (bytes "../x") true)
    = Some (bytes "/data/sub/../x").
Proof.
  split; [apply ex_data_wf|]. split; [reflexivity|]. split; [reflexivity|].
  split; [vm_compute; lia|].
  apply (resolve_dotdot ex_data (file1 ex_data)).
  - apply ex_data_wf.
  - by left.
  - reflexivity.
  - reflexivity.
  - vm_compute. lia.
Defined.

(** ** The capacity check counts the cwd *)

(** C9.  Whatever the mode, the resolver reports [PathTooLong] exactly
    when [buflen < cwdlen + strlen(path) + 1].  So from [/sdcard/sub/],
    with buffers of 256 bytes, the absolute target [/aaa...] of 244
    bytes is refused by [vfs_chdir], though put at [rootlen - 1] it
    would end, separator and terminator included, at byte 253; from the
    root the same target is accepted. *)
Theorem capacity_counts_cwd :
  (∀ vfs buffer n path lim,
     (abspath_ vfs buffer n path lim).2 = Null PathTooLong
     ↔ n < cwdlen vfs + strlen path 0 + 1)
  ∧ (∃ vfs path,
       wf vfs ∧ rootlen vfs < cwdlen vfs ∧ rd path 0 = "/"%char
       ∧ (rootlen vfs - 1) + strlen path 0 + 2 < length (file1 vfs)
       ∧ (vfs_chdir ex_fs vfs path).2 = Failed PathTooLong
       ∧ (vfs_chdir ex_fs ex_root path).2 = Done).
Proof.
  split; [apply abspath__too_long|].
  exists ex_sub, ("/"%char :: replicate 243 "a"%char).
  split; [apply ex_sub_wf|].
  split; [vm_compute; lia|]. split; [reflexivity|].
  split; [vm_compute; lia|]. split; vm_compute; reflexivity.
Qed.

(** ** vfs_getcwd and the separator *)

Section Getcwd.
Implicit Types vfs : vfs_t.
Implicit Types b l : list ascii.

(** A string cut by a NUL at [k]. *)
Lemma str_insert_NUL b k i :
  i ≤ k → k < length b → str (<[k:=NUL]> b) i = cstr (drop i (take k b)).
Proof.
  intros Hi Hk. unfold str. rewrite insert_take_drop by done.
  rewrite drop_app_le by (rewrite length_take; lia).
  apply cstr_app_NUL.
Qed.

Lemma getcwd_result vfs :
  1 ≤ rootlen vfs ≤ cwdlen vfs → cwdlen vfs < length (file1 vfs) →
  (vfs_getcwd vfs).2
  = cstr (drop (rootlen vfs - 1) (take (getcwd_cut vfs) (file1 vfs))).
Proof.
  intros Hr Hc. unfold vfs_getcwd, getcwd_cut.
  destruct (Nat.ltb_spec (rootlen vfs) (cwdlen vfs)); simpl;
    apply str_insert_NUL; lia.
Qed.

Lemma splice_insert_covered b j x dst l :
  dst ≤ j < dst + length l → splice (<[j:=x]> b) dst l = splice b dst l.
Proof.
  intros Hj. apply rd_ext.
  - by rewrite !length_splice, length_insert.
  - intros i _. rewrite !rd_splice, length_insert.
    destruct (decide _) as [|Hn]; [done|].
    rewrite rd_insert. destruct (decide _) as [[-> Hj']|]; [|done].
    destruct Hn. lia.
Qed.

Lemma abspath__lens vfs vfs' buffer n path lim :
  rootlen vfs' = rootlen vfs → cwdlen vfs' = cwdlen vfs →
  abspath_ vfs' buffer n path lim = abspath_ vfs buffer n path lim.
Proof. intros Hr Hc. unfold abspath_. by rewrite Hr, Hc. Qed.

(** The resolver restores the separator before it reads or writes the
    buffer: what was at [cwdlen - 1] does not count. *)
Lemma abspath__separator vfs buffer n path lim x :
  (abspath_ vfs (<[cwdlen vfs - 1 := x]> buffer) n path lim).2
  = (abspath_ vfs buffer n path lim).2
  ∧ (cwdlen vfs + strlen path 0 + 1 ≤ n →
     abspath_ vfs (<[cwdlen vfs - 1 := x]> buffer) n path lim
     = abspath_ vfs buffer n path lim).
Proof.
  unfold abspath_. cbv zeta. rewrite list_insert_insert_eq.
  destruct (Nat.ltb_spec n (cwdlen vfs + strlen path 0 + 1)); simpl.
  - split; [done|lia].
  - done.
Qed.

(** At the root [vfs_getcwd] puts its NUL at [cwdlen], which every
    resolve that passes the capacity check overwrites. *)
Lemma abspath__at_root vfs buffer n path lim :
  1 ≤ rootlen vfs → rootlen vfs = cwdlen vfs →
  abspath_ vfs (<[cwdlen vfs := NUL]> buffer) n path lim
  = abspath_ vfs buffer n path lim
  ∨ ((abspath_ vfs (<[cwdlen vfs := NUL]> buffer) n path lim).2
       = Null PathTooLong
     ∧ (abspath_ vfs buffer n path lim).2 = Null PathTooLong).
Proof.
  intros Hr1 Hr. unfold abspath_. cbv zeta.
  destruct (_ <? _); [by right|]. left.
  rewrite list_insert_insert_ne by lia.
  set (b1 := <[cwdlen vfs - 1 := "/"%char]> buffer).
  destruct (Ascii.eqb_spec (rd path 0) "/"%char) as [Habs|Hrel].
  - assert (1 ≤ strlen path 0) as Hlen.
    { apply (strlen_extend path 0 0); [lia|]. simpl. by rewrite Habs. }
    destruct lim.
    + rewrite Hr, Nat.sub_diag, Habs.
      replace (block (<[cwdlen vfs:=NUL]> b1) (cwdlen vfs - 1) 0)
        with (block b1 (cwdlen vfs - 1) 0) by done.
      destruct (_ || _) eqn:E; [|unfold memcpy].
      * exfalso. unfold block in E. simpl in E. done.
      * rewrite splice_insert_covered; [done|rewrite length_block; lia].
    + unfold memcpy. rewrite Hr.
      rewrite splice_insert_covered; [done|rewrite length_block; lia].
  - unfold memcpy.
    rewrite splice_insert_covered by (rewrite length_block; lia).
    done.
Qed.

End Getcwd.

(** C10.  [vfs_getcwd] changes nothing of the session but one byte of
    [file1], which becomes NUL: the byte at [cwdlen - 1] below the root,
    the byte at [cwdlen] at the root.  The resolver puts the separator
    back at [cwdlen - 1] before any other access to its buffer, so what
    that byte held does not count.  Hence a second [vfs_getcwd] returns
    the string of the first, and a resolve after [vfs_getcwd], in either
    mode and into either buffer, returns what it returns without it: the
    same pointer or NULL, and the same string. *)
Theorem getcwd_frame vfs path :
  wf vfs →
  (vfs_getcwd vfs).1 = set_file1 vfs (<[getcwd_cut vfs := NUL]> (file1 vfs))
  ∧ (∀ buffer n lim x,
       (abspath_ vfs (<[cwdlen vfs - 1 := x]> buffer) n path lim).2
       = (abspath_ vfs buffer n path lim).2
       ∧ (cwdlen vfs + strlen path 0 + 1 ≤ n →
          abspath_ vfs (<[cwdlen vfs - 1 := x]> buffer) n path lim
          = abspath_ vfs buffer n path lim)
       ∧ (n < cwdlen vfs + strlen path 0 + 1 →
          abspath_ vfs buffer n path lim = (buffer, Null PathTooLong)))
  ∧ (vfs_getcwd (vfs_getcwd vfs).1).2 = (vfs_getcwd vfs).2
  ∧ (∀ lim,
       let vfs' := (vfs_getcwd vfs).1 in
       let r' :=
         abspath_ vfs' (file1 vfs') (length (file1 vfs')) path lim in
       let r := abspath_ vfs (file1 vfs) (length (file1 vfs)) path lim in
       r'.2 = r.2 ∧ resolved r' = resolved r)
  ∧ abspath2 (vfs_getcwd vfs).1 path
    = (set_file1 (abspath2 vfs path).1 (file1 (vfs_getcwd vfs).1),
       (abspath2 vfs path).2).
Proof.
  intros Hwf. pose proof (wf_root _ Hwf) as Hr.
  split; [|split; [|split; [|split]]].
  - unfold vfs_getcwd, getcwd_cut. by destruct (_ <? _).
  - intros buffer n lim x.
    destruct (abspath__separator vfs buffer n path lim x) as [H1 H2].
    split; [done|]. split; [done|]. intros Hn. unfold abspath_. cbv zeta.
    by destruct (Nat.ltb_spec n (cwdlen vfs + strlen path 0 + 1)); [|lia].
  - unfold vfs_getcwd, getcwd_cut, set_file1. simpl.
    destruct (_ <? _); simpl; by rewrite list_insert_insert_eq.
  - intros lim vfs' r' r. unfold r', r, vfs'.
    rewrite (abspath__lens vfs) by (unfold vfs_getcwd; done).
    unfold vfs_getcwd. simpl.
    destruct (Nat.ltb_spec (rootlen vfs) (cwdlen vfs)) as [Hlt|Hge];
      rewrite length_insert.
    + destruct (abspath__separator vfs (file1 vfs) (length (file1 vfs))
                  path lim NUL) as [H1 H2].
      split; [done|].
      destruct (decide (cwdlen vfs + strlen path 0 + 1 ≤ length (file1 vfs)))
        as [Hfit|Hfit].
      * by rewrite H2.
      * assert ((abspath_ vfs (file1 vfs) (length (file1 vfs)) path lim).2
                = Null PathTooLong) as E by (apply abspath__too_long; lia).
        unfold resolved. rewrite H1, E. done.
    + destruct (abspath__at_root vfs (file1 vfs) (length (file1 vfs))
                  path lim) as [H|[H1 H2]]; [lia..| |].
      * by rewrite H.
      * unfold resolved. rewrite H1, H2. done.
  - unfold abspath2, vfs_getcwd, set_file1, set_file2, abspath_. simpl.
    repeat (destruct (_ <? _) || destruct (Ascii.eqb _ _)
            || destruct (_ || _)); done.
Qed.

Lemma getcwd_frame_witness :
  wf ex_sub
  ∧ (vfs_getcwd (vfs_getcwd ex_sub).1).2 = (vfs_getcwd ex_sub).2
  ∧ (vfs_getcwd ex_sub).2 = bytes "/sub".
Proof.
  split; [apply ex_sub_wf|]. split; [|reflexivity].
  apply (getcwd_frame ex_sub (bytes "x") ex_sub_wf).
Defined.

(** ** vfs_chdir: the failure exits *)

Section Chdir.
Implicit Types vfs : vfs_t.
Implicit Types b l : list ascii.

Lemma take_splice_0 b l :
  length l ≤ length b → take (length l) (splice b 0 l) = l.
Proof.
  intros H. unfold splice. rewrite take_0. simpl.
  rewrite take_take, take_app_le by lia.
  rewrite take_ge by lia. done.
Qed.

(** The rollback puts the first [cwdlen] bytes of [file2] back. *)
Lemma chdir_rollback_take vfs f1 :
  length f1 = length (file2 vfs) → cwdlen vfs < length (file2 vfs) →
  take (cwdlen vfs) (file1 (chdir_rollback vfs f1))
  = take (cwdlen vfs) (file2 vfs).
Proof.
  intros Hlen Hc. unfold chdir_rollback. simpl.
  rewrite take_insert_ge by lia. unfold memcpy.
  rewrite block_take_drop by (simpl; lia). rewrite drop_0.
  rewrite <-(length_take_le (file2 vfs) (cwdlen vfs)) at 1 by lia.
  apply take_splice_0. rewrite length_take. lia.
Qed.

(** What [vfs_getcwd] returns is read from the first bytes of [file1]. *)
Lemma getcwd_same vfs vfs' :
  wf vfs → rootlen vfs' = rootlen vfs → cwdlen vfs' = cwdlen vfs →
  length (file1 vfs') = length (file1 vfs) →
  take (cwdlen vfs - 1) (file1 vfs') = take (cwdlen vfs - 1) (file2 vfs) →
  (rootlen vfs = cwdlen vfs →
   rd (file1 vfs') (cwdlen vfs - 1) = "/"%char) →
  (vfs_getcwd vfs').2 = (vfs_getcwd vfs).2.
Proof.
  intros Hwf Hr Hc Hlen Ht Hroot.
  pose proof (wf_root _ Hwf) as Hr'. pose proof (wf_cap _ Hwf) as Hc'.
  rewrite !getcwd_result by lia. unfold getcwd_cut. rewrite Hr, Hc.
  destruct (Nat.ltb_spec (rootlen vfs) (cwdlen vfs)) as [Hlt|Hge].
  - by rewrite Ht, (wf_same _ Hwf).
  - assert (rootlen vfs = cwdlen vfs) as E by lia.
    assert (take (S (cwdlen vfs - 1)) (file1 vfs')
            = take (S (cwdlen vfs - 1)) (file1 vfs)) as Hk.
    { rewrite !take_S_rd by lia. rewrite Ht, (wf_same _ Hwf), (Hroot E).
      do 2 f_equal. rewrite <-(wf_rootsep1 _ Hwf). f_equal. lia. }
    replace (S (cwdlen vfs - 1)) with (cwdlen vfs) in Hk by lia.
    by rewrite Hk.
Qed.

Lemma chdir_rollback_getcwd vfs f1 :
  wf vfs → length f1 = length (file1 vfs) →
  (vfs_getcwd (chdir_rollback vfs f1)).2 = (vfs_getcwd vfs).2.
Proof.
  intros Hwf Hlen. pose proof (wf_root _ Hwf) as Hr.
  pose proof (wf_size2 _ Hwf) as Hc. pose proof (wf_size _ Hwf) as Hs.
  pose proof (chdir_rollback_take vfs f1 ltac:(lia) Hc) as Ht.
  apply getcwd_same; [done|done|done| | |].
  - unfold chdir_rollback. simpl. by rewrite length_insert, length_memcpy.
  - replace (cwdlen vfs - 1) with (min (cwdlen vfs - 1) (cwdlen vfs)) by lia.
    by rewrite <-!take_take, Ht.
  - intros E. rewrite (take_rd _ _ _ _ Ht) by lia.
    replace (cwdlen vfs - 1) with (rootlen vfs - 1) by lia.
    apply (wf_rootsep2 _ Hwf).
Qed.

(** The buffer that [vfs_chdir] works on keeps its size. *)
Lemma abspath__length vfs buffer n path lim :
  length (abspath_ vfs buffer n path lim).1 = length buffer.
Proof.
  unfold abspath_. cbv zeta.
  destruct (_ <? _); [done|].
  destruct (Ascii.eqb _ _); destruct lim; try destruct (_ || _); simpl;
    try apply length_insert;
    match goal with
    | |- context [normalize_path ?b ?p] =>
        destruct (normalize_path_shrunk p b) as (-> & _ & _)
    end;
    by rewrite length_memcpy, length_insert.
Qed.

End Chdir.

(** C6, as amended.  A [vfs_chdir] that fails leaves both lengths and
    [file2] as they were, and [vfs_getcwd] returns afterwards what it
    returned before.  The two buffers then agree on the committed cwd up
    to its separator byte: their first [cwdlen - 1] bytes are equal.
    After a rollback, that is when the resolver did not refuse the path
    as too long, all [cwdlen] bytes are equal; when it did, [file1] is
    untouched, and its separator byte may still be the NUL that an
    earlier [vfs_getcwd] left there. *)
Theorem chdir_failure_rollback fs vfs path vfs' e :
  wf vfs → vfs_chdir fs vfs path = (vfs', Failed e) →
  (vfs_getcwd vfs').2 = (vfs_getcwd vfs).2
  ∧ rootlen vfs' = rootlen vfs ∧ cwdlen vfs' = cwdlen vfs
  ∧ file2 vfs' = file2 vfs
  ∧ take (cwdlen vfs - 1) (file1 vfs') = take (cwdlen vfs - 1) (file2 vfs')
  ∧ (cwdlen vfs + strlen path 0 + 1 ≤ length (file1 vfs) →
     take (cwdlen vfs) (file1 vfs') = take (cwdlen vfs) (file2 vfs'))
  ∧ (length (file1 vfs) < cwdlen vfs + strlen path 0 + 1 →
     file1 vfs' = file1 vfs).
Proof.
  intros Hwf H. pose proof (wf_root _ Hwf) as Hr.
  pose proof (wf_size2 _ Hwf) as Hc. pose proof (wf_size _ Hwf) as Hs.
  unfold vfs_chdir in H.
  pose proof (abspath__too_long vfs (file1 vfs) (length (file1 vfs)) path
                false) as Hlong.
  pose proof (abspath__root_mode vfs (file1 vfs) (length (file1 vfs)) path)
    as Hmode.
  pose proof (abspath__length vfs (file1 vfs) (length (file1 vfs)) path
                false) as Hlen.
  destruct (abspath_ vfs (file1 vfs) (length (file1 vfs)) path false)
    as [f1 r] eqn:E.
  simpl in Hlong, Hmode, Hlen.
  destruct Hmode as [-> | ->].
  - (* the path was resolved: both failures roll back *)
    assert (¬ length (file1 vfs) < cwdlen vfs + strlen path 0 + 1) as Hfit.
    { intros Hn. by apply Hlong in Hn. }
    assert (∃ f, vfs' = chdir_rollback vfs f
                 ∧ length f = length (file1 vfs)) as (f & -> & Hf).
    { destruct (negb _); [destruct (_ <=? _)|]; simpl in H.
      - injection H as <- _. by exists f1.
      - destruct (_ || _); [done|]. injection H as <- _.
        eexists. split; [done|]. by rewrite !length_insert.
      - destruct (_ || _); [done|]. injection H as <- _.
        eexists. split; [done|]. by rewrite !length_insert. }
    pose proof (chdir_rollback_take vfs f ltac:(lia) Hc) as Ht.
    split; [by apply chdir_rollback_getcwd|].
    repeat split; try done.
    replace (cwdlen vfs - 1) with (min (cwdlen vfs - 1) (cwdlen vfs)) by lia.
    by rewrite <-!take_take, Ht.
  - (* the resolver refused the path: nothing was written *)
    injection H as <- _.
    assert (f1 = file1 vfs) as ->.
    { unfold abspath_ in E. cbv zeta in E.
      destruct (_ <? _) eqn:E1 in E; [by injection E|].
      apply Nat.ltb_ge in E1. assert (length (file1 vfs)
        < cwdlen vfs + strlen path 0 + 1) by (by apply Hlong). lia. }
    split; [|repeat split; try done].
    + apply getcwd_same; try done.
      * apply (wf_same _ Hwf).
      * intros Eq. replace (cwdlen vfs - 1) with (rootlen vfs - 1) by lia.
        apply (wf_rootsep1 _ Hwf).
    + apply (wf_same _ Hwf).
    + intros Hn. assert (length (file1 vfs)
        < cwdlen vfs + strlen path 0 + 1) by (by apply Hlong). lia.
Qed.

(** C6 as stated fails on the separator byte.  After [vfs_chdir("sub")]
    and [vfs_getcwd], a [vfs_chdir] to a path that is too long fails,
    and the first [cwdlen] bytes of the two buffers differ: [file1] ends
    them with NUL, [file2] with the separator. *)
Lemma chdir_failure_separator :
  wf ex_sub_pwd
  ∧ ex_sub_pwd = (vfs_getcwd (vfs_chdir ex_fs ex_root (bytes "sub")).1).1
  ∧ (vfs_chdir ex_fs ex_sub_pwd ex_long).2 = Failed PathTooLong
  ∧ take (cwdlen ex_sub_pwd) (file1 (vfs_chdir ex_fs ex_sub_pwd ex_long).1)
    ≠ take (cwdlen ex_sub_pwd) (file2 (vfs_chdir ex_fs ex_sub_pwd ex_long).1).
Proof.
  split; [apply ex_sub_pwd_wf|]. split; [reflexivity|].
  split; [reflexivity|]. by vm_compute.
Qed.

Lemma chdir_failure_rollback_witness :
  wf ex_sub
  ∧ vfs_chdir ex_fs_empty ex_sub (bytes "nonexistent")
    = ((vfs_chdir ex_fs_empty ex_sub (bytes "nonexistent")).1,
       Failed NotADirectory)
  ∧ (vfs_getcwd (vfs_chdir ex_fs_empty ex_sub (bytes "nonexistent")).1).2
    = (vfs_getcwd ex_sub).2.
Proof.
  split; [apply ex_sub_wf|]. split; [reflexivity|].
  apply (chdir_failure_rollback ex_fs_empty ex_sub (bytes "nonexistent") _
           NotADirectory ex_sub_wf).
  reflexivity.
Defined.

(** C8.  [vfs_chdir] resolves with [limit_to_cwd] off; in that mode the
    resolver fails by its capacity check only, so a [vfs_chdir] that
    fails reports [PathTooLong] or [NotADirectory], never
    [PathEscapesRoot]. *)
Theorem chdir_never_escapes fs vfs path :
  (∀ buffer n,
     (abspath_ vfs buffer n path false).2 = Ptr
     ∨ ((abspath_ vfs buffer n path false).2 = Null PathTooLong
        ∧ n < cwdlen vfs + strlen path 0 + 1))
  ∧ (vfs_chdir fs vfs path).2 ≠ Failed PathEscapesRoot
  ∧ (∀ e, (vfs_chdir fs vfs path).2 = Failed e →
          e = PathTooLong ∨ e = NotADirectory).
Proof.
  split.
  { intros buffer n.
    destruct (abspath__root_mode vfs buffer n path) as [H|H]; [by left|].
    right. split; [done|]. by apply abspath__too_long in H. }
  assert (∀ e, (vfs_chdir fs vfs path).2 = Failed e →
               e = PathTooLong ∨ e = NotADirectory) as H.
  { intros e. unfold vfs_chdir.
    pose proof (abspath__root_mode vfs (file1 vfs) (length (file1 vfs)) path)
      as Hr.
    destruct (abspath_ vfs (file1 vfs) (length (file1 vfs)) path false)
      as [f1 r].
    simpl in Hr. destruct Hr as [-> | ->]; [|intros [= <-]; by left].
    destruct (negb _); [destruct (_ <=? _)|]; simpl;
      try destruct (_ || _); simpl; intros [= <-]; auto. }
  split; [|done]. intros E. by destruct (H _ E).
Qed.

(** ** The delegating operations *)

(** The one-path operations report [1] and leave the delegate alone when
    the path does not resolve. *)
Lemma delegate1_unresolved op call r :
  r.2 ≠ Ptr →
  (delegate1 op call r).1.2 = 1%Z ∧ (delegate1 op call r).2 = [].
Proof. destruct r as [vfs [|why]]; simpl; [done|]. by intros _. Qed.

Lemma vfs_remove_unresolved fs vfs path :
  (abspath vfs path).2 ≠ Ptr →
  (vfs_remove fs vfs path).1.2 = 1%Z ∧ (vfs_remove fs vfs path).2 = [].
Proof. apply delegate1_unresolved. Qed.

(** C2: what the code does.  When one of the two paths of [vfs_rename]
    does not resolve, the delegate is not called, but the value returned
    is [0], which reports success: [vfs_mkdir], [vfs_rmdir] and
    [vfs_remove] return [1] there (see [delegate1_unresolved]). *)
Theorem rename_unresolved fs vfs from to :
  (abspath vfs from).2 ≠ Ptr ∨ (abspath2 (abspath vfs from).1 to).2 ≠ Ptr →
  (vfs_rename fs vfs from to).1.2 = 0%Z
  ∧ (vfs_rename fs vfs from to).2 = [].
Proof.
  unfold vfs_rename.
  destruct (abspath vfs from) as [vfs1 [|w1]]; simpl;
    destruct (abspath2 vfs1 to) as [vfs2 [|w2]]; simpl; try done.
  by intros [|].
Qed.

Lemma rename_unresolved_witness :
  (abspath ex_sub (bytes "/other")).2 = Null PathEscapesRoot
  ∧ ((vfs_rename ex_fs ex_sub (bytes "/other") (bytes "x")).1.2 = 0%Z
     ∧ (vfs_rename ex_fs ex_sub (bytes "/other") (bytes "x")).2 = [])
  ∧ (vfs_remove ex_fs ex_sub (bytes "/other")).1.2 = 1%Z.
Proof.
  split; [reflexivity|]. split; [|reflexivity].
  apply (rename_unresolved ex_fs ex_sub (bytes "/other") (bytes "x")).
  left. vm_compute. discriminate.
Defined.

(** With both paths resolved the delegate is called once, on the two
    resolved paths, and its failure is what is reported. *)
Lemma rename_resolved fs vfs from to :
  (abspath vfs from).2 = Ptr → (abspath2 (abspath vfs from).1 to).2 = Ptr →
  let vfs' := (abspath2 (abspath vfs from).1 to).1 in
  let a := str (file1 vfs') 0 in
  let b := str (file2 vfs') 0 in
  vfs_rename fs vfs from to
  = (vfs', if Z.eqb (fs_rename fs a b) 0 then 0%Z else 1%Z,
     [CallRename a b]).
Proof.
  unfold vfs_rename.
  destruct (abspath vfs from) as [vfs1 [|w1]]; simpl; [|done].
  destruct (abspath2 vfs1 to) as [vfs2 [|w2]]; simpl; [|done].
  intros _ _. by destruct (Z.eqb _ _).
Qed.

(** ** The sessions the code reaches *)

Section Reachable.
Implicit Types vfs : vfs_t.
Implicit Types b l : list ascii.

Lemma wf_open m1 m2 vfs :
  length m1 = length m2 → length VFS_ROOT < length m1 →
  vfs_openfs (Some (m1, m2)) = Some vfs → wf vfs.
Proof.
  intros Hlen Hroom [= <-].
  assert (∀ m, length VFS_ROOT < length m →
               take 9 (strcpy m VFS_ROOT) = VFS_ROOT ++ [NUL]) as Ht.
  { intros m Hm. apply (take_splice_0 m (VFS_ROOT ++ [NUL])).
    rewrite length_app. simpl in *. lia. }
  assert (∀ m k, length VFS_ROOT < length m → k < 9 →
                 rd (strcpy m VFS_ROOT) k = rd (VFS_ROOT ++ [NUL]) k) as Hrd.
  { intros m k Hm Hk. rewrite <-(Ht m Hm).
    rewrite !rd_default, lookup_take_lt by done. done. }
  assert (∀ m k, length VFS_ROOT < length m → k ≤ 9 →
                 take k (strcpy m VFS_ROOT) = take k (VFS_ROOT ++ [NUL])) as Htk.
  { intros m k Hm Hk. rewrite <-(Ht m Hm), take_take. f_equal. lia. }
  constructor; simpl.
  - unfold strcpy. by rewrite !length_splice.
  - lia.
  - unfold strcpy. rewrite length_splice. simpl in Hroom. lia.
  - rewrite !Htk by (simpl in *; lia). done.
  - rewrite Htk by (simpl in *; lia). apply (bool_decide_unpack _).
    by vm_compute.
  - by rewrite Hrd by (simpl in *; lia).
  - by rewrite Hrd by (simpl in *; lia).
  - left. by rewrite Hrd by (simpl in *; lia).
  - left. by rewrite Hrd by (simpl in *; lia).
Qed.

(** What a resolve under the cwd leaves at the two separators. *)
Lemma abspath__keeps vfs buffer path :
  1 ≤ rootlen vfs ≤ cwdlen vfs → cwdlen vfs < length buffer →
  rd buffer (rootlen vfs - 1) = "/"%char →
  rd buffer (cwdlen vfs - 1) = "/"%char ∨ rd buffer (cwdlen vfs - 1) = NUL →
  let b' := (abspath_ vfs buffer (length buffer) path true).1 in
  length b' = length buffer
  ∧ take (cwdlen vfs - 1) b' = take (cwdlen vfs - 1) buffer
  ∧ rd b' (rootlen vfs - 1) = "/"%char
  ∧ (rd b' (cwdlen vfs - 1) = "/"%char ∨ rd b' (cwdlen vfs - 1) = NUL).
Proof.
  intros Hr Hc Hrs Hs b'.
  destruct (abspath__frame vfs buffer (length buffer) path true) as [Hl Ht];
    [lia|]. fold b' in Hl, Ht. simpl in Ht.
  assert ((rd b' (cwdlen vfs - 1) = "/"%char ∨ rd b' (cwdlen vfs - 1) = NUL)
          ∧ (rootlen vfs = cwdlen vfs → rd b' (cwdlen vfs - 1) = "/"%char))
    as [Hs' Hroot].
  { destruct (abspath_ vfs buffer (length buffer) path true) as [b1 r] eqn:E.
    simpl in b'. subst b'. destruct r as [|[| |]].
    - destruct (abspath__true_sep vfs buffer _ path b1 Hr ltac:(lia) E)
        as [H|(H & Habs & Hd & _)]; [by split; [left|]|].
      split; [by right|]. intros Heq.
      assert (1 ≤ strlen path 0); [|lia].
      apply (strlen_extend path 0 0); [lia|]. simpl. by rewrite Habs.
    - assert (b1 = buffer) as ->.
      { unfold abspath_ in E. cbv zeta in E.
        destruct (_ <? _); [by injection E|].
        destruct (Ascii.eqb _ _); [destruct (_ || _)|]; by injection E. }
      split; [done|]. intros Heq. by rewrite <-Heq.
    - assert (b1 = <[cwdlen vfs - 1 := "/"%char]> buffer) as ->.
      { unfold abspath_ in E. cbv zeta in E.
        destruct (_ <? _); [by injection E|].
        destruct (Ascii.eqb _ _); [destruct (_ || _)|]; by injection E. }
      rewrite rd_insert_eq by lia. by split; [left|].
    - exfalso. unfold abspath_ in E. cbv zeta in E.
      destruct (_ <? _); [by injection E|].
      destruct (Ascii.eqb _ _); [destruct (_ || _)|]; by injection E. }
  repeat split; try done.
  destruct (decide (rootlen vfs = cwdlen vfs)) as [Heq|Hne].
  - rewrite Heq. by apply Hroot.
  - rewrite (take_rd _ _ _ _ Ht) by lia. done.
Qed.

Lemma wf_abspath vfs path : wf vfs → wf (abspath vfs path).1.
Proof.
  intros Hwf. unfold abspath.
  destruct (abspath__keeps vfs (file1 vfs) path (wf_root _ Hwf)
              (wf_cap _ Hwf) (wf_rootsep1 _ Hwf) (wf_sep1 _ Hwf))
    as (Hl & Ht & Hrs & Hs).
  destruct (abspath_ vfs (file1 vfs) (length (file1 vfs)) path true)
    as [b' r]. simpl in *.
  constructor; simpl; try apply Hwf; try done.
  - rewrite Hl. apply Hwf.
  - rewrite Hl. apply Hwf.
  - rewrite Ht. apply Hwf.
  - rewrite Ht. apply Hwf.
Qed.

Lemma wf_abspath2 vfs path : wf vfs → wf (abspath2 vfs path).1.
Proof.
  intros Hwf. unfold abspath2.
  destruct (abspath__keeps vfs (file2 vfs) path (wf_root _ Hwf)
              (wf_size2 _ Hwf) (wf_rootsep2 _ Hwf) (wf_sep2 _ Hwf))
    as (Hl & Ht & Hrs & Hs).
  destruct (abspath_ vfs (file2 vfs) (length (file2 vfs)) path true)
    as [b' r]. simpl in *.
  constructor; simpl; try apply Hwf; try done.
  - rewrite Hl. apply Hwf.
  - rewrite Ht. apply Hwf.
Qed.

Lemma wf_getcwd vfs : wf vfs → wf (vfs_getcwd vfs).1.
Proof.
  intros Hwf. pose proof (wf_root _ Hwf) as Hr.
  pose proof (wf_cap _ Hwf) as Hc.
  unfold vfs_getcwd.
  destruct (Nat.ltb_spec (rootlen vfs) (cwdlen vfs)) as [Hlt|Hge];
    constructor; simpl; try apply Hwf; try done.
  all: rewrite ?length_insert, ?take_insert_ge by lia; try apply Hwf.
  - rewrite rd_insert_ne by lia. apply Hwf.
  - right. apply rd_insert_eq. lia.
  - rewrite rd_insert_ne by lia. apply Hwf.
  - rewrite rd_insert_ne by lia. apply Hwf.
Qed.

Lemma take_str b k : k ≤ strlen b 0 → take k (str b 0) = take k b.
Proof.
  intros Hk. apply list_eq. intros i.
  destruct (decide (i < k)) as [Hi|Hi].
  - rewrite !lookup_take_lt by done.
    pose proof (strlen_le b 0 ltac:(lia)) as Hb.
    pose proof (rd_str b 0 i ltac:(lia)) as H. simpl in H.
    rewrite (lookup_rd b i) by lia. rewrite H.
    destruct (nth_lookup_or_length (str b 0) i NUL) as [->|Hge]; [done|].
    unfold strlen in *. lia.
  - by rewrite !lookup_take_ge by lia.
Qed.

Lemma take_str_nonul b k : k ≤ strlen b 0 → NUL ∉ take k b.
Proof.
  intros Hk. rewrite <-take_str by done. intros Hin.
  apply (str_nonul b 0). by apply (subseteq_take _ _ _ Hin).
Qed.

(** What [vfs_chdir] gets from the resolver when the path is resolved:
    a string that starts with the root and ends inside the buffer. *)
Lemma abspath__root_mode_ok vfs path f1 :
  wf vfs →
  abspath_ vfs (file1 vfs) (length (file1 vfs)) path false = (f1, Ptr) →
  length f1 = length (file1 vfs)
  ∧ rootlen vfs ≤ strlen f1 0 ∧ strlen f1 0 < length f1
  ∧ rd f1 (rootlen vfs - 1) = "/"%char.
Proof.
  intros Hwf E. pose proof (wf_root _ Hwf) as Hr.
  pose proof (wf_cap _ Hwf) as Hc. pose proof (wf_size _ Hwf) as Hsz.
  pose proof (abspath__length vfs (file1 vfs) (length (file1 vfs)) path false)
    as Hl. rewrite E in Hl. simpl in Hl.
  assert (cwdlen vfs + strlen path 0 + 1 ≤ length (file1 vfs)) as Hfit.
  { destruct (decide (cwdlen vfs + strlen path 0 + 1 ≤ length (file1 vfs)))
      as [|Hn]; [done|].
    assert ((abspath_ vfs (file1 vfs) (length (file1 vfs)) path false).2
            = Null PathTooLong) as H by (apply abspath__too_long; lia).
    by rewrite E in H. }
  assert (∃ X, str f1 0 = root_of vfs ++ normalize X
               ∧ length X ≤ cwdlen vfs - rootlen vfs + strlen path 0)
    as (X & Hs & HX).
  { destruct (Ascii.eqb_spec (rd path 0) "/"%char) as [Habs|Hrel].
    - pose proof (abspath__absolute_root vfs (file1 vfs) path Hwf
                    ltac:(by left) Habs Hfit) as H.
      rewrite E in H. injection H as H. eexists. split; [done|].
      rewrite length_drop. unfold strlen. lia.
    - pose proof (abspath__relative vfs (file1 vfs) path false Hwf
                    ltac:(by left) Hrel Hfit) as H.
      rewrite E in H. injection H as H. eexists. split; [done|].
      rewrite length_app, length_drop, length_cwd_of by done.
      unfold strlen. lia. }
  pose proof (normalize_shorter X) as Hn.
  pose proof (length_root_of _ Hwf) as Hlr.
  assert (strlen f1 0 = rootlen vfs + length (normalize X)) as Hlen.
  { unfold strlen. by rewrite Hs, length_app, Hlr. }
  split; [done|]. split; [lia|]. split; [lia|].
  assert (take (rootlen vfs) f1 = root_of vfs) as Ht.
  { rewrite <-take_str by lia. rewrite Hs, <-Hlr. apply take_app_length. }
  rewrite (take_rd _ _ _ (rootlen vfs - 1) Ht) by lia.
  apply (wf_rootsep2 _ Hwf).
Qed.

Lemma wf_rollback vfs f :
  wf vfs → length f = length (file1 vfs) → wf (chdir_rollback vfs f).
Proof.
  intros Hwf Hlen. pose proof (wf_root _ Hwf) as Hr.
  pose proof (wf_size2 _ Hwf) as Hc. pose proof (wf_size _ Hwf) as Hs.
  pose proof (chdir_rollback_take vfs f ltac:(lia) Hc) as Ht.
  assert (take (cwdlen vfs - 1) (file1 (chdir_rollback vfs f))
          = take (cwdlen vfs - 1) (file2 vfs)) as Ht'.
  { replace (cwdlen vfs - 1) with (min (cwdlen vfs - 1) (cwdlen vfs)) by lia.
    by rewrite <-!take_take, Ht. }
  assert (length (file1 (chdir_rollback vfs f)) = length (file1 vfs)) as Hl.
  { unfold chdir_rollback. simpl. by rewrite length_insert, length_memcpy. }
  constructor.
  all: change (cwdlen (chdir_rollback vfs f)) with (cwdlen vfs).
  all: change (rootlen (chdir_rollback vfs f)) with (rootlen vfs).
  all: change (file2 (chdir_rollback vfs f)) with (file2 vfs).
  - by rewrite Hl.
  - done.
  - rewrite Hl. apply Hwf.
  - done.
  - rewrite Ht'. by apply wf_nonul2.
  - rewrite (take_rd _ _ _ _ Ht) by lia. apply Hwf.
  - apply Hwf.
  - rewrite (take_rd _ _ _ _ Ht) by lia. apply Hwf.
  - apply Hwf.
Qed.

Lemma wf_commit vfs f len :
  wf vfs → length f = length (file1 vfs) →
  rootlen vfs ≤ len → len < length f → NUL ∉ take (len - 1) f →
  rd f (rootlen vfs - 1) = "/"%char →
  let f1 := <[len - 1 := "/"%char]> (<[len - 1 := NUL]> f) in
  wf (Vfs f1 (memcpy (file2 vfs) 0 f1 0 (len + 1)) (rootlen vfs) len).
Proof.
  intros Hwf Hlen Hrl Hl Hn Hrs f1.
  pose proof (wf_root _ Hwf) as Hr. pose proof (wf_size _ Hwf) as Hs.
  assert (f1 = <[len - 1 := "/"%char]> f) as Hf1.
  { unfold f1. apply list_insert_insert_eq. }
  assert (length f1 = length f) as Hl1 by (by rewrite Hf1, length_insert).
  assert (take (len + 1) (memcpy (file2 vfs) 0 f1 0 (len + 1))
          = take (len + 1) f1) as Ht.
  { unfold memcpy. rewrite block_take_drop by (simpl; lia). rewrite drop_0.
    rewrite <-(length_take_le f1 (len + 1)) at 1 by lia.
    apply take_splice_0. rewrite length_take. lia. }
  constructor; simpl.
  - rewrite length_memcpy. lia.
  - lia.
  - lia.
  - replace (len - 1) with (min (len - 1) (len + 1)) by lia.
    by rewrite <-!take_take, Ht.
  - rewrite Hf1, take_insert_ge by lia. done.
  - rewrite Hf1. destruct (decide (rootlen vfs - 1 = len - 1)) as [->|Hne].
    + apply rd_insert_eq. lia.
    + by rewrite rd_insert_ne by lia.
  - rewrite (take_rd _ _ _ _ Ht) by lia.
    rewrite Hf1. destruct (decide (rootlen vfs - 1 = len - 1)) as [->|Hne].
    + apply rd_insert_eq. lia.
    + by rewrite rd_insert_ne by lia.
  - left. rewrite Hf1. apply rd_insert_eq. lia.
  - left. rewrite (take_rd _ _ _ _ Ht) by lia.
    rewrite Hf1. apply rd_insert_eq. lia.
Qed.

Lemma wf_chdir fs vfs path : wf vfs → wf (vfs_chdir fs vfs path).1.
Proof.
  intros Hwf. unfold vfs_chdir.
  pose proof (abspath__root_mode_ok vfs path) as Hok.
  destruct (abspath_ vfs (file1 vfs) (length (file1 vfs)) path false)
    as [f1 r] eqn:E.
  destruct r as [|why].
  2:{ simpl. assert (f1 = file1 vfs) as ->.
      { unfold abspath_ in E. cbv zeta in E.
        destruct (_ <? _); [by injection E|].
        destruct (Ascii.eqb _ _); by injection E. }
      by destruct Hwf. }
  destruct (Hok f1 Hwf eq_refl) as (Hl & Hlo & Hhi & Hrs).
  pose proof (wf_root _ Hwf) as Hr.
  set (len0 := strlen f1 0) in *.
  destruct (negb _) eqn:Eneg; [destruct (Nat.leb_spec (length f1) (len0 + 2))|].
  - simpl. by apply wf_rollback.
  - destruct (_ || _); simpl; [|apply wf_rollback; [done|]].
    + apply (wf_commit vfs _ (len0 + 1)); try done.
      * by rewrite !length_insert.
      * lia.
      * rewrite !length_insert. lia.
      * replace (len0 + 1 - 1) with len0 by lia.
        rewrite !take_insert_ge by lia. by apply take_str_nonul.
      * by rewrite !rd_insert_ne by lia.
    + by rewrite !length_insert.
  - destruct (_ || _); simpl; [|apply wf_rollback; [done|]].
    + apply (wf_commit vfs _ len0); try done.
      apply take_str_nonul. fold len0. lia.
    + by rewrite !length_insert.
Qed.

(** Every session the code reaches is well formed. *)
Lemma reachable_wf vfs : reachable vfs → wf vfs.
Proof.
  induction 1 as [m1 m2 vfs Hlen Hroom Hop| | | |].
  - by apply (wf_open m1 m2).
  - by apply wf_chdir.
  - by apply wf_getcwd.
  - by apply wf_abspath.
  - by apply wf_abspath2.
Qed.

End Reachable.

Lemma ex_root_reachable : reachable ex_root.
Proof. by apply (reach_open ex_mem ex_mem); [|vm_compute; lia|]. Qed.

Lemma ex_sub_reachable : reachable ex_sub.
Proof. apply reach_chdir, ex_root_reachable. Qed.

Lemma ex_sub_pwd_reachable : reachable ex_sub_pwd.
Proof. apply reach_getcwd, ex_sub_reachable. Qed.

(** * Further properties *)

(** ** Segments of a string *)

Section Segments.
Implicit Types s t u v w : list ascii.

Lemma find_sub_None needle l i :
  find_sub needle l i = None →
  ∀ k, k < length l → starts_with needle (drop k l) = false.
Proof.
  revert i. induction l as [|x l IH]; intros i H k Hk; [simpl in Hk; lia|].
  cbn [find_sub] in H.
  destruct (starts_with needle (x :: l)) eqn:E; [done|].
  destruct k as [|k]; [done|]. simpl in Hk. apply (IH _ H). lia.
Qed.

Lemma starts_with_nil x needle : starts_with (x :: needle) [] = false.
Proof. done. Qed.

Lemma starts_with_cons x needle y t :
  starts_with (x :: needle) (y :: t) = Ascii.eqb x y && starts_with needle t.
Proof. done. Qed.

(** A needle is found nowhere past the end. *)
Lemma starts_with_drop_ge x needle s k :
  length s ≤ k → starts_with (x :: needle) (drop k s) = false.
Proof. intros H. by rewrite drop_ge. Qed.

Lemma starts_with_prefix needle t :
  starts_with needle t = true ↔ needle `prefix_of` t.
Proof.
  revert t. induction needle as [|x needle IH]; intros t.
  - split; [intros _; by exists t|done].
  - destruct t as [|y t]; [split; [done|by intros [k Hk]]|].
    rewrite starts_with_cons, andb_true_iff, IH. split.
    + intros [->%Ascii.eqb_eq [k ->]]. by exists k.
    + intros [k [= -> ->]]. split; [apply Ascii.eqb_refl|by exists k].
Qed.

(** The tail of a string from a position, and the string cut in two. *)
Lemma drop_splice_lt s a c k :
  k < a → a ≤ length s →
  drop k (take a s ++ drop c s) = drop k (take a s) ++ drop c s
  ∧ drop k s = drop k (take a s) ++ drop a s
  ∧ drop k (take a s) ≠ [].
Proof.
  intros Hk Ha. split; [|split].
  - apply drop_app_le. rewrite length_take. lia.
  - rewrite <-(take_drop a s) at 1. apply drop_app_le.
    rewrite length_take. lia.
  - intros E. apply (f_equal length) in E.
    rewrite length_drop, length_take in E. simpl in E. lia.
Qed.

Lemma drop_splice_ge s a c k :
  a ≤ k → a ≤ length s →
  drop k (take a s ++ drop c s) = drop (c + (k - a)) s.
Proof.
  intros Hk Ha. rewrite drop_app_ge by (rewrite length_take; lia).
  rewrite length_take, drop_drop. f_equal. lia.
Qed.

Lemma head_drop s k : head (drop k s) = s !! k.
Proof.
  revert k. induction s as [|x s IH]; intros [|k]; simpl; try done.
Qed.

Lemma drop_nth_cons s k :
  k < length s → drop k s = nth k s NUL :: drop (S k) s.
Proof.
  intros H. destruct (lookup_lt_is_Some_2 s k H) as [x Hx].
  rewrite (drop_S _ _ _ Hx). f_equal. symmetry. by apply nth_lookup_Some.
Qed.

(** Cutting at a separator, with a separator or the end to follow,
    makes no [//] before the cut. *)
Lemma dslash_splice u v w :
  u ≠ [] → head v = Some "/"%char →
  starts_with (bytes "//") (u ++ w) = true →
  starts_with (bytes "//") (u ++ v) = true.
Proof.
  intros Hu Hv. destruct v as [|c v]; [done|]. injection Hv as ->.
  change (bytes "//") with ["/"%char; "/"%char].
  destruct u as [|x [|y u]]; [by destruct Hu| |by cbn [app starts_with]].
  cbn [app]. rewrite !starts_with_cons. intros [-> _]%andb_true_iff.
  by rewrite Ascii.eqb_refl.
Qed.

(** Nor a segment [.] or [..] before the cut. *)
Lemma dotseg_splice u v w :
  u ≠ [] → head v = Some "/"%char → ends_or_sep w = true →
  dot_segment (u ++ w) = true → dot_segment (u ++ v) = true.
Proof.
  intros Hu Hv Hw. destruct v as [|c v]; [done|]. injection Hv as ->.
  unfold dot_segment.
  change (bytes "/.") with ["/"%char; "."%char].
  change (bytes ".") with ["."%char].
  destruct u as [|x1 [|x2 [|x3 [|x4 u]]]]; [by destruct Hu|..]; cbn [app].
  - destruct w as [|c w]; [cbn [starts_with]; by rewrite andb_false_r|].
    cbn [ends_or_sep] in Hw.
    apply Ascii.eqb_eq in Hw as ->.
    rewrite !starts_with_cons. cbn [starts_with]. rewrite andb_true_r.
    change (Ascii.eqb "."%char "/"%char) with false.
    by rewrite andb_false_r.
  - rewrite !starts_with_cons. cbn [starts_with drop].
    intros [H _]%andb_true_iff. rewrite H. cbn [ends_or_sep].
    by rewrite Ascii.eqb_refl.
  - rewrite !starts_with_cons. cbn [starts_with drop].
    intros [H1 H2]%andb_true_iff. rewrite H1. cbn [andb].
    cbn [ends_or_sep] in *. apply orb_true_iff in H2 as [->|H2]; [done|].
    apply andb_true_iff in H2 as [-> _].
    rewrite Ascii.eqb_refl. by rewrite orb_true_r.
  - done.
Qed.

(** The comparisons of the third loop at a [/.], on the string. *)
Lemma dot_checks t :
  starts_with (bytes "/.") t = true →
  starts_with (bytes "//") t = false
  ∧ bytes_eqb t (bytes "/.") || starts_with (bytes "/./") t
    = ends_or_sep (drop 2 t)
  ∧ bytes_eqb t (bytes "/..") || starts_with (bytes "/../") t
    = starts_with (bytes ".") (drop 2 t) && ends_or_sep (drop 3 t).
Proof.
  change (bytes "/.") with ["/"%char; "."%char].
  change (bytes "//") with ["/"%char; "/"%char].
  change (bytes "/./") with ["/"%char; "."%char; "/"%char].
  change (bytes "/..") with ["/"%char; "."%char; "."%char].
  change (bytes "/../") with ["/"%char; "."%char; "."%char; "/"%char].
  change (bytes ".") with ["."%char].
  destruct t as [|c1 [|c2 t]]; [done|by rewrite starts_with_cons, andb_false_r|].
  rewrite !starts_with_cons. cbn [starts_with]. rewrite andb_true_r.
  intros [<-%Ascii.eqb_eq <-%Ascii.eqb_eq]%andb_true_iff.
  split; [done|]. rewrite !bytes_eqb_cons, !Ascii.eqb_refl. cbn [andb drop].
  destruct t as [|c3 t].
  { split; [done|]. cbn [starts_with]. unfold bytes_eqb.
    by rewrite bool_decide_false. }
  cbn [drop ends_or_sep]. rewrite !andb_true_r. split.
  - unfold bytes_eqb at 1. rewrite bool_decide_false by done.
    cbn [orb]. apply Ascii.eqb_sym.
  - rewrite bytes_eqb_cons, (Ascii.eqb_sym c3).
    destruct (Ascii.eqb "."%char c3); [|done]. cbn [andb].
    destruct t as [|c4 t].
    + unfold bytes_eqb. by rewrite bool_decide_true.
    + unfold bytes_eqb. rewrite bool_decide_false by done.
      cbn [orb ends_or_sep]. rewrite andb_true_r. apply Ascii.eqb_sym.
Qed.

End Segments.

(** ** The rounds of normalize_path, on the string *)

Section Shapes.
Variable path : nat.
Implicit Types b : list ascii.

Lemma str_at b pos :
  inside path b pos → str b pos = drop (pos - path) (str b path).
Proof.
  intros [H1 H2]. rewrite <-str_shift by lia. f_equal. lia.
Qed.

Lemma rd_at b pos :
  inside path b pos → rd b pos = nth (pos - path) (str b path) NUL.
Proof.
  intros [H1 H2]. rewrite <-rd_view by lia. f_equal. lia.
Qed.

(** A [memmove] to the left of a string with its terminator writes
    nothing behind that terminator. *)
Lemma delete_tail b b1 q src k :
  (∀ j, path + strlen b path < j → rd b1 j = rd b j) →
  str b1 src = str b src → q ≤ src → inside path b src →
  path + strlen b path < k →
  rd (memmove b1 q src (strlen b1 src + 1)) k = rd b k.
Proof.
  intros Hb1 Hs Hq Hin Hk.
  assert (strlen b1 src = strlen b src) as -> by (unfold strlen; by rewrite Hs).
  pose proof (strlen_inside path b src Hin) as Hl. destruct Hin as [H1 H2].
  unfold memmove. rewrite rd_splice, decide_False; [by apply Hb1|].
  rewrite length_block. lia.
Qed.

(** Where [strstr] finds its needle, and that it is the first place. *)
Lemma strstr_shape b pos needle Q :
  inside path b pos → strstr b pos needle = Some Q →
  ∃ q, Q = path + q ∧ pos - path ≤ q ∧ q < strlen b path
       ∧ starts_with needle (drop q (str b path)) = true
       ∧ ∀ k, pos - path ≤ k → k < q →
              starts_with needle (drop k (str b path)) = false.
Proof.
  intros Hin H. unfold strstr in H.
  apply find_sub_Some in H as (k & -> & Hk & Hs & Hmin).
  rewrite (str_at b pos Hin) in Hk, Hs, Hmin. destruct Hin as [H1 H2].
  rewrite length_drop in Hk. rewrite drop_drop in Hs.
  exists (pos - path + k). split; [lia|]. split; [lia|].
  split; [unfold strlen; lia|]. split; [done|].
  intros j Hj1 Hj2. specialize (Hmin (j - (pos - path)) ltac:(lia)).
  rewrite drop_drop in Hmin.
  by replace (pos - path + (j - (pos - path))) with j in Hmin by lia.
Qed.

Lemma strstr_none b pos x needle k :
  inside path b pos → strstr b pos (x :: needle) = None →
  pos - path ≤ k → starts_with (x :: needle) (drop k (str b path)) = false.
Proof.
  intros Hin H Hk. unfold strstr in H.
  destruct (decide (k < strlen b path)) as [Hlt|Hge].
  - pose proof (find_sub_None _ _ _ H (k - (pos - path))) as Hn.
    rewrite (str_at b pos Hin), length_drop, drop_drop in Hn.
    replace (pos - path + (k - (pos - path))) with k in Hn by lia.
    apply Hn. unfold strlen in Hlt. lia.
  - apply starts_with_drop_ge. unfold strlen in Hge. lia.
Qed.

(** The first loop takes the first byte away. *)
Lemma strip_leading_shape b b' :
  strip_leading_body path b = Some b' →
  str b' path = drop 1 (str b path)
  ∧ ∀ k, path + strlen b path < k → rd b' k = rd b k.
Proof.
  unfold strip_leading_body. intros H.
  destruct (_ || _) eqn:E; [|done]. injection H as <-.
  assert (rd b path ≠ NUL) as Hnz.
  { apply orb_true_iff in E as [E|E].
    - apply Ascii.eqb_eq in E. rewrite E. done.
    - apply andb_true_iff in E as [E _]. apply Ascii.eqb_eq in E.
      rewrite E. done. }
  assert (1 ≤ strlen b path) as H1.
  { apply (strlen_extend b path 0); [lia|]. by rewrite Nat.add_0_r. }
  assert (inside path b (path + 1)) as Hin by (unfold inside; lia).
  destruct (delete_core path b b path (path + 1)) as (_ & _ & _ & Hs);
    [done|done|done|lia..|].
  split.
  - rewrite Hs, Nat.sub_diag, take_0. cbn [app].
    rewrite (str_at b (path + 1) Hin). f_equal. lia.
  - intros k Hk. apply delete_tail; [done|done|lia|done|done].
Qed.

(** It stops at a string that begins neither with [/] nor with [./]. *)
Lemma strip_leading_none b :
  strip_leading_body path b = None →
  head (str b path) ≠ Some "/"%char
  ∧ starts_with (bytes "./") (str b path) = false.
Proof.
  unfold strip_leading_body. intros H.
  destruct (_ || _) eqn:E; [done|]. apply orb_false_iff in E as [E1 E2].
  apply Ascii.eqb_neq in E1. split.
  - rewrite str_unfold. destruct (Ascii.eqb (rd b path) NUL); [done|].
    simpl. by intros [= ?].
  - change (bytes "./") with ["."%char; "/"%char].
    rewrite (str_unfold b path).
    destruct (Ascii.eqb (rd b path) NUL); [done|].
    rewrite starts_with_cons, (str_unfold b (S path)).
    replace (S path) with (path + 1) by lia.
    rewrite (Ascii.eqb_sym "."%char).
    destruct (Ascii.eqb (rd b path) "."%char); [|done].
    cbn [andb] in *. destruct (Ascii.eqb (rd b (path + 1)) NUL); [done|].
    rewrite starts_with_cons, (Ascii.eqb_sym "/"%char), E2. done.
Qed.

(** The second loop takes the first byte of the first [//] away. *)
Lemma collapse_slashes_shape b pos b' pos' :
  inside path b pos → collapse_slashes_body (b, pos) = Some (b', pos') →
  ∃ q, pos' = path + q ∧ pos - path ≤ q ∧ q < strlen b path
       ∧ starts_with (bytes "//") (drop q (str b path)) = true
       ∧ (∀ k, pos - path ≤ k → k < q →
               starts_with (bytes "//") (drop k (str b path)) = false)
       ∧ str b' path = take q (str b path) ++ drop (q + 1) (str b path)
       ∧ ∀ k, path + strlen b path < k → rd b' k = rd b k.
Proof.
  intros Hin H. unfold collapse_slashes_body in H.
  destruct (strstr b pos (bytes "//")) as [Q|] eqn:E; [|done].
  injection H as <- <-.
  pose proof (strstr_Some _ _ _ _ _ E) as (HQ & Hlen & _ & _).
  destruct (strstr_shape b pos _ Q Hin E) as (q & -> & Hq1 & Hq2 & Hs & Hmin).
  exists q. split; [done|]. split; [done|]. split; [done|].
  split; [done|]. split; [done|].
  pose proof (strlen_inside path b pos Hin) as Hp. destruct Hin as [Hin1 Hin2].
  assert (inside path b (path + q + 1)) as Hin' by (unfold inside; lia).
  destruct (delete_core path b b (path + q) (path + q + 1))
    as (_ & _ & _ & Hv); [done|done|done|lia..|].
  split.
  - rewrite Hv, (str_at b _ Hin'). do 2 f_equal; lia.
  - intros k Hk. apply delete_tail; [done|done|lia|done|done].
Qed.

End Shapes.

Section DotsShape.
Variable path : nat.
Implicit Types b : list ascii.

(** The third loop: what a round does to the string, and that it writes
    nothing behind the terminator. *)
Lemma resolve_dots_shape b pos b' pos' :
  inside path b pos → resolve_dots_body path (b, pos) = Some (b', pos') →
  ∃ q, pos - path ≤ q ∧ q + 2 ≤ strlen b path
       ∧ starts_with (bytes "/.") (drop q (str b path)) = true
       ∧ (∀ k, pos - path ≤ k → k < q →
               starts_with (bytes "/.") (drop k (str b path)) = false)
       ∧ path ≤ pos'
       ∧ dots_case (str b path) q (str b' path) (pos' - path)
       ∧ ∀ k, path + strlen b path < k → rd b' k = rd b k.
Proof.
  intros Hin H. unfold resolve_dots_body in H.
  destruct (strstr b pos (bytes "/.")) as [Q|] eqn:E; [|done].
  pose proof (strstr_Some _ _ _ _ _ E) as (HQ & Hlen & HQ0 & HQ1).
  destruct (strstr_shape path b pos _ Q Hin E)
    as (q & -> & Hq1 & Hq2 & Hs & Hmin).
  pose proof (strlen_inside path b pos Hin) as Hp.
  pose proof Hin as [Hin1 Hin2].
  assert (inside path b (path + q)) as HinQ by (unfold inside; lia).
  assert (str b (path + q) = drop q (str b path)) as Ht.
  { rewrite (str_at path b _ HinQ). f_equal. lia. }
  exists q. split; [done|]. split; [lia|]. split; [done|]. split; [done|].
  destruct (dot_checks _ Hs) as (C1 & C2 & C3).
  change ["/"%char; "."%char; NUL] with (bytes "/." ++ [NUL]) in H.
  change ["/"%char; "."%char; "."%char; NUL] with (bytes "/.." ++ [NUL]) in H.
  rewrite (memcmp0_plain b (path + q) (bytes "//")),
    (memcmp0_plain b (path + q) (bytes "/./")),
    (memcmp0_plain b (path + q) (bytes "/../")),
    (memcmp0_nul b (path + q) (bytes "/.")),
    (memcmp0_nul b (path + q) (bytes "/..")) in H
    by (apply (bool_decide_unpack _); by vm_compute).
  rewrite Ht, C1, C2, C3 in H.
  assert (∀ n, drop n (drop q (str b path)) = drop (q + n) (str b path))
    as Hdd by (intros n; apply drop_drop).
  rewrite !Hdd in H.
  assert (∀ src, path + q + 2 ≤ src → src ≤ path + strlen b path →
                 inside path b src ∧ str b src = drop (src - path) (str b path))
    as Hsrc.
  { intros src H1 H2. assert (inside path b src) as Hi by (unfold inside; lia).
    split; [done|]. by apply str_at. }
  destruct (ends_or_sep (drop (q + 2) (str b path))) eqn:E2.
  { (* a segment [.] *)
    injection H as <- <-. split; [lia|].
    destruct (Hsrc (path + q + 2)) as [Hi Hv]; [lia..|].
    destruct (delete_core path b b (path + q) (path + q + 2))
      as (_ & _ & _ & Hd); [done|done|done|lia..|].
    split.
    - rewrite Hd, Hv.
      replace (path + q - path) with q by lia.
      replace (path + q + 2 - path) with (q + 2) by lia.
      by apply dots_dot.
    - intros k Hk. apply (delete_tail path); [done|done|lia|done|done]. }
  destruct (starts_with (bytes ".") (drop (q + 2) (str b path))
            && ends_or_sep (drop (q + 3) (str b path))) eqn:E3.
  2:{ (* passed over *)
      injection H as <- <-. split; [lia|]. split; [|done].
      replace (path + q + 2 - path) with (q + 2) by lia.
      apply dots_skip. unfold dot_segment. by rewrite Hs, !Hdd, E2, E3. }
  (* a segment [..] *)
  cbn [orb] in H.
  assert (dot_segment (drop q (str b path)) = true) as Hseg.
  { unfold dot_segment. rewrite Hs, !Hdd, E2, E3. done. }
  apply andb_true_iff in E3 as [E3 E4].
  assert (nth (q + 2) (str b path) NUL = "."%char) as Hn2.
  { change (bytes ".") with ["."%char] in E3.
    destruct (drop (q + 2) (str b path)) as [|c r] eqn:Ed; [done|].
    rewrite starts_with_cons in E3. apply andb_true_iff in E3 as [E3 _].
    apply Ascii.eqb_eq in E3 as <-.
    destruct (decide (q + 2 < length (str b path))) as [Hlt|Hge].
    - rewrite (drop_nth_cons _ _ Hlt) in Ed. by injection Ed as -> _.
    - rewrite drop_ge in Ed by lia. done. }
  assert (q + 3 ≤ strlen b path) as Hq3.
  { destruct (decide (q + 3 ≤ strlen b path)) as [|Hn]; [done|].
    rewrite nth_overflow in Hn2 by (unfold strlen in Hn; lia). done. }
  assert (path + q < length b) as Hqb.
  { apply rd_nonul_lt. by rewrite HQ0. }
  set (b1 := <[path + q := NUL]> b) in *.
  assert (length b1 = length b) as Hb1 by apply length_insert.
  assert (∀ src, path + q < src → str b1 src = str b src) as Hsb.
  { intros src Hlt. by apply str_insert_lt. }
  assert (∀ j, path + strlen b path < j → rd b1 j = rd b j) as Htail.
  { intros j Hj. apply rd_insert_ne. lia. }
  assert (str b1 path = take q (str b path)) as Hv1.
  { rewrite (str_prefix b b1 path (path + q));
      [|intros; apply rd_insert_ne; lia|lia..].
    rewrite (str_nil b1 (path + q)) by (by apply rd_insert_eq).
    rewrite app_nil_r. f_equal. lia. }
  assert (rd b1 (path + q + 3) = nth (q + 3) (str b path) NUL) as Hr3.
  { unfold b1. rewrite rd_insert_ne by lia.
    rewrite (rd_at path b (path + q + 3)) by (unfold inside; lia).
    f_equal. lia. }
  rewrite Hr3 in H.
  destruct (strrchr b1 path "/"%char) as [slash|] eqn:Er.
  - injection H as <- <-.
    apply strrchr_Some in Er as [Hsl Hsl0].
    assert (slash < path + q) as Hslq.
    { unfold strlen in Hsl. rewrite Hv1, length_take in Hsl. lia. }
    unfold b1 in Hsl0. rewrite rd_insert_ne in Hsl0 by lia.
    rewrite (rd_at path b slash) in Hsl0 by (unfold inside; lia).
    split; [lia|].
    destruct (Hsrc (path + q + 3)) as [Hi Hv]; [lia..|].
    destruct (delete_core path b b1 slash (path + q + 3))
      as (_ & _ & _ & Hd); [done| |apply Hsb; lia|lia..|].
    { intros k Hk. apply rd_insert_ne. lia. }
    split.
    + rewrite Hd, Hv.
      replace (path + q + 3 - path) with (q + 3) by lia.
      apply dots_pop; [done|done|lia|done].
    + intros k Hk. apply (delete_tail path); [done|apply Hsb; lia|lia|done|done].
  - split; [destruct (Ascii.eqb _ _); injection H as <- <-; lia|].
    assert (str b' path
            = drop (if Ascii.eqb (nth (q + 3) (str b path) NUL) "/"%char
                    then q + 4 else q + 3) (str b path)
            ∧ pos' = path
            ∧ ∀ k, path + strlen b path < k → rd b' k = rd b k)
      as (Hd & -> & Hk).
    { destruct (Ascii.eqb_spec (nth (q + 3) (str b path) NUL) "/"%char)
        as [E5|E5]; injection H as <- <-.
      + assert (q + 4 ≤ strlen b path) as Hq4.
        { destruct (decide (q + 4 ≤ strlen b path)) as [|Hn]; [done|].
          rewrite nth_overflow in E5 by (unfold strlen in Hn; lia). done. }
        destruct (Hsrc (path + q + 1 + 3)) as [Hi Hv]; [lia..|].
        destruct (delete_core path b b1 path (path + q + 1 + 3))
          as (_ & _ & _ & Hd); [done| |apply Hsb; lia|lia..|].
        { intros k Hk. apply rd_insert_ne. lia. }
        split; [|split; [done|]].
        * rewrite Hd, Hv, Nat.sub_diag, take_0. cbn [app]. f_equal. lia.
        * intros k Hk.
          apply (delete_tail path); [done|apply Hsb; lia|lia|done|done].
      + destruct (Hsrc (path + q + 3)) as [Hi Hv]; [lia..|].
        destruct (delete_core path b b1 path (path + q + 3))
          as (_ & _ & _ & Hd); [done| |apply Hsb; lia|lia..|].
        { intros k Hk. apply rd_insert_ne. lia. }
        split; [|split; [done|]].
        * rewrite Hd, Hv, Nat.sub_diag, take_0. cbn [app]. f_equal. lia.
        * intros k Hk.
          apply (delete_tail path); [done|apply Hsb; lia|lia|done|done]. }
    split; [|done]. rewrite Hd, Nat.sub_diag. by apply dots_pop_first.
Qed.

End DotsShape.

(** ** What normalize_path writes *)

Section Tails.
Variable path : nat.
Implicit Types b : list ascii.

(** What the loops keep of the buffer [b0] they started from: the size,
    the bytes before [path], a string at [path] that is not longer, and
    the bytes behind the terminator of the first string. *)
Let kept (b0 b : list ascii) : Prop :=
  shrunk path b0 b ∧ ∀ k, path + strlen b0 path < k → rd b k = rd b0 k.

Lemma kept_refl b : kept b b.
Proof. split; [apply shrunk_refl|done]. Qed.

Lemma kept_step b0 b b' :
  kept b0 b → shrunk path b b' →
  (∀ k, path + strlen b path < k → rd b' k = rd b k) → kept b0 b'.
Proof.
  intros [Hs Ht] Hs' Ht'. split; [by apply (shrunk_trans _ _ b)|].
  intros k Hk. destruct Hs as (_ & _ & Hl).
  rewrite Ht' by lia. by apply Ht.
Qed.

Lemma strip_leading_kept n b0 b :
  kept b0 b → kept b0 (while n (strip_leading_body path) b).
Proof.
  apply (while_inv _ (kept b0)). intros s s' Hs Hb.
  apply (kept_step b0 s); [done|by apply strip_leading_step in Hb as [? _]|].
  by apply strip_leading_shape in Hb as [_ ?].
Qed.

Lemma collapse_slashes_kept n b0 s :
  kept b0 s.1 ∧ inside path s.1 s.2 →
  let s' := while n collapse_slashes_body s in
  kept b0 s'.1 ∧ inside path s'.1 s'.2.
Proof.
  apply (while_inv _ (λ s, kept b0 s.1 ∧ inside path s.1 s.2)).
  intros [b pos] [b' pos'] [Hk Hi] Hb. simpl in *.
  destruct (collapse_slashes_step path _ _ _ _ Hi Hb) as (H1 & H2 & _).
  destruct (collapse_slashes_shape path _ _ _ _ Hi Hb)
    as (q & _ & _ & _ & _ & _ & _ & H3).
  split; [|done]. by apply (kept_step b0 b).
Qed.

Lemma resolve_dots_kept n b0 s :
  kept b0 s.1 ∧ inside path s.1 s.2 →
  let s' := while n (resolve_dots_body path) s in
  kept b0 s'.1 ∧ inside path s'.1 s'.2.
Proof.
  apply (while_inv _ (λ s, kept b0 s.1 ∧ inside path s.1 s.2)).
  intros [b pos] [b' pos'] [Hk Hi] Hb. simpl in *.
  destruct (resolve_dots_step path _ _ _ _ Hi Hb) as (H1 & H2 & _).
  destruct (resolve_dots_shape path _ _ _ _ Hi Hb)
    as (q & _ & _ & _ & _ & _ & _ & H3).
  split; [|done]. by apply (kept_step b0 b).
Qed.

Lemma normalize_path_kept b :
  ∀ k, path + strlen b path < k → rd (normalize_path b path) k = rd b k.
Proof.
  unfold normalize_path, normalize_fuel. set (n := S (length b)).
  pose proof (strip_leading_kept n b b (kept_refl b)) as H1.
  set (b1 := while n (strip_leading_body path) b) in *.
  pose proof (collapse_slashes_kept n b (b1, path)) as H2.
  destruct (while n collapse_slashes_body (b1, path)) as [b2 p2].
  destruct H2 as [H2 _]; [split; [done|apply inside_start]|].
  pose proof (resolve_dots_kept n b (b2, path)) as H3.
  destruct H3 as [[_ H3] _]; [split; [done|apply inside_start]|].
  done.
Qed.

End Tails.

(** X1.  [normalize_path] rewrites the string at [path] and nothing else: the
    array keeps its size, the bytes before [path] and the bytes behind
    the terminator of the string.  The new string is not longer, and it
    is the one that [normalize] gives for the old string, whatever the
    rest of the array holds. *)
Theorem normalize_path_frame b path :
  let b' := normalize_path b path in
  length b' = length b
  ∧ take path b' = take path b
  ∧ drop (path + strlen b path + 1) b' = drop (path + strlen b path + 1) b
  ∧ str b' path = normalize (str b path)
  ∧ strlen b' path ≤ strlen b path.
Proof.
  intros b'. destruct (normalize_path_shrunk path b) as (Hl & Ht & Hs).
  fold b' in Hl, Ht, Hs.
  split; [done|]. split; [done|]. split; [|split; [|done]].
  - apply rd_ext; [by rewrite !length_drop, Hl|].
    intros i Hi. rewrite !rd_default, !lookup_drop, <-!rd_default.
    apply normalize_path_kept. lia.
  - apply normalize_path_local.
Qed.

(** ** normalize_path terminates *)

Section Exits.
Variable path : nat.
Implicit Types b : list ascii.

Lemma strip_leading_exit n b :
  strlen b path < n →
  strip_leading_body path (while n (strip_leading_body path) b) = None.
Proof.
  apply (while_exit _ (λ _, True) (λ b, strlen b path)); [|done].
  intros s s' _ Hb. apply strip_leading_step in Hb as [_ Hb]. done.
Qed.

Lemma collapse_slashes_exit n s :
  inside path s.1 s.2 → strlen s.1 s.2 < n →
  collapse_slashes_body (while n collapse_slashes_body s) = None.
Proof.
  apply (while_exit _ (λ s, inside path s.1 s.2) (λ s, strlen s.1 s.2)).
  intros [b pos] [b' pos'] Hi Hb.
  apply (collapse_slashes_step path) in Hb as (_ & Hb2 & Hb3); done.
Qed.

End Exits.

(** X2.  [normalize_path] terminates: with any bound above the size of the
    array each of its three loops leaves because its condition is false,
    the first at a string that begins neither with [/] nor with [./],
    the second and the third when [strstr] finds no [//] and no [/.]
    from [pos] on; the buffer is then the one [normalize_path]
    returns. *)
Theorem normalize_path_terminates b path n :
  length b < n →
  let b1 := while n (strip_leading_body path) b in
  let s2 := while n collapse_slashes_body (b1, path) in
  let s3 := while n (resolve_dots_body path) (s2.1, path) in
  strip_leading_body path b1 = None
  ∧ collapse_slashes_body s2 = None
  ∧ resolve_dots_body path s3 = None
  ∧ s3.1 = normalize_path b path.
Proof.
  intros Hn b1 s2 s3.
  pose proof (strlen_max b path) as Hb.
  pose proof (strip_leading_shrunk path n b) as (H1 & _ & _). fold b1 in H1.
  pose proof (collapse_slashes_good path n b1 (b1, path)) as H2.
  fold s2 in H2.
  destruct H2 as [(H2 & _ & _) _];
    [split; [apply shrunk_refl|apply inside_start]|].
  split; [apply strip_leading_exit; lia|].
  split.
  { apply (collapse_slashes_exit path); [apply inside_start|].
    simpl. pose proof (strlen_max b1 path). lia. }
  split.
  { apply (resolve_dots_exit path); [apply inside_start|].
    simpl. pose proof (strlen_max s2.1 path). simpl in H2. lia. }
  rewrite <-(normalize_path_fuel path n b Hn).
  unfold normalize_fuel. fold b1. fold s2. unfold s3. by destruct s2.
Qed.

Lemma normalize_path_terminates_witness :
  length (bytes "a/./b//../c") < 12
  ∧ (while 12 (resolve_dots_body 0)
       ((while 12 collapse_slashes_body
           (while 12 (strip_leading_body 0) (bytes "a/./b//../c"), 0)).1,
        0)).1
    = normalize_path (bytes "a/./b//../c") 0.
Proof.
  assert (length (bytes "a/./b//../c") < 12) as Hn by (vm_compute; lia).
  split; [done|].
  apply (normalize_path_terminates (bytes "a/./b//../c") 0 12 Hn).
Defined.

(** ** What the rounds keep of the form *)

Section Splice.
Implicit Types s t u v w : list ascii.

Lemma starts_with_lookup x needle s q :
  starts_with (x :: needle) (drop q s) = true →
  s !! q = Some x ∧ starts_with needle (drop (S q) s) = true.
Proof.
  destruct (s !! q) as [y|] eqn:E.
  - rewrite (drop_S _ _ _ E), starts_with_cons.
    by intros [->%Ascii.eqb_eq ?]%andb_true_iff.
  - apply lookup_ge_None_1 in E. by rewrite drop_ge.
Qed.

Lemma nth_of_lookup s q x : s !! q = Some x → nth q s NUL = x.
Proof. apply nth_lookup_Some. Qed.

Lemma nth_lookup_sep s q :
  nth q s NUL = "/"%char → s !! q = Some "/"%char ∧ q < length s.
Proof.
  intros H. destruct (nth_lookup_or_length s q NUL) as [E|E].
  - rewrite H in E. split; [done|]. by apply lookup_lt_Some in E.
  - by rewrite nth_overflow in H.
Qed.

Lemma dot_segment_starts t :
  starts_with (bytes "/.") t = false → dot_segment t = false.
Proof. unfold dot_segment. by intros ->. Qed.

Lemma splice_head s a c :
  0 < a → a ≤ length s → head (take a s ++ drop c s) = head s.
Proof. destruct s, a; simpl; done || lia. Qed.

Lemma splice_dslash s a c k :
  k < a → a ≤ length s → s !! a = Some "/"%char →
  starts_with (bytes "//") (drop k s) = false →
  starts_with (bytes "//") (drop k (take a s ++ drop c s)) = false.
Proof.
  intros Hk Ha Hv H. destruct (drop_splice_lt s a c k Hk Ha) as (E1 & E2 & E3).
  rewrite E1. destruct (starts_with _ (_ ++ drop c s)) eqn:E; [|done].
  apply (dslash_splice _ (drop a s)) in E; [|done|by rewrite head_drop].
  rewrite <-E2 in E. congruence.
Qed.

Lemma splice_dotseg s a c k :
  k < a → a ≤ length s → s !! a = Some "/"%char →
  ends_or_sep (drop c s) = true →
  dot_segment (drop k s) = false →
  dot_segment (drop k (take a s ++ drop c s)) = false.
Proof.
  intros Hk Ha Hv Hw H.
  destruct (drop_splice_lt s a c k Hk Ha) as (E1 & E2 & E3).
  rewrite E1. destruct (dot_segment (_ ++ drop c s)) eqn:E; [|done].
  apply (dotseg_splice _ (drop a s)) in E; [|done|by rewrite head_drop|done].
  rewrite <-E2 in E. congruence.
Qed.

Lemma collapse_keep s i q :
  slashes_done s i → i ≤ q →
  starts_with (bytes "//") (drop q s) = true →
  (∀ k, i ≤ k → k < q → starts_with (bytes "//") (drop k s) = false) →
  slashes_done (take q s ++ drop (q + 1) s) q.
Proof.
  intros [Hh Hd] Hq Hs Hmin.
  change (bytes "//") with ["/"%char; "/"%char] in Hs.
  apply starts_with_lookup in Hs as [Hs0 _].
  pose proof (lookup_lt_Some _ _ _ Hs0) as Hlt.
  assert (0 < q) as Hq0.
  { destruct q; [|lia]. by rewrite head_lookup in Hh. }
  split; [by rewrite splice_head by lia|].
  intros k Hk. apply splice_dslash; [done|lia|done|].
  destruct (decide (k < i)); [by apply Hd|apply Hmin; lia].
Qed.

Lemma dots_keep s i q s' i' :
  dots_done s i → i ≤ q →
  starts_with (bytes "/.") (drop q s) = true →
  (∀ k, i ≤ k → k < q → starts_with (bytes "/.") (drop k s) = false) →
  dots_case s q s' i' → dots_done s' i'.
Proof.
  intros (Hh & Hd & Hseg) Hq Hs Hmin Hc.
  assert (∀ k, k < q → dot_segment (drop k s) = false) as Hseg'.
  { intros k Hk. destruct (decide (k < i)); [by apply Hseg|].
    apply dot_segment_starts, Hmin; lia. }
  pose proof Hs as Hs'.
  change (bytes "/.") with ["/"%char; "."%char] in Hs'.
  apply starts_with_lookup in Hs' as [Hs0 Hs1].
  apply starts_with_lookup in Hs1 as [Hs1 _].
  pose proof (lookup_lt_Some _ _ _ Hs0) as Hlt.
  assert (0 < q) as Hq0.
  { destruct q; [|lia]. by rewrite head_lookup in Hh. }
  destruct Hc as [He|sl Hds He Hsl Hn|Hds He|Hds].
  - (* a segment [.] is cut out *)
    split; [by rewrite splice_head by lia|]. split.
    + intros k. destruct (decide (k < q)) as [Hk|Hk].
      * by apply splice_dslash; [|lia|..].
      * rewrite drop_splice_ge by lia. apply Hd.
    + intros k Hk. by apply splice_dotseg; [|lia|..]; auto.
  - (* a segment [..] is cut out with the segment before it *)
    apply nth_lookup_sep in Hn as [Hn Hsl'].
    assert (0 < sl) as Hsl0.
    { destruct sl; [|lia]. by rewrite head_lookup in Hh. }
    split; [by rewrite splice_head by lia|]. split.
    + intros k. destruct (decide (k < sl)) as [Hk|Hk].
      * by apply splice_dslash; [|lia|..].
      * rewrite drop_splice_ge by lia. apply Hd.
    + intros k Hk. apply splice_dotseg; [done|lia|done|done|].
      apply Hseg'. lia.
  - (* a segment [..] is cut out with all before it *)
    split; [|split; [|intros k Hk; lia]].
    + rewrite head_drop.
      destruct (Ascii.eqb_spec (nth (q + 3) s NUL) "/"%char) as [E|E].
      * apply nth_lookup_sep in E as [E _]. intros E'.
        pose proof (Hd (q + 3)) as Hd3.
        change (bytes "//") with ["/"%char; "/"%char] in Hd3.
        rewrite (drop_S _ _ _ E), starts_with_cons, Ascii.eqb_refl in Hd3.
        replace (q + 4) with (S (q + 3)) in E' by lia.
        rewrite (drop_S _ _ _ E'), starts_with_cons, Ascii.eqb_refl in Hd3.
        done.
      * intros E'. pose proof (nth_of_lookup _ _ _ E'). done.
    + intros k. rewrite drop_drop. apply Hd.
  - (* neither: passed over *)
    split; [done|]. split; [done|]. intros k Hk.
    destruct (decide (k < q)) as [|Hge]; [by apply Hseg'|].
    destruct (decide (k = q)) as [->|Hne]; [done|].
    replace k with (S q) by lia. apply dot_segment_starts.
    change (bytes "/.") with ["/"%char; "."%char].
    replace (q + 1) with (S q) in Hs1 by lia.
    by rewrite (drop_S _ _ _ Hs1), starts_with_cons.
Qed.

End Splice.

(** ** The string that normalize_path leaves *)

Section NormalForm.
Variable path : nat.
Implicit Types b : list ascii.

Lemma collapse_slashes_none b pos :
  collapse_slashes_body (b, pos) = None → strstr b pos (bytes "//") = None.
Proof. unfold collapse_slashes_body. by destruct (strstr _ _ _). Qed.

Lemma resolve_dots_none b pos :
  resolve_dots_body path (b, pos) = None → strstr b pos (bytes "/.") = None.
Proof.
  unfold resolve_dots_body. destruct (strstr _ _ _); [|done].
  intros H. exfalso. revert H. repeat case_match; done.
Qed.

Lemma collapse_slashes_done n s :
  inside path s.1 s.2 ∧ slashes_done (str s.1 path) (s.2 - path) →
  let s' := while n collapse_slashes_body s in
  inside path s'.1 s'.2 ∧ slashes_done (str s'.1 path) (s'.2 - path).
Proof.
  apply (while_inv _ (λ s, inside path s.1 s.2
                           ∧ slashes_done (str s.1 path) (s.2 - path))).
  intros [b pos] [b' pos'] [Hi Hd] Hb. simpl in *.
  destruct (collapse_slashes_step path _ _ _ _ Hi Hb) as (_ & H2 & _).
  destruct (collapse_slashes_shape path _ _ _ _ Hi Hb)
    as (q & -> & Hq & _ & Hs & Hmin & -> & _).
  split; [done|]. replace (path + q - path) with q by lia.
  by apply (collapse_keep _ (pos - path)).
Qed.

Lemma resolve_dots_done n s :
  inside path s.1 s.2 ∧ dots_done (str s.1 path) (s.2 - path) →
  let s' := while n (resolve_dots_body path) s in
  inside path s'.1 s'.2 ∧ dots_done (str s'.1 path) (s'.2 - path).
Proof.
  apply (while_inv _ (λ s, inside path s.1 s.2
                           ∧ dots_done (str s.1 path) (s.2 - path))).
  intros [b pos] [b' pos'] [Hi Hd] Hb. simpl in *.
  destruct (resolve_dots_step path _ _ _ _ Hi Hb) as (_ & H2 & _).
  destruct (resolve_dots_shape path _ _ _ _ Hi Hb)
    as (q & Hq & _ & Hs & Hmin & _ & Hc & _).
  split; [done|]. by apply (dots_keep (str b path) (pos - path) q).
Qed.

(** The string that [normalize_path] leaves is [normal]. *)
Lemma normalize_path_is_normal b : normal (str (normalize_path b path) path).
Proof.
  unfold normalize_path, normalize_fuel. set (n := S (length b)).
  pose proof (strlen_max b path) as Hb.
  pose proof (strip_leading_shrunk path n b) as (H1 & _ & _).
  pose proof (strip_leading_exit path n b ltac:(lia)) as E1.
  set (b1 := while n (strip_leading_body path) b) in *.
  apply strip_leading_none in E1 as [Hh _].
  pose proof (collapse_slashes_good path n b1 (b1, path)) as G2.
  pose proof (collapse_slashes_done n (b1, path)) as D2.
  pose proof (collapse_slashes_exit path n (b1, path) (inside_start _ _)) as E2.
  destruct (while n collapse_slashes_body (b1, path)) as [b2 p2].
  destruct G2 as [(G2 & _ & _) _];
    [split; [apply shrunk_refl|apply inside_start]|].
  destruct D2 as [I2 [Hh2 D2]].
  { split; [apply inside_start|]. split; [done|]. simpl. intros k Hk. lia. }
  simpl in G2, I2, Hh2, D2.
  specialize (E2 ltac:(simpl; pose proof (strlen_max b1 path); lia)).
  apply collapse_slashes_none in E2.
  assert (∀ k, starts_with (bytes "//") (drop k (str b2 path)) = false) as Hd.
  { intros k. destruct (decide (k < p2 - path)); [by apply D2|].
    apply (strstr_none path b2 p2); [done|done|lia]. }
  pose proof (resolve_dots_done n (b2, path)) as D3.
  pose proof (resolve_dots_exit path n (b2, path) (inside_start _ _)) as E3.
  destruct (while n (resolve_dots_body path) (b2, path)) as [b3 p3].
  destruct D3 as [I3 (Hh3 & Hd3 & D3)].
  { split; [apply inside_start|]. split; [done|]. split; [done|].
    simpl. intros k Hk. lia. }
  simpl in I3, Hh3, Hd3, D3.
  specialize (E3 ltac:(simpl; pose proof (strlen_max b2 path); lia)).
  apply resolve_dots_none in E3. simpl.
  split; [done|]. split; [done|]. intros k.
  destruct (decide (k < p3 - path)); [by apply D3|].
  apply dot_segment_starts. apply (strstr_none path b3 p3); [done|done|lia].
Qed.

End NormalForm.

(** ** Strings that normalize_path leaves alone *)

Section Fixed.
Variable path : nat.
Implicit Types b : list ascii.

Lemma find_sub_none_intro needle l i :
  (∀ k, k < length l → starts_with needle (drop k l) = false) →
  find_sub needle l i = None.
Proof.
  revert i. induction l as [|x l IH]; intros i H; [done|].
  cbn [find_sub]. pose proof (H 0 ltac:(simpl; lia)) as H0.
  rewrite drop_0 in H0. rewrite H0. apply IH.
  intros k Hk. apply (H (S k)). simpl. lia.
Qed.

Lemma strip_leading_none_intro b :
  head (str b path) ≠ Some "/"%char →
  starts_with (bytes "./") (str b path) = false →
  strip_leading_body path b = None.
Proof.
  intros Hh Hs. unfold strip_leading_body.
  change (bytes "./") with ["."%char; "/"%char] in Hs.
  destruct (Ascii.eqb_spec (rd b path) "/"%char) as [E|E].
  { rewrite (str_cons b path) in Hh by (by rewrite E).
    rewrite E in Hh. by destruct Hh. }
  cbn [orb]. destruct (Ascii.eqb_spec (rd b path) "."%char) as [E1|E1]; [|done].
  cbn [andb].
  destruct (Ascii.eqb_spec (rd b (path + 1)) "/"%char) as [E2|E2]; [|done].
  replace (path + 1) with (S path) in E2 by lia.
  rewrite (str_cons b path), (str_cons b (S path)) in Hs
    by (rewrite ?E1, ?E2; done).
  rewrite E1, E2, !starts_with_cons, !Ascii.eqb_refl in Hs. done.
Qed.

(** On a [normal] string that does not begin with [./] no loop finds
    anything to change. *)
Lemma normalize_path_fixed b :
  normal (str b path) → starts_with (bytes "./") (str b path) = false →
  str (normalize_path b path) path = str b path.
Proof.
  intros (Hh & Hd & Hseg) Hs. unfold normalize_path, normalize_fuel.
  set (n := S (length b)).
  rewrite (while_stop (strip_leading_body path))
    by (by apply strip_leading_none_intro).
  rewrite (while_stop collapse_slashes_body).
  2:{ unfold collapse_slashes_body, strstr.
      rewrite find_sub_none_intro; [done|]. intros k _. apply Hd. }
  pose proof (while_inv (resolve_dots_body path)
                (λ s, inside path s.1 s.2 ∧ str s.1 path = str b path)) as Hw.
  destruct (Hw) with (n := n) (s := (b, path)) as [_ H];
    [|split; [apply inside_start|done]|done].
  intros [c pos] [c' pos'] [Hi Hc] Hb. simpl in *.
  destruct (resolve_dots_step path _ _ _ _ Hi Hb) as (_ & H2 & _).
  destruct (resolve_dots_shape path _ _ _ _ Hi Hb)
    as (q & _ & _ & Hq & _ & _ & Hcase & _).
  split; [done|]. rewrite Hc in Hq, Hcase.
  assert (dot_segment (drop q (str b path)) = true → False) as Hno
    by (by rewrite Hseg).
  destruct Hcase as [He|sl Hds|Hds|Hds]; [|by destruct Hno..|done].
  destruct Hno. unfold dot_segment. by rewrite Hq, drop_drop, He.
Qed.

End Fixed.

Section Twice.
Implicit Types b p : list ascii.

Lemma normal_normalize p : normal (normalize p).
Proof. apply normalize_path_is_normal. Qed.

Lemma normalize_nonul p : NUL ∉ normalize p.
Proof. apply str_nonul. Qed.

Lemma normalize_normal p :
  NUL ∉ p → normal p → starts_with (bytes "./") p = false → normalize p = p.
Proof.
  intros Hn Hp Hs. unfold normalize.
  assert (str (p ++ [NUL]) 0 = p) as E by (by apply str_fragment).
  rewrite normalize_path_fixed by (by rewrite E). done.
Qed.

(** A string that begins with [./] gets shorter. *)
Lemma normalize_strips p :
  NUL ∉ p → starts_with (bytes "./") p = true →
  length (normalize p) < length p.
Proof.
  intros Hn Hs. unfold normalize, normalize_path, normalize_fuel.
  set (b := p ++ [NUL]). set (n := length b).
  assert (str b 0 = p) as E by (by apply str_fragment).
  destruct (strip_leading_body 0 b) as [b'|] eqn:Eb.
  2:{ apply (strip_leading_none 0) in Eb as [_ Eb]. rewrite E in Eb.
      congruence. }
  rewrite (while_step _ _ _ _ Eb).
  apply (strip_leading_step 0) in Eb as [_ Hlt].
  pose proof (strip_leading_shrunk 0 n b') as (_ & _ & H1).
  set (b1 := while n (strip_leading_body 0) b') in *.
  pose proof (collapse_slashes_good 0 (S n) b1 (b1, 0)) as H2.
  destruct (while (S n) collapse_slashes_body (b1, 0)) as [b2 p2].
  destruct H2 as [(_ & _ & H2) _];
    [split; [apply shrunk_refl|apply inside_start]|].
  pose proof (resolve_dots_good 0 (S n) b2 (b2, 0)) as H3.
  destruct H3 as [(_ & _ & H3) _];
    [split; [apply shrunk_refl|apply inside_start]|].
  cbn [fst] in H2, H3. unfold strlen in *. rewrite E in Hlt. lia.
Qed.

End Twice.

(** X3.  The string that [normalize_path] leaves at [path] does not begin
    with a separator and holds no [//], no segment [/./] or [/../], and
    no [/.] or [/..] at its end.  ([normal] says the same by
    positions.)  A [./] or a [..] in front may stay. *)
Theorem normalize_path_normal b path l1 l2 :
  let r := str (normalize_path b path) path in
  normal r
  ∧ head r ≠ Some "/"%char
  ∧ r ≠ l1 ++ bytes "//" ++ l2
  ∧ r ≠ l1 ++ bytes "/./" ++ l2 ∧ r ≠ l1 ++ bytes "/../" ++ l2
  ∧ r ≠ l1 ++ bytes "/." ∧ r ≠ l1 ++ bytes "/..".
Proof.
  intros r. pose proof (normalize_path_is_normal path b) as Hn. fold r in Hn.
  split; [done|]. destruct Hn as (Hh & Hd & Hs). split; [done|].
  assert (∀ t, r = l1 ++ t → drop (length l1) r = t) as Hdrop.
  { intros t ->. by rewrite drop_app_length. }
  split; [|split; [|split; [|split]]]; intros E; apply Hdrop in E.
  - specialize (Hd (length l1)). by rewrite E in Hd.
  - specialize (Hs (length l1)). by rewrite E in Hs.
  - specialize (Hs (length l1)). by rewrite E in Hs.
  - specialize (Hs (length l1)). by rewrite E in Hs.
  - specialize (Hs (length l1)). by rewrite E in Hs.
Qed.

(** X4.  A fragment that is [normal] and does not begin with [./] is left as
    it is: single separators between names stay, and so do names that
    begin with a dot, a [..] in front and a separator at the end. *)
Theorem normalize_normal_fixed p :
  NUL ∉ p → normal p → starts_with (bytes "./") p = false →
  normalize p = p
  ∧ ∀ b path, str b path = p → str (normalize_path b path) path = p.
Proof.
  intros Hn Hp Hs. split; [by apply normalize_normal|].
  intros b path <-. by apply normalize_path_fixed.
Qed.

(** X5.  Normalising twice gives what normalising once gives exactly when
    the first result does not begin with [./]: the first loop is the
    only one whose work a later loop can call for again. *)
Theorem normalize_twice p :
  normalize (normalize p) = normalize p
  ↔ starts_with (bytes "./") (normalize p) = false.
Proof.
  split.
  - intros E. destruct (starts_with _ _) eqn:Es; [|done].
    pose proof (normalize_strips (normalize p) (normalize_nonul p) Es) as H.
    rewrite E in H. lia.
  - intros Hs. apply normalize_normal;
      [apply normalize_nonul|apply normal_normalize|done].
Qed.

Lemma normalize_normal_fixed_witness :
  (NUL ∉ bytes "../.a/b/") ∧ normal (bytes "../.a/b/")
  ∧ starts_with (bytes "./") (bytes "../.a/b/") = false
  ∧ normalize (bytes "../.a/b/") = bytes "../.a/b/".
Proof.
  assert (NUL ∉ bytes "../.a/b/") as Hn
    by (apply (bool_decide_unpack _); by vm_compute).
  assert (normal (bytes "../.a/b/")) as Hp.
  { split; [done|].
    split; intros k; do 9 (destruct k as [|k]; [reflexivity|]); reflexivity. }
  split; [done|]. split; [done|]. split; [done|].
  destruct (normalize_normal_fixed (bytes "../.a/b/") Hn Hp eq_refl)
    as [H _].
  exact H.
Defined.

(** ** The resolver, case by case *)

Section ResolverCases.
Implicit Types vfs : vfs_t.
Implicit Types b l : list ascii.

(** A resolve that returns its buffer passed the capacity check. *)
Lemma abspath__ptr_fits vfs buffer n path lim :
  (abspath_ vfs buffer n path lim).2 = Ptr →
  cwdlen vfs + strlen path 0 + 1 ≤ n.
Proof.
  intros H. destruct (decide (cwdlen vfs + strlen path 0 + 1 ≤ n)); [done|].
  assert ((abspath_ vfs buffer n path lim).2 = Null PathTooLong) as E
    by (apply abspath__too_long; lia).
  by rewrite H in E.
Qed.

(** Under the cwd, an absolute path that is resolved does not escape. *)
Lemma abspath__ptr_inside vfs buffer path :
  wf vfs → buffer = file1 vfs ∨ buffer = file2 vfs →
  rd path 0 = "/"%char →
  (abspath_ vfs buffer (length buffer) path true).2 = Ptr →
  ¬ escapes vfs (str path 0).
Proof.
  intros Hwf Hbuf Habs H He.
  apply (escape_check vfs buffer path Hwf Hbuf) in He. cbv zeta in He.
  unfold abspath_ in H. cbv zeta in H. rewrite Habs in H.
  destruct (_ <? _); [done|]. simpl in H. by rewrite He in H.
Qed.

(** Whatever the mode, a resolved path is the root followed by at most
    the rest of the cwd and the client's path. *)
Lemma abspath__resolved_root vfs buffer path lim :
  wf vfs → buffer = file1 vfs ∨ buffer = file2 vfs →
  (abspath_ vfs buffer (length buffer) path lim).2 = Ptr →
  ∃ t, resolved (abspath_ vfs buffer (length buffer) path lim)
       = Some (root_of vfs ++ t)
       ∧ length t ≤ cwdlen vfs - rootlen vfs + strlen path 0.
Proof.
  intros Hwf Hbuf Hp. pose proof (abspath__ptr_fits _ _ _ _ _ Hp) as Hfit.
  pose proof (wf_root _ Hwf) as Hr.
  pose proof (length_root_of _ Hwf) as Hlr.
  pose proof (length_cwd_of _ Hwf) as Hlc.
  pose proof (take_root_cwd _ Hwf) as Htr.
  assert (cwd_of vfs = root_of vfs ++ drop (rootlen vfs) (cwd_of vfs)) as Hc.
  { by rewrite <-Htr, take_drop. }
  destruct (Ascii.eqb_spec (rd path 0) "/"%char) as [Habs|Hrel].
  - destruct lim.
    + pose proof (abspath__ptr_inside vfs buffer path Hwf Hbuf Habs Hp) as Hin.
      rewrite (abspath__absolute_cwd vfs buffer path) by done.
      destruct (decide _) as [E|E].
      * exists (drop (rootlen vfs) (take (cwdlen vfs - 1) (cwd_of vfs))).
        split.
        -- do 2 f_equal. rewrite <-Htr at 1.
           replace (rootlen vfs) with (min (rootlen vfs) (cwdlen vfs - 1)) at 1.
           2:{ assert (1 ≤ strlen path 0); [|lia].
               apply (strlen_extend path 0 0); [lia|]. simpl. by rewrite Habs. }
           rewrite <-take_take. by rewrite take_drop.
        -- rewrite length_drop, length_take. lia.
      * eexists. split.
        -- rewrite Hc at 1. by rewrite <-app_assoc.
        -- rewrite length_app, length_drop, Hlc.
           pose proof (normalize_shorter
             (drop (cwdlen vfs - rootlen vfs + 1) (str path 0))) as Hn.
           rewrite length_drop in Hn. unfold strlen. lia.
    + rewrite (abspath__absolute_root vfs buffer path) by done.
      eexists. split; [done|].
      pose proof (normalize_shorter (drop 1 (str path 0))) as Hn.
      rewrite length_drop in Hn. unfold strlen. lia.
  - rewrite (abspath__relative vfs buffer path lim) by done.
    destruct lim.
    + eexists. split.
      * rewrite Hc at 1. by rewrite <-app_assoc.
      * rewrite length_app, length_drop, Hlc.
        pose proof (normalize_shorter (str path 0)) as Hn.
        unfold strlen. lia.
    + eexists. split; [done|].
      pose proof (normalize_shorter
        (drop (rootlen vfs) (cwd_of vfs) ++ str path 0)) as Hn.
      rewrite length_app, length_drop, Hlc in Hn. unfold strlen. lia.
Qed.

End ResolverCases.

Section ResolverResults.
Implicit Types vfs : vfs_t.
Implicit Types b l : list ascii.

Lemma resolved_Some (r : list ascii * ptr) p :
  resolved r = Some p ↔ r.2 = Ptr ∧ str r.1 0 = p.
Proof.
  unfold resolved. destruct r as [b [|w]]; simpl.
  - split; [by intros [= <-]|by intros [_ <-]].
  - split; [done|by intros [? _]].
Qed.

Lemma abspath_unfold vfs path :
  (abspath vfs path).2
  = (abspath_ vfs (file1 vfs) (length (file1 vfs)) path true).2
  ∧ file1 (abspath vfs path).1
    = (abspath_ vfs (file1 vfs) (length (file1 vfs)) path true).1
  ∧ file2 (abspath vfs path).1 = file2 vfs
  ∧ rootlen (abspath vfs path).1 = rootlen vfs
  ∧ cwdlen (abspath vfs path).1 = cwdlen vfs.
Proof. unfold abspath. by destruct (abspath_ _ _ _ _ _). Qed.

Lemma abspath2_unfold vfs path :
  (abspath2 vfs path).2
  = (abspath_ vfs (file2 vfs) (length (file2 vfs)) path true).2
  ∧ file2 (abspath2 vfs path).1
    = (abspath_ vfs (file2 vfs) (length (file2 vfs)) path true).1
  ∧ file1 (abspath2 vfs path).1 = file1 vfs
  ∧ rootlen (abspath2 vfs path).1 = rootlen vfs
  ∧ cwdlen (abspath2 vfs path).1 = cwdlen vfs.
Proof. unfold abspath2. by destruct (abspath_ _ _ _ _ _). Qed.

End ResolverResults.

(** X6.  A path that is resolved, in either mode and into either buffer, is a
    string that ends inside the buffer: it is not shorter than the root,
    not longer than the cwd and the client's path together, and its
    terminator is a byte of the array.  It begins with the root. *)
Theorem abspath_terminated vfs buffer path lim b' :
  wf vfs → buffer = file1 vfs ∨ buffer = file2 vfs →
  abspath_ vfs buffer (length buffer) path lim = (b', Ptr) →
  length b' = length buffer
  ∧ rootlen vfs ≤ strlen b' 0 ≤ cwdlen vfs + strlen path 0
  ∧ strlen b' 0 < length b'
  ∧ root_of vfs `prefix_of` str b' 0.
Proof.
  intros Hwf Hbuf H.
  pose proof (abspath__length vfs buffer (length buffer) path lim) as Hl.
  assert ((abspath_ vfs buffer (length buffer) path lim).2 = Ptr) as Hp
    by (by rewrite H).
  pose proof (abspath__ptr_fits _ _ _ _ _ Hp) as Hfit.
  destruct (abspath__resolved_root vfs buffer path lim Hwf Hbuf Hp)
    as (t & Ht & Hlt).
  apply resolved_Some in Ht as [_ Ht]. rewrite H in Hl, Ht. simpl in Hl, Ht.
  pose proof (wf_root _ Hwf) as Hr.
  pose proof (length_root_of _ Hwf) as Hlr.
  assert (strlen b' 0 = rootlen vfs + length t) as Hs.
  { unfold strlen. by rewrite Ht, length_app, Hlr. }
  split; [done|]. split; [lia|]. split; [lia|].
  rewrite Ht. by apply prefix_app_r.
Qed.

Lemma abspath_terminated_witness :
  wf ex_sub
  ∧ abspath_ ex_sub (file1 ex_sub) (length (file1 ex_sub)) (bytes "a/../b")
      false
    = ((abspath_ ex_sub (file1 ex_sub) (length (file1 ex_sub))
          (bytes "a/../b") false).1, Ptr)
  ∧ strlen (abspath_ ex_sub (file1 ex_sub) (length (file1 ex_sub))
              (bytes "a/../b") false).1 0 < 256.
Proof.
  split; [apply ex_sub_wf|]. split; [reflexivity|].
  pose proof (abspath_terminated ex_sub (file1 ex_sub) (bytes "a/../b") false
                (abspath_ ex_sub (file1 ex_sub) (length (file1 ex_sub))
                   (bytes "a/../b") false).1
                ex_sub_wf (or_introl eq_refl) eq_refl) as (Hl & _ & H & _).
  rewrite Hl in H. exact H.
Defined.

(** X7.  A relative path that passes the capacity check is resolved by
    [abspath] and [abspath2] to the cwd followed by the normalised
    path, each in its own buffer. *)
Theorem abspath_relative vfs path :
  wf vfs → rd path 0 ≠ "/"%char →
  cwdlen vfs + strlen path 0 + 1 ≤ length (file1 vfs) →
  ((abspath vfs path).2 = Ptr
   ∧ str (file1 (abspath vfs path).1) 0
     = cwd_of vfs ++ normalize (str path 0))
  ∧ ((abspath2 vfs path).2 = Ptr
     ∧ str (file2 (abspath2 vfs path).1) 0
       = cwd_of vfs ++ normalize (str path 0)).
Proof.
  intros Hwf Hrel Hfit.
  destruct (abspath_unfold vfs path) as (-> & -> & _).
  destruct (abspath2_unfold vfs path) as (-> & -> & _).
  split; apply resolved_Some.
  - by rewrite (abspath__relative vfs (file1 vfs) path true Hwf
                  (or_introl eq_refl) Hrel Hfit).
  - rewrite (abspath__relative vfs (file2 vfs) path true Hwf
               (or_intror eq_refl) Hrel); [done|].
    rewrite <-(wf_size _ Hwf). done.
Qed.

Lemma abspath_relative_witness :
  wf ex_sub ∧ rd (bytes "a//b/./c") 0 ≠ "/"%char
  ∧ cwdlen ex_sub + strlen (bytes "a//b/./c") 0 + 1 ≤ length (file1 ex_sub)
  ∧ str (file1 (abspath ex_sub (bytes "a//b/./c")).1) 0
    = bytes "/sdcard/sub/a/b/c".
Proof.
  assert (rd (bytes "a//b/./c") 0 ≠ "/"%char) as Hrel by done.
  assert (cwdlen ex_sub + strlen (bytes "a//b/./c") 0 + 1
          ≤ length (file1 ex_sub)) as Hfit by (vm_compute; lia).
  split; [apply ex_sub_wf|]. split; [done|]. split; [done|].
  destruct (abspath_relative ex_sub (bytes "a//b/./c") ex_sub_wf Hrel Hfit)
    as [[_ H] _].
  rewrite H. reflexivity.
Defined.

(** X8.  An absolute path that names the cwd or something below it, that is
    the part of the cwd beyond the root followed by nothing or by [/]
    and more, and that passes the capacity check, is resolved under the
    cwd: to the cwd without its final separator when nothing follows,
    else to the cwd followed by the normalised rest. *)
Theorem abspath_absolute vfs path rest :
  wf vfs → rd path 0 = "/"%char →
  str path 0 = cwd_rel vfs ++ rest → rest = [] ∨ head rest = Some "/"%char →
  cwdlen vfs + strlen path 0 + 1 ≤ length (file1 vfs) →
  (abspath vfs path).2 = Ptr
  ∧ str (file1 (abspath vfs path).1) 0
    = match rest with
      | [] => take (cwdlen vfs - 1) (cwd_of vfs)
      | _ :: rest' => cwd_of vfs ++ normalize rest'
      end.
Proof.
  intros Hwf Habs Hp Hrest Hfit.
  pose proof (length_cwd_rel _ Hwf) as Hd.
  destruct (abspath_unfold vfs path) as (-> & -> & _).
  apply resolved_Some.
  rewrite (abspath__absolute_cwd vfs (file1 vfs) path Hwf
             (or_introl eq_refl) Habs Hfit).
  - f_equal. unfold strlen. rewrite Hp, length_app, Hd.
    destruct rest as [|x rest'].
    + rewrite decide_True by (simpl; lia). done.
    + rewrite decide_False by (simpl; lia).
      rewrite drop_app_ge by lia. rewrite Hd.
      replace (cwdlen vfs - rootlen vfs + 1 - (cwdlen vfs - rootlen vfs))
        with 1 by lia. done.
  - unfold escapes. rewrite Hp. intros [H|[H1 H2]].
    + destruct H. by apply prefix_app_r.
    + rewrite app_nth2 in H1, H2 by lia. rewrite Nat.sub_diag in H1, H2.
      destruct Hrest as [->|Hh]; [done|].
      destruct rest as [|x rest']; [done|]. injection Hh as ->. done.
Qed.

Lemma abspath_absolute_witness :
  wf ex_sub ∧ rd (bytes "/sub/a/./b") 0 = "/"%char
  ∧ str (bytes "/sub/a/./b") 0 = cwd_rel ex_sub ++ bytes "/a/./b"
  ∧ cwdlen ex_sub + strlen (bytes "/sub/a/./b") 0 + 1 ≤ length (file1 ex_sub)
  ∧ str (file1 (abspath ex_sub (bytes "/sub/a/./b")).1) 0
    = bytes "/sdcard/sub/a/b".
Proof.
  assert (cwdlen ex_sub + strlen (bytes "/sub/a/./b") 0 + 1
          ≤ length (file1 ex_sub)) as Hfit by (vm_compute; lia).
  split; [apply ex_sub_wf|]. split; [reflexivity|]. split; [reflexivity|].
  split; [done|].
  destruct (abspath_absolute ex_sub (bytes "/sub/a/./b") (bytes "/a/./b")
              ex_sub_wf eq_refl eq_refl (or_intror eq_refl) Hfit) as [_ H].
  rewrite H. reflexivity.
Defined.

(** X9.  Without [limit_to_cwd], as [vfs_chdir] resolves, a path that passes
    the capacity check is always resolved, to the root followed by the
    normalised [chdir_target]: an absolute path is normalised without
    its first separator, a relative path behind the rest of the cwd,
    whose segments a [..] of the path can so take away. *)
Theorem abspath_root_mode vfs path :
  wf vfs → cwdlen vfs + strlen path 0 + 1 ≤ length (file1 vfs) →
  let r := abspath_ vfs (file1 vfs) (length (file1 vfs)) path false in
  r.2 = Ptr ∧ str r.1 0 = root_of vfs ++ chdir_target vfs path.
Proof.
  intros Hwf Hfit r. apply resolved_Some. unfold r, chdir_target.
  destruct (Ascii.eqb_spec (rd path 0) "/"%char) as [Habs|Hrel].
  - by apply abspath__absolute_root; [|left|..].
  - by rewrite abspath__relative; [|done|left|..].
Qed.

Lemma abspath_root_mode_witness :
  wf ex_sub
  ∧ cwdlen ex_sub + strlen (bytes "../../../x") 0 + 1 ≤ length (file1 ex_sub)
  ∧ str (abspath_ ex_sub (file1 ex_sub) (length (file1 ex_sub))
           (bytes "../../../x") false).1 0
    = bytes "/sdcard/x".
Proof.
  assert (cwdlen ex_sub + strlen (bytes "../../../x") 0 + 1
          ≤ length (file1 ex_sub)) as Hfit by (vm_compute; lia).
  split; [apply ex_sub_wf|]. split; [done|].
  destruct (abspath_root_mode ex_sub (bytes "../../../x") ex_sub_wf Hfit)
    as [_ H].
  rewrite H. reflexivity.
Defined.

(** ** vfs_getcwd and vfs_openfs *)

Section SessionValues.
Implicit Types vfs : vfs_t.
Implicit Types b l : list ascii.

Lemma cstr_nonul_id l : NUL ∉ l → cstr l = l.
Proof.
  intros H. rewrite <-(app_nil_r l) at 1. rewrite cstr_app_nonul by done.
  simpl. apply app_nil_r.
Qed.

(** The cwd is the root, then the rest of the cwd. *)
Lemma cwd_of_split vfs :
  wf vfs →
  cwd_of vfs
  = take (rootlen vfs - 1) (root_of vfs)
    ++ drop (rootlen vfs - 1) (take (cwdlen vfs - 1) (file2 vfs))
    ++ ["/"%char].
Proof.
  intros Hwf. pose proof (wf_root _ Hwf) as Hr. unfold cwd_of, root_of.
  rewrite app_assoc. f_equal.
  replace (take (rootlen vfs - 1) (take (rootlen vfs) (file2 vfs)))
    with (take (rootlen vfs - 1) (take (cwdlen vfs - 1) (file2 vfs)))
    by (rewrite !take_take; f_equal; lia).
  by rewrite take_drop.
Qed.

End SessionValues.

Lemma getcwd__value vfs :
  wf vfs →
  (vfs_getcwd vfs).2
  = (if rootlen vfs <? cwdlen vfs then cwd_rel vfs else bytes "/").
Proof.
  intros Hwf. pose proof (wf_root _ Hwf) as Hr.
  pose proof (wf_cap _ Hwf) as Hc. pose proof (wf_size _ Hwf) as Hs.
  rewrite getcwd_result by done. unfold getcwd_cut, cwd_rel.
  destruct (Nat.ltb_spec (rootlen vfs) (cwdlen vfs)) as [Hlt|Hge].
  - rewrite (wf_same _ Hwf). apply cstr_nonul_id.
    intros Hin. apply (wf_nonul2 _ Hwf).
    by apply (subseteq_drop _ _ _ Hin).
  - replace (cwdlen vfs) with (S (rootlen vfs - 1)) by lia.
    rewrite take_S_rd by lia. rewrite (wf_rootsep1 _ Hwf).
    rewrite drop_app_length' by (rewrite length_take; lia). done.
Qed.

(** X10.  What [vfs_getcwd] returns: the cwd as the client sees it, from the
    separator that ends the root, without the final separator; at the
    root, [/].  It begins with [/], and the cwd is the root without its
    separator, then this string, then, below the root, a separator. *)
Theorem getcwd_value vfs :
  wf vfs →
  (vfs_getcwd vfs).2
  = (if rootlen vfs <? cwdlen vfs then cwd_rel vfs else bytes "/")
  ∧ head (vfs_getcwd vfs).2 = Some "/"%char
  ∧ take (rootlen vfs - 1) (root_of vfs) ++ (vfs_getcwd vfs).2
      ++ (if rootlen vfs <? cwdlen vfs then ["/"%char] else [])
    = cwd_of vfs.
Proof.
  intros Hwf. pose proof (wf_root _ Hwf) as Hr.
  pose proof (wf_cap _ Hwf) as Hc. pose proof (wf_size _ Hwf) as Hs.
  rewrite (getcwd__value _ Hwf). split; [done|].
  destruct (Nat.ltb_spec (rootlen vfs) (cwdlen vfs)) as [Hlt|Hge].
  - split; [|by rewrite (cwd_of_split _ Hwf)].
    unfold cwd_rel.
    rewrite (drop_S _ "/"%char (rootlen vfs - 1)); [done|].
    rewrite lookup_take_lt by lia. rewrite lookup_rd by lia.
    by rewrite (wf_rootsep2 _ Hwf).
  - split; [done|]. rewrite (cwd_of_split _ Hwf).
    rewrite drop_ge by (rewrite length_take; lia). done.
Qed.

Lemma getcwd_value_witness :
  wf ex_sub ∧ (vfs_getcwd ex_sub).2 = bytes "/sub"
  ∧ head (vfs_getcwd ex_sub).2 = Some "/"%char.
Proof.
  split; [apply ex_sub_wf|]. split; [reflexivity|].
  apply (getcwd_value ex_sub ex_sub_wf).
Defined.

(** X11.  A session that [vfs_openfs] opens stands at the root [/sdcard/]:
    both buffers hold that string, both lengths are 8, and [vfs_getcwd]
    returns [/], whatever the allocated memory held; the memory past the
    string is as it was. *)
Theorem openfs_fresh m1 m2 vfs :
  length m1 = length m2 → length VFS_ROOT < length m1 →
  vfs_openfs (Some (m1, m2)) = Some vfs →
  str (file1 vfs) 0 = VFS_ROOT ∧ str (file2 vfs) 0 = VFS_ROOT
  ∧ rootlen vfs = 8 ∧ cwdlen vfs = 8
  ∧ root_of vfs = VFS_ROOT ∧ cwd_of vfs = VFS_ROOT
  ∧ (vfs_getcwd vfs).2 = bytes "/"
  ∧ drop 9 (file1 vfs) = drop 9 m1 ∧ drop 9 (file2 vfs) = drop 9 m2.
Proof.
  intros Hlen Hroom Hop.
  pose proof (wf_open m1 m2 vfs Hlen Hroom Hop) as Hwf.
  injection Hop as <-. simpl in Hroom.
  assert (∀ m, 8 < length m →
               take 9 (strcpy m VFS_ROOT) = VFS_ROOT ++ [NUL]) as Ht.
  { intros m Hm. apply (take_splice_0 m (VFS_ROOT ++ [NUL])). simpl. lia. }
  assert (∀ m, 8 < length m → str (strcpy m VFS_ROOT) 0 = VFS_ROOT) as Hs.
  { intros m Hm. unfold strcpy. apply (str_splice m 0 VFS_ROOT).
    - apply (bool_decide_unpack _). by vm_compute.
    - simpl. lia. }
  assert (∀ m, 8 < length m → drop 9 (strcpy m VFS_ROOT) = drop 9 m) as Hd.
  { intros m Hm. unfold strcpy, splice. rewrite take_0. cbn [app].
    rewrite take_ge by (rewrite length_app, length_drop; simpl; lia).
    by rewrite (drop_app_length' _ _ 9). }
  assert (root_of (Vfs (strcpy m1 VFS_ROOT) (strcpy m2 VFS_ROOT) 8 8)
          = VFS_ROOT) as Hroot.
  { unfold root_of. simpl.
    replace 8 with (min 8 9) by done. rewrite <-take_take, Ht by lia. done. }
  assert (cwd_of (Vfs (strcpy m1 VFS_ROOT) (strcpy m2 VFS_ROOT) 8 8)
          = VFS_ROOT) as Hcwd.
  { unfold cwd_of. simpl.
    replace 7 with (min 7 9) by done. rewrite <-take_take, Ht by lia. done. }
  split; [apply Hs; lia|]. split; [apply Hs; lia|].
  split; [done|]. split; [done|]. split; [done|]. split; [done|].
  split; [|split; apply Hd; lia].
  apply (getcwd__value _ Hwf).
Qed.

Lemma openfs_fresh_witness :
  length ex_mem = length ex_mem ∧ length VFS_ROOT < length ex_mem
  ∧ vfs_openfs (Some (ex_mem, ex_mem)) = Some ex_root
  ∧ cwd_of ex_root = VFS_ROOT ∧ (vfs_getcwd ex_root).2 = bytes "/".
Proof.
  assert (length VFS_ROOT < length ex_mem) as Hroom by (vm_compute; lia).
  split; [done|]. split; [done|]. split; [done|].
  destruct (openfs_fresh ex_mem ex_mem ex_root eq_refl Hroom eq_refl)
    as (_ & _ & _ & _ & _ & H1 & H2 & _).
  by split.
Defined.

(** ** What the delegate is handed *)

Section Delegates.
Implicit Types vfs : vfs_t.
Implicit Types b l p : list ascii.

(** What a resolve under the cwd hands to its caller. *)
Lemma abspath__confined vfs buffer path :
  wf vfs → buffer = file1 vfs ∨ buffer = file2 vfs →
  (abspath_ vfs buffer (length buffer) path true).2 = Ptr →
  confined vfs (str (abspath_ vfs buffer (length buffer) path true).1 0).
Proof.
  intros Hwf Hbuf Hp.
  pose proof (abspath__ptr_fits _ _ _ _ _ Hp) as Hfit.
  destruct (abspath__resolved_root vfs buffer path true Hwf Hbuf Hp)
    as (t & Ht & Hlt).
  apply resolved_Some in Ht as [_ He].
  pose proof (wf_root _ Hwf) as Hr.
  pose proof (length_root_of _ Hwf) as Hlr.
  assert (length buffer = length (file1 vfs)) as Hl.
  { destruct Hbuf as [->| ->]; [done|]. symmetry. apply (wf_size _ Hwf). }
  split; [rewrite He; by apply prefix_app_r|].
  split; [apply str_nonul|]. rewrite He, length_app, Hlr. lia.
Qed.


Lemma abspath2_confined_path vfs path :
  wf vfs → (abspath2 vfs path).2 = Ptr →
  confined vfs (str (file2 (abspath2 vfs path).1) 0).
Proof.
  intros Hwf Hp. destruct (abspath2_unfold vfs path) as (E2 & E1 & _).
  rewrite E2 in Hp. rewrite E1. by apply abspath__confined; [|right|].
Qed.


End Delegates.



(** X13.  When both paths of [vfs_rename] are resolved, each is resolved
    against the session as it was before the call, the source in
    [file1] and the destination in [file2], neither disturbing the
    other.  The delegate is called once on the two strings, which both
    begin with the root, and [vfs_rename] returns [1] when the
    delegate's [rename] does not return [0], else [0]. *)
Theorem rename_confined fs vfs from to p q :
  wf vfs →
  resolved (abspath_ vfs (file1 vfs) (length (file1 vfs)) from true) = Some p →
  resolved (abspath_ vfs (file2 vfs) (length (file2 vfs)) to true) = Some q →
  let r := vfs_rename fs vfs from to in
  r.2 = [CallRename p q]
  ∧ r.1.2 = (if Z.eqb (fs_rename fs p q) 0 then 0%Z else 1%Z)
  ∧ str (file1 r.1.1) 0 = p ∧ str (file2 r.1.1) 0 = q
  ∧ rootlen r.1.1 = rootlen vfs ∧ cwdlen r.1.1 = cwdlen vfs
  ∧ confined vfs p ∧ confined vfs q.
Proof.
  intros Hwf [Hp1 Hp]%resolved_Some [Hq1 Hq]%resolved_Some r.
  pose proof (abspath__confined vfs (file1 vfs) from Hwf (or_introl eq_refl)
                Hp1) as Hcp.
  pose proof (abspath__confined vfs (file2 vfs) to Hwf (or_intror eq_refl)
                Hq1) as Hcq.
  rewrite Hp in Hcp. rewrite Hq in Hcq.
  unfold r, vfs_rename, abspath, abspath2.
  destruct (abspath_ vfs (file1 vfs) (length (file1 vfs)) from true)
    as [b1 r1]. simpl in Hp1, Hp. subst r1.
  cbn [set_file1 file2 file1 rootlen cwdlen].
  rewrite (abspath__lens vfs (Vfs b1 (file2 vfs) (rootlen vfs) (cwdlen vfs)))
    by done.
  destruct (abspath_ vfs (file2 vfs) (length (file2 vfs)) to true)
    as [b2 r2]. simpl in Hq1, Hq. subst r2.
  simpl. rewrite Hp, Hq.
  split; [done|]. split; [by destruct (Z.eqb _ _)|]. done.
Qed.

Lemma rename_confined_witness :
  wf ex_sub
  ∧ resolved (abspath_ ex_sub (file1 ex_sub) (length (file1 ex_sub))
                (bytes "a") true) = Some (bytes "/sdcard/sub/a")
  ∧ resolved (abspath_ ex_sub (file2 ex_sub) (length (file2 ex_sub))
                (bytes "/sub/b") true) = Some (bytes "/sdcard/sub/b")
  ∧ (vfs_rename ex_fs ex_sub (bytes "a") (bytes "/sub/b")).2
    = [CallRename (bytes "/sdcard/sub/a") (bytes "/sdcard/sub/b")].
Proof.
  split; [apply ex_sub_wf|]. split; [reflexivity|]. split; [reflexivity|].
  apply (rename_confined ex_fs ex_sub (bytes "a") (bytes "/sub/b")
           (bytes "/sdcard/sub/a") (bytes "/sdcard/sub/b") ex_sub_wf
           eq_refl eq_refl).
Defined.



(** ** vfs_chdir: the commit *)

Section ChdirCommit.
Implicit Types vfs : vfs_t.
Implicit Types b l p g : list ascii.

(** The string with its last character cut off by a NUL. *)
Lemma str_cut_last g k :
  k < strlen g 0 → str (<[k:=NUL]> g) 0 = take k (str g 0).
Proof.
  intros Hk. pose proof (strlen_le g 0 ltac:(lia)) as Hl.
  rewrite str_insert_NUL by lia. rewrite drop_0.
  rewrite cstr_nonul_id by (apply take_str_nonul; lia).
  symmetry. apply take_str. lia.
Qed.

(** A separator appended to the string. *)
Lemma str_append_sep f :
  strlen f 0 + 1 < length f →
  str (<[strlen f 0 + 1 := NUL]> (<[strlen f 0 := "/"%char]> f)) 0
  = str f 0 ++ ["/"%char].
Proof.
  intros Hl. set (n := strlen f 0) in *.
  set (g := <[n + 1 := NUL]> (<[n := "/"%char]> f)).
  assert (take n g = take n f) as Ht.
  { unfold g. by rewrite !take_insert_ge by lia. }
  rewrite (str_0_split g n).
  2:{ rewrite Ht. apply take_str_nonul. unfold n. lia. }
  rewrite Ht, <-(take_str f n) by (unfold n; lia).
  rewrite take_ge by (unfold n, strlen; lia). f_equal.
  assert (rd g n = "/"%char) as Hn.
  { unfold g. rewrite rd_insert_ne by lia. apply rd_insert_eq. lia. }
  rewrite str_cons by (by rewrite Hn). rewrite Hn. f_equal.
  apply str_nil. unfold g. replace (S n) with (n + 1) by lia.
  apply rd_insert_eq. rewrite length_insert. lia.
Qed.

Lemma take_take_le {A} n m (l : list A) :
  n ≤ m → take n (take m l) = take n l.
Proof. intros H. rewrite take_take. f_equal. lia. Qed.

(** A copy of the first bytes of a buffer. *)
Lemma take_memcpy_0 c g n k :
  k ≤ n → n ≤ length g → length c = length g →
  take k (memcpy c 0 g 0 n) = take k g.
Proof.
  intros Hk Hn Hl. rewrite <-(take_take_le k n) by done.
  rewrite <-(take_take_le k n g) by done. f_equal.
  unfold memcpy. rewrite block_take_drop by (simpl; lia). rewrite drop_0.
  rewrite <-(length_take_le g n) at 1 by lia.
  apply take_splice_0. rewrite length_take. lia.
Qed.

(** When the terminator of its string is among them, the copy holds the
    same string. *)
Lemma str_memcpy_0 c g n :
  strlen g 0 < n → n ≤ length g → length c = length g →
  str (memcpy c 0 g 0 n) 0 = str g 0.
Proof.
  intros Hs Hn Hl. apply str_ext. intros k Hk. simpl.
  apply (take_rd _ _ n); [|lia]. by apply take_memcpy_0.
Qed.

(** The last character of a string, read from the buffer. *)
Lemma rd_last g :
  1 ≤ strlen g 0 → last (str g 0) = Some (rd g (strlen g 0 - 1)).
Proof.
  intros H. pose proof (rd_str g 0 (strlen g 0 - 1) ltac:(lia)) as Hr.
  simpl in Hr. rewrite Hr. rewrite last_lookup.
  replace (pred (length (str g 0))) with (strlen g 0 - 1)
    by (unfold strlen; lia).
  destruct (nth_lookup_or_length (str g 0) (strlen g 0 - 1) NUL) as [->|Hge];
    [done|]. unfold strlen in *. lia.
Qed.

End ChdirCommit.

Section ChdirState.
Implicit Types vfs : vfs_t.
Implicit Types b l p g : list ascii.

(** The session that [vfs_chdir] commits, from the buffer [g] that holds
    the new cwd with its final separator. *)
Lemma chdir_commit_state vfs g :
  wf vfs → length g = length (file1 vfs) →
  1 ≤ strlen g 0 → strlen g 0 < length g →
  rd g (strlen g 0 - 1) = "/"%char →
  let len := strlen g 0 in
  let f1 := <[len - 1 := "/"%char]> (<[len - 1 := NUL]> g) in
  let vfs' :=
    Vfs f1 (memcpy (file2 vfs) 0 f1 0 (len + 1)) (rootlen vfs) len in
  f1 = g ∧ str (file2 vfs') 0 = str g 0 ∧ cwd_of vfs' = str g 0
  ∧ (∀ k, k ≤ len → take k (file2 vfs') = take k (str g 0))
  ∧ str (<[len - 1 := NUL]> g) 0 = take (len - 1) (str g 0).
Proof.
  intros Hwf Hlen H1 Hl Hsep len f1 vfs'.
  assert (f1 = g) as Hf.
  { unfold f1, len. rewrite list_insert_insert_eq. apply list_insert_id.
    rewrite lookup_rd by lia. by rewrite Hsep. }
  assert (length (file2 vfs) = length g) as Hl2
    by (by rewrite <-(wf_size _ Hwf)).
  pose proof (str_memcpy_0 (file2 vfs) g (len + 1) ltac:(unfold len; lia)
                ltac:(unfold len; lia) Hl2) as Hs.
  assert (∀ k, k ≤ len → take k (file2 vfs') = take k (str g 0)) as Hk.
  { intros k Hk. unfold vfs'. cbn [file2]. rewrite Hf.
    rewrite (take_memcpy_0 _ g (len + 1)) by (done || unfold len; lia).
    symmetry. apply take_str. unfold len in Hk. lia. }
  split; [done|]. split; [unfold vfs'; cbn [file2]; by rewrite Hf|].
  split; [|split; [done|apply str_cut_last; unfold len; lia]].
  unfold cwd_of. change (cwdlen vfs') with len. rewrite Hk by lia.
  pose proof (rd_last g H1) as Hla. rewrite Hsep in Hla.
  rewrite last_lookup in Hla.
  replace (pred (length (str g 0))) with (len - 1) in Hla
    by (unfold len, strlen; lia).
  rewrite <-(take_S_r _ _ _ Hla).
  apply take_ge. unfold len, strlen. lia.
Qed.

End ChdirState.

(** A [vfs_chdir] that succeeds resolved the path and made the result,
    with a separator appended unless it ends in one, the cwd in both
    buffers. *)
Lemma chdir__commit fs vfs path vfs' :
  wf vfs → vfs_chdir fs vfs path = (vfs', Done) →
  ∃ p,
    resolved (abspath_ vfs (file1 vfs) (length (file1 vfs)) path false)
    = Some p
    ∧ cwd_of vfs'
      = (if bool_decide (last p = Some "/"%char) then p
         else p ++ ["/"%char])
    ∧ str (file1 vfs') 0 = cwd_of vfs' ∧ str (file2 vfs') 0 = cwd_of vfs'
    ∧ cwdlen vfs' = length (cwd_of vfs')
    ∧ rootlen vfs' = rootlen vfs ∧ root_of vfs' = root_of vfs
    ∧ (cwdlen vfs' = rootlen vfs
       ∨ stat_isdir fs (take (cwdlen vfs' - 1) (cwd_of vfs')) = true).
Proof.
  intros Hwf H. pose proof (wf_root _ Hwf) as Hr.
  unfold vfs_chdir in H.
  pose proof (abspath__root_mode_ok vfs path) as Hok.
  pose proof (abspath__resolved_root vfs (file1 vfs) path false Hwf
                (or_introl eq_refl)) as Hres.
  destruct (abspath_ vfs (file1 vfs) (length (file1 vfs)) path false)
    as [f1 r] eqn:E.
  destruct r as [|why]; [|done].
  destruct (Hok f1 Hwf eq_refl) as (Hl & Hlo & Hhi & Hrs).
  destruct (Hres eq_refl) as (t & Ht & _).
  apply resolved_Some in Ht as [_ Ht]. simpl in Ht.
  exists (str f1 0). split; [done|].
  pose proof (rd_last f1 ltac:(lia)) as Hlast.
  pose proof (length_root_of _ Hwf) as Hlr.
  (* the buffer [g] that holds the new cwd *)
  assert (∃ g, length g = length (file1 vfs)
               ∧ str g 0 = (if bool_decide (last (str f1 0) = Some "/"%char)
                            then str f1 0 else str f1 0 ++ ["/"%char])
               ∧ strlen g 0 < length g
               ∧ rd g (strlen g 0 - 1) = "/"%char
               ∧ (let len := strlen g 0 in
                  let f := <[len - 1 := NUL]> g in
                  (if (len =? rootlen vfs) || stat_isdir fs (str f 0)
                   then (Vfs (<[len - 1 := "/"%char]> f)
                           (memcpy (file2 vfs) 0 (<[len - 1 := "/"%char]> f)
                              0 (len + 1)) (rootlen vfs) len, Done)
                   else (chdir_rollback vfs f, Failed NotADirectory))
                  = (vfs', Done)))
    as (g & Hg & Hsg & Hlg & Hsep & Hstep).
  { destruct (Ascii.eqb_spec (rd f1 (strlen f1 0 - 1)) "/"%char) as [Es|Es];
      simpl in H.
    - exists f1. rewrite Hlast, Es, bool_decide_true by done. done.
    - destruct (Nat.leb_spec (length f1) (strlen f1 0 + 2)) as [|Hroom];
        [done|].
      set (g := <[strlen f1 0 + 1 := NUL]> (<[strlen f1 0 := "/"%char]> f1))
        in *.
      assert (str g 0 = str f1 0 ++ ["/"%char]) as Hsa
        by (apply str_append_sep; lia).
      assert (strlen g 0 = strlen f1 0 + 1) as Hla.
      { unfold strlen at 1. rewrite Hsa, length_app. done. }
      assert (length g = length f1) as Hgl
        by (unfold g; by rewrite !length_insert).
      exists g. split; [lia|].
      rewrite Hlast, bool_decide_false by (intros [= ?]; done).
      split; [done|]. rewrite Hla, Hgl. split; [lia|]. split.
      + replace (strlen f1 0 + 1 - 1) with (strlen f1 0) by lia.
        unfold g. rewrite rd_insert_ne by lia. apply rd_insert_eq. lia.
      + done. }
  cbv zeta in Hstep.
  destruct (chdir_commit_state vfs g Hwf Hg) as (Hf & Hs2 & Hc & Hk & Hcut).
  { unfold strlen. rewrite Hsg. destruct (bool_decide _);
      [fold (strlen f1 0)|rewrite length_app; simpl]; lia. }
  { done. }
  { done. }
  cbv zeta in Hf, Hs2, Hc, Hk, Hcut. rewrite Hcut in Hstep.
  assert (rootlen vfs ≤ strlen g 0) as Hrg.
  { unfold strlen at 1. rewrite Hsg. destruct (bool_decide _);
      [fold (strlen f1 0)|rewrite length_app; simpl; fold (strlen f1 0)];
      lia. }
  destruct (_ || _) eqn:Ec in Hstep; [|done].
  injection Hstep as <-. rewrite Hc, Hs2. cbn [file1 cwdlen rootlen].
  rewrite Hf, Hsg. repeat split; try done.
  - unfold strlen. by rewrite Hsg.
  - unfold root_of. cbn [rootlen file2].
    rewrite (take_memcpy_0 _ g (strlen g 0 + 1))
      by (lia || by rewrite <-(wf_size _ Hwf)).
    rewrite <-take_str by lia. rewrite Hsg.
    assert (take (rootlen vfs) (str f1 0) = take (rootlen vfs) (file2 vfs))
      as Hroot.
    { rewrite Ht. rewrite <-Hlr at 1. by rewrite take_app_length. }
    destruct (bool_decide _); [done|].
    rewrite take_app_le by (fold (strlen f1 0); lia). done.
  - apply orb_true_iff in Ec as [Ec|Ec].
    + left. by apply Nat.eqb_eq.
    + right. by rewrite <-Hsg.
Qed.

(** ** The root of a session *)

Section RootKept.
Implicit Types vfs : vfs_t.
Implicit Types b l p g : list ascii.

(** The root is read from the bytes before its separator. *)
Lemma root_kept vfs vfs' :
  wf vfs → wf vfs' → rootlen vfs' = rootlen vfs →
  take (rootlen vfs - 1) (file2 vfs') = take (rootlen vfs - 1) (file2 vfs) →
  root_of vfs' = root_of vfs.
Proof.
  intros Hwf Hwf' Hr Ht. unfold root_of. rewrite Hr.
  pose proof (wf_root _ Hwf) as H1. pose proof (wf_size2 _ Hwf) as H2.
  pose proof (wf_root _ Hwf') as H1'. pose proof (wf_size2 _ Hwf') as H2'.
  replace (rootlen vfs) with (S (rootlen vfs - 1)) by lia.
  rewrite !take_S_rd by lia. rewrite Ht. f_equal.
  rewrite (wf_rootsep2 _ Hwf). rewrite <-Hr. by rewrite (wf_rootsep2 _ Hwf').
Qed.

(** [vfs_chdir] leaves the bytes of the root in [file2] alone. *)
Lemma chdir__root fs vfs path :
  wf vfs →
  rootlen (vfs_chdir fs vfs path).1 = rootlen vfs
  ∧ take (rootlen vfs - 1) (file2 (vfs_chdir fs vfs path).1)
    = take (rootlen vfs - 1) (file2 vfs).
Proof.
  intros Hwf. pose proof (wf_root _ Hwf) as Hr.
  pose proof (wf_size _ Hwf) as Hs. pose proof (wf_cap _ Hwf) as Hc.
  unfold vfs_chdir.
  pose proof (abspath__root_mode_ok vfs path) as Hok.
  destruct (abspath__frame vfs (file1 vfs) (length (file1 vfs)) path false)
    as [_ Hfr]; [lia|]. cbv zeta in Hfr.
  destruct (abspath_ vfs (file1 vfs) (length (file1 vfs)) path false)
    as [f1 r] eqn:E.
  destruct r as [|why]; [|done]. simpl in Hfr.
  destruct (Hok f1 Hwf eq_refl) as (Hl & Hlo & Hhi & Hrs).
  assert (take (rootlen vfs - 1) f1 = take (rootlen vfs - 1) (file2 vfs))
    as Hf1.
  { rewrite Hfr. rewrite <-(take_take_le _ (cwdlen vfs - 1)) by lia.
    rewrite (wf_same _ Hwf). apply take_take_le. lia. }
  assert (∀ g len, take (rootlen vfs - 1) g = take (rootlen vfs - 1) f1 →
                   length g = length f1 → rootlen vfs ≤ len → len < length g →
            take (rootlen vfs - 1)
              (memcpy (file2 vfs) 0 (<[len - 1 := "/"%char]> g) 0 (len + 1))
            = take (rootlen vfs - 1) (file2 vfs)) as Hm.
  { intros g len Hg Hgl Hlen Hlt.
    rewrite take_memcpy_0 by (rewrite ?length_insert; lia).
    rewrite take_insert_ge by lia. by rewrite Hg. }
  destruct (negb _); [destruct (Nat.leb_spec (length f1) (strlen f1 0 + 2))|].
  - done.
  - destruct (_ || _); [|done]. cbn [fst rootlen file2]. split; [done|].
    apply Hm; rewrite ?length_insert; try lia.
    by rewrite !take_insert_ge by lia.
  - destruct (_ || _); [|done]. cbn [fst rootlen file2]. split; [done|].
    apply Hm; rewrite ?length_insert; try lia.
    by rewrite !take_insert_ge by lia.
Qed.

(** Neither does a resolve into [file2]. *)
Lemma abspath2__root vfs path :
  wf vfs →
  rootlen (abspath2 vfs path).1 = rootlen vfs
  ∧ take (rootlen vfs - 1) (file2 (abspath2 vfs path).1)
    = take (rootlen vfs - 1) (file2 vfs).
Proof.
  intros Hwf. pose proof (wf_root _ Hwf) as Hr.
  destruct (abspath2_unfold vfs path) as (_ & -> & _ & -> & _).
  split; [done|].
  destruct (abspath__frame vfs (file2 vfs) (length (file2 vfs)) path true)
    as [_ Hfr]; [lia|]. cbv zeta in Hfr.
  rewrite <-(take_take_le _ (cwdlen vfs - 1)) by lia.
  rewrite Hfr. apply take_take_le. lia.
Qed.

(** A fresh session has the root [VFS_ROOT]. *)
Lemma open__root m1 m2 vfs :
  length VFS_ROOT < length m2 →
  vfs_openfs (Some (m1, m2)) = Some vfs →
  rootlen vfs = 8 ∧ root_of vfs = VFS_ROOT.
Proof.
  intros Hroom [= <-]. split; [done|]. unfold root_of. cbn [rootlen file2].
  assert (take 9 (strcpy m2 VFS_ROOT) = VFS_ROOT ++ [NUL]) as Ht.
  { apply (take_splice_0 m2 (VFS_ROOT ++ [NUL])). simpl in *. lia. }
  rewrite <-(take_take_le 8 9) by lia. by rewrite Ht.
Qed.

End RootKept.

(** X15.  Every session the code reaches is well formed and has the root
    [/sdcard/] that [vfs_openfs] gave it: no operation changes
    [rootlen] or the first [rootlen] bytes of the committed cwd, which
    so begins with the root. *)
Theorem reachable_root vfs :
  reachable vfs →
  wf vfs ∧ rootlen vfs = 8 ∧ root_of vfs = VFS_ROOT
  ∧ VFS_ROOT `prefix_of` cwd_of vfs.
Proof.
  intros H.
  assert (wf vfs ∧ rootlen vfs = 8 ∧ root_of vfs = VFS_ROOT)
    as (Hwf & Hr & Hroot).
  { induction H as [m1 m2 vfs Hlen Hroom Hop
                   |fs vfs path H IH|vfs H IH|vfs path H IH|vfs path H IH].
    - split; [by apply (wf_open m1 m2)|].
      apply (open__root m1 m2); [|done]. by rewrite <-Hlen.
    - destruct IH as (Hwf & Hr & Hroot).
      pose proof (wf_chdir fs vfs path Hwf) as Hwf'.
      destruct (chdir__root fs vfs path Hwf) as [Hr' Ht].
      split; [done|]. split; [congruence|].
      rewrite <-Hroot. by apply root_kept.
    - destruct IH as (Hwf & Hr & Hroot).
      split; [by apply wf_getcwd|]. done.
    - destruct IH as (Hwf & Hr & Hroot).
      split; [by apply wf_abspath|].
      destruct (abspath_unfold vfs path) as (_ & _ & E2 & E3 & _).
      split; [congruence|]. unfold root_of. by rewrite E2, E3.
    - destruct IH as (Hwf & Hr & Hroot).
      pose proof (wf_abspath2 vfs path Hwf) as Hwf'.
      destruct (abspath2__root vfs path Hwf) as [Hr' Ht].
      split; [done|]. split; [congruence|].
      rewrite <-Hroot. by apply root_kept. }
  split; [done|]. split; [done|]. split; [done|].
  rewrite <-Hroot. by apply root_prefix_cwd.
Qed.

Lemma reachable_root_witness :
  reachable ex_sub_pwd ∧ root_of ex_sub_pwd = VFS_ROOT
  ∧ VFS_ROOT `prefix_of` cwd_of ex_sub_pwd.
Proof.
  split; [apply ex_sub_pwd_reachable|].
  destruct (reachable_root ex_sub_pwd ex_sub_pwd_reachable) as (_ & _ & H).
  exact H.
Defined.

(** ** The cwd after vfs_chdir *)

Section ChdirTarget.
Implicit Types vfs : vfs_t.
Implicit Types b l p g N : list ascii.

Lemma last_root vfs : wf vfs → last (root_of vfs) = Some "/"%char.
Proof.
  intros Hwf. pose proof (wf_root _ Hwf) as Hr.
  pose proof (wf_size2 _ Hwf) as Hc. unfold root_of.
  replace (rootlen vfs) with (S (rootlen vfs - 1)) by lia.
  rewrite take_S_rd by lia. rewrite (wf_rootsep2 _ Hwf). apply last_snoc.
Qed.

Lemma chop_sep_snoc l : chop_sep (l ++ ["/"%char]) = l.
Proof.
  unfold chop_sep. rewrite last_snoc, bool_decide_true by done.
  rewrite length_app. simpl.
  replace (length l + 1 - 1) with (length l) by lia.
  by rewrite take_app_length.
Qed.

Lemma chop_sep_length l : length (chop_sep l) ≤ length l.
Proof.
  unfold chop_sep. destruct (bool_decide _); [|done].
  rewrite length_take. lia.
Qed.

(** The path, a separator added unless it is empty or ends in one, and
    the same without its final separator. *)
Lemma target_sep N :
  let sep := if bool_decide (N = [] ∨ last N = Some "/"%char) then []
             else ["/"%char] in
  N = [] ∧ sep = []
  ∨ N ≠ [] ∧ last (N ++ sep) = Some "/"%char
    ∧ take (length (N ++ sep) - 1) (N ++ sep) = chop_sep N.
Proof.
  intros sep. destruct N as [|x N] using rev_ind.
  { left. split; [done|]. unfold sep. by rewrite bool_decide_true by by left. }
  right. split; [by destruct N|]. unfold sep, chop_sep. rewrite last_snoc.
  destruct (decide (x = "/"%char)) as [->|Hx].
  - rewrite !bool_decide_true by (done || by right).
    by rewrite app_nil_r, last_snoc.
  - rewrite (bool_decide_false (Some x = Some "/"%char))
      by (intros [= ?]; done).
    rewrite bool_decide_false by (intros [E|[= ?]]; [by destruct N|done]).
    rewrite last_snoc. split; [done|]. rewrite length_app. simpl.
    replace (length (N ++ [x]) + 1 - 1) with (length (N ++ [x])) by lia.
    by rewrite take_app_length.
Qed.

Lemma target_cwd root N :
  last root = Some "/"%char →
  (if bool_decide (last (root ++ N) = Some "/"%char) then root ++ N
   else (root ++ N) ++ ["/"%char])
  = root ++ N ++ (if bool_decide (N = [] ∨ last N = Some "/"%char) then []
                  else ["/"%char]).
Proof.
  intros Hr. destruct N as [|x N _] using rev_ind.
  { rewrite !app_nil_r, Hr. rewrite ?bool_decide_true by (done || by left).
    cbn [app]. by rewrite ?app_nil_r. }
  rewrite app_assoc, !last_snoc.
  destruct (decide (x = "/"%char)) as [->|Hx].
  - rewrite !bool_decide_true by (done || by right).
    by rewrite app_nil_r, app_assoc.
  - rewrite (bool_decide_false (Some x = Some "/"%char))
      by (intros [= ?]; done).
    rewrite bool_decide_false by (intros [E|[= ?]]; [by destruct N|done]).
    by rewrite <-!app_assoc.
Qed.

Lemma last_take_snoc l x :
  last l = Some x → l = take (length l - 1) l ++ [x].
Proof.
  intros [l' ->]%last_Some. rewrite length_app. simpl.
  replace (length l' + 1 - 1) with (length l') by lia.
  by rewrite take_app_length.
Qed.

(** What [vfs_chdir] resolved, in terms of the normalised path. *)
Lemma chdir__target vfs path p :
  wf vfs →
  resolved (abspath_ vfs (file1 vfs) (length (file1 vfs)) path false)
  = Some p →
  p = root_of vfs ++ chdir_target vfs path.
Proof.
  intros Hwf Hp. pose proof Hp as [Hp1 _]%resolved_Some.
  pose proof (abspath__ptr_fits _ _ _ _ _ Hp1) as Hfit.
  unfold chdir_target.
  destruct (Ascii.eqb_spec (rd path 0) "/"%char) as [Habs|Hrel].
  - rewrite (abspath__absolute_root vfs (file1 vfs) path Hwf
               (or_introl eq_refl) Habs Hfit) in Hp. by injection Hp.
  - rewrite (abspath__relative vfs (file1 vfs) path false Hwf
               (or_introl eq_refl) Hrel Hfit) in Hp. by injection Hp.
Qed.

End ChdirTarget.

(** X16.  A [vfs_chdir] that succeeds makes the cwd the root followed by the
    normalised path and a separator, which is added unless the path is
    empty or ends in one.  Both buffers then hold that string, [cwdlen]
    is its length and the root is as it was.  The path is empty, so that
    the new cwd is the root, or the delegate's [stat] said that the new
    cwd without its final separator is a directory. *)
Theorem chdir_commit fs vfs path vfs' :
  wf vfs → vfs_chdir fs vfs path = (vfs', Done) →
  let N := chdir_target vfs path in
  let sep := if bool_decide (N = [] ∨ last N = Some "/"%char) then []
             else ["/"%char] in
  cwd_of vfs' = root_of vfs ++ N ++ sep
  ∧ str (file1 vfs') 0 = cwd_of vfs' ∧ str (file2 vfs') 0 = cwd_of vfs'
  ∧ cwdlen vfs' = length (cwd_of vfs')
  ∧ rootlen vfs' = rootlen vfs ∧ root_of vfs' = root_of vfs
  ∧ (N = [] ∨ stat_isdir fs (root_of vfs ++ chop_sep N) = true).
Proof.
  intros Hwf H N sep.
  destruct (chdir__commit fs vfs path vfs' Hwf H)
    as (p & Hp & Hc & H1 & H2 & H3 & H4 & H5 & H6).
  apply (chdir__target vfs path p Hwf) in Hp. fold N in Hp. subst p.
  rewrite (target_cwd _ N (last_root _ Hwf)) in Hc. fold sep in Hc.
  split; [done|]. split; [done|]. split; [done|]. split; [done|].
  split; [done|]. split; [done|].
  pose proof (length_root_of _ Hwf) as Hlr.
  destruct (target_sep N) as [[HN _]|(HN & _ & Ht)]; [by left|right].
  fold sep in Ht.
  assert (1 ≤ length N) as HlN by (destruct N; [done|simpl; lia]).
  destruct H6 as [H6|H6].
  { rewrite H3, Hc, !length_app in H6. lia. }
  rewrite H3, Hc in H6. rewrite <-Ht.
  replace (root_of vfs ++ take (length (N ++ sep) - 1) (N ++ sep))
    with (take (length (root_of vfs ++ N ++ sep) - 1)
            (root_of vfs ++ N ++ sep)); [done|].
  rewrite take_app_ge by (rewrite !length_app; lia). do 2 f_equal.
  rewrite !length_app. lia.
Qed.

Lemma chdir_commit_witness :
  wf ex_root
  ∧ vfs_chdir ex_fs ex_root (bytes "a/../sub")
    = ((vfs_chdir ex_fs ex_root (bytes "a/../sub")).1, Done)
  ∧ cwd_of (vfs_chdir ex_fs ex_root (bytes "a/../sub")).1
    = bytes "/sdcard/sub/".
Proof.
  split; [apply ex_root_wf|]. split; [reflexivity|].
  destruct (chdir_commit ex_fs ex_root (bytes "a/../sub")
              (vfs_chdir ex_fs ex_root (bytes "a/../sub")).1 ex_root_wf
              eq_refl) as (H & _).
  rewrite H. reflexivity.
Defined.

(** X17.  After a [vfs_chdir] that succeeded, [vfs_getcwd] returns [/]
    followed by the normalised path without the separator at its end,
    if it has one. *)
Theorem chdir_getcwd fs vfs path vfs' :
  wf vfs → vfs_chdir fs vfs path = (vfs', Done) →
  (vfs_getcwd vfs').2 = "/"%char :: chop_sep (chdir_target vfs path).
Proof.
  intros Hwf H. set (N := chdir_target vfs path).
  pose proof (wf_chdir fs vfs path Hwf) as Hwf'. rewrite H in Hwf'.
  simpl in Hwf'.
  destruct (chdir__commit fs vfs path vfs' Hwf H)
    as (p & Hp & Hc & _ & _ & H3 & H4 & H5 & _).
  apply (chdir__target vfs path p Hwf) in Hp. fold N in Hp. subst p.
  rewrite (target_cwd _ N (last_root _ Hwf)) in Hc.
  pose proof (length_root_of _ Hwf) as Hlr.
  pose proof (wf_root _ Hwf) as Hr.
  rewrite (getcwd__value _ Hwf'), H4, H3, Hc.
  destruct (target_sep N) as [[HN Hsep]|(HN & Hl & Ht)].
  { rewrite Hsep, HN, !app_nil_r, Hlr, Nat.ltb_irrefl. done. }
  assert (1 ≤ length N) as HlN by (destruct N; [done|simpl; lia]).
  rewrite (proj2 (Nat.ltb_lt _ _)) by (rewrite !length_app; lia).
  apply last_take_snoc in Hl. rewrite Ht in Hl.
  pose proof (cwd_of_split _ Hwf') as Hs. fold (cwd_rel vfs') in Hs.
  rewrite Hc, H4, H5 in Hs.
  pose proof (last_take_snoc _ _ (last_root _ Hwf)) as Hroot.
  rewrite Hlr in Hroot. rewrite Hroot in Hs at 1.
  rewrite Hl, <-!app_assoc in Hs. apply app_inv_head in Hs.
  change (["/"%char] ++ chop_sep N ++ ["/"%char])
    with (("/"%char :: chop_sep N) ++ ["/"%char]) in Hs.
  by apply app_inv_tail in Hs.
Qed.

Lemma chdir_getcwd_witness :
  wf ex_root
  ∧ vfs_chdir ex_fs ex_root (bytes "a/../sub/")
    = ((vfs_chdir ex_fs ex_root (bytes "a/../sub/")).1, Done)
  ∧ (vfs_getcwd (vfs_chdir ex_fs ex_root (bytes "a/../sub/")).1).2
    = bytes "/sub".
Proof.
  split; [apply ex_root_wf|]. split; [reflexivity|].
  rewrite (chdir_getcwd ex_fs ex_root (bytes "a/../sub/")
             (vfs_chdir ex_fs ex_root (bytes "a/../sub/")).1 ex_root_wf
             eq_refl).
  reflexivity.
Defined.

(** X18.  A path that normalises to nothing behind the root, as [/] does
    anywhere and [..] does one level below the root, takes [vfs_chdir]
    to the root whatever the delegate answers: the new length is
    [rootlen], for which [stat] is not asked.  The cwd is then the root
    and [vfs_getcwd] returns [/]. *)
Theorem chdir_root fs vfs path :
  wf vfs → chdir_target vfs path = [] →
  cwdlen vfs + strlen path 0 + 1 ≤ length (file1 vfs) →
  let r := vfs_chdir fs vfs path in
  r.2 = Done ∧ cwdlen r.1 = rootlen vfs ∧ rootlen r.1 = rootlen vfs
  ∧ cwd_of r.1 = root_of vfs ∧ (vfs_getcwd r.1).2 = bytes "/".
Proof.
  intros Hwf Hn Hfit r. pose proof (wf_root _ Hwf) as Hr.
  pose proof (wf_chdir fs vfs path Hwf) as Hwf'. fold r in Hwf'.
  pose proof (length_root_of _ Hwf) as Hlr.
  assert (r.2 = Done ∧ cwdlen r.1 = rootlen vfs ∧ rootlen r.1 = rootlen vfs
          ∧ cwd_of r.1 = root_of vfs) as (H1 & H2 & H3 & H4).
  { unfold r, vfs_chdir.
    pose proof (abspath__root_mode_ok vfs path) as Hok.
    pose proof (chdir__target vfs path) as Hres.
    destruct (abspath__root_mode vfs (file1 vfs) (length (file1 vfs)) path)
      as [Hp|Hp]; [|apply abspath__too_long in Hp; lia].
    destruct (abspath_ vfs (file1 vfs) (length (file1 vfs)) path false)
      as [f1 p] eqn:E.
    simpl in Hp. subst p. specialize (Hres (str f1 0) Hwf eq_refl).
    rewrite Hn, app_nil_r in Hres.
    destruct (Hok f1 Hwf eq_refl) as (Hl & _ & Hhi & Hrs).
    assert (strlen f1 0 = rootlen vfs) as Hlen.
    { unfold strlen. by rewrite Hres. }
    rewrite Hlen, Hrs, Ascii.eqb_refl. cbn [negb].
    rewrite Nat.eqb_refl. cbn [orb fst snd rootlen cwdlen].
    split; [done|]. split; [done|]. split; [done|].
    destruct (chdir_commit_state vfs f1 Hwf Hl) as (_ & _ & Hc & _);
      [lia|lia|by rewrite Hlen|].
    cbv zeta in Hc. rewrite Hlen in Hc. by rewrite Hc. }
  split; [done|]. split; [done|]. split; [done|]. split; [done|].
  rewrite (getcwd__value _ Hwf'), H2, H3.
  by rewrite Nat.ltb_irrefl.
Qed.

Lemma chdir_root_witness :
  wf ex_sub ∧ chdir_target ex_sub (bytes "..") = []
  ∧ cwdlen ex_sub + strlen (bytes "..") 0 + 1 ≤ length (file1 ex_sub)
  ∧ (vfs_chdir ex_fs_empty ex_sub (bytes "..")).2 = Done
  ∧ cwd_of (vfs_chdir ex_fs_empty ex_sub (bytes "..")).1 = root_of ex_sub.
Proof.
  assert (cwdlen ex_sub + strlen (bytes "..") 0 + 1 ≤ length (file1 ex_sub))
    as Hfit by (vm_compute; lia).
  split; [apply ex_sub_wf|]. split; [reflexivity|]. split; [done|].
  destruct (chdir_root ex_fs_empty ex_sub (bytes "..") ex_sub_wf eq_refl Hfit)
    as (H1 & _ & _ & H2 & _).
  by split.
Defined.

(** ** Resolving leaves the cwd alone *)

Section KeepsCwd.
Implicit Types vfs : vfs_t.

(** What [vfs_getcwd] returns is read off the committed cwd. *)
Lemma getcwd__same vfs vfs' :
  wf vfs → wf vfs' → rootlen vfs' = rootlen vfs → cwdlen vfs' = cwdlen vfs →
  take (cwdlen vfs - 1) (file2 vfs') = take (cwdlen vfs - 1) (file2 vfs) →
  cwd_of vfs' = cwd_of vfs ∧ root_of vfs' = root_of vfs
  ∧ (vfs_getcwd vfs').2 = (vfs_getcwd vfs).2.
Proof.
  intros Hwf Hwf' Hr Hc Ht. pose proof (wf_root _ Hwf) as H1.
  split; [unfold cwd_of; by rewrite Hc, Ht|]. split.
  - apply root_kept; [done|done|done|].
    rewrite <-(take_take_le _ (cwdlen vfs - 1)) by lia. rewrite Ht.
    apply take_take_le. lia.
  - rewrite !getcwd__value by done. unfold cwd_rel. by rewrite Hr, Hc, Ht.
Qed.

End KeepsCwd.

(** X19.  No resolve under the cwd, whether it succeeds or not, changes the
    committed cwd: after [abspath], after [abspath2], and so after
    [vfs_mkdir], [vfs_rmdir], [vfs_remove] and [vfs_rename], the two
    lengths, the root, the cwd and what [vfs_getcwd] returns are what
    they were. *)
Theorem resolve_keeps_cwd fs vfs path to :
  wf vfs →
  ∀ vfs', vfs' = (abspath vfs path).1 ∨ vfs' = (abspath2 vfs path).1
          ∨ vfs' = (vfs_mkdir fs vfs path).1.1
          ∨ vfs' = (vfs_rmdir fs vfs path).1.1
          ∨ vfs' = (vfs_remove fs vfs path).1.1
          ∨ vfs' = (vfs_rename fs vfs path to).1.1 →
  rootlen vfs' = rootlen vfs ∧ cwdlen vfs' = cwdlen vfs
  ∧ cwd_of vfs' = cwd_of vfs ∧ root_of vfs' = root_of vfs
  ∧ (vfs_getcwd vfs').2 = (vfs_getcwd vfs).2.
Proof.
  intros Hwf.
  assert (∀ v p, wf v →
            wf (abspath v p).1 ∧ rootlen (abspath v p).1 = rootlen v
            ∧ cwdlen (abspath v p).1 = cwdlen v
            ∧ take (cwdlen v - 1) (file2 (abspath v p).1)
              = take (cwdlen v - 1) (file2 v)) as H1.
  { intros v p Hv. split; [by apply wf_abspath|].
    destruct (abspath_unfold v p) as (_ & _ & E2 & E3 & E4).
    by rewrite E2, E3, E4. }
  assert (∀ v p, wf v →
            wf (abspath2 v p).1 ∧ rootlen (abspath2 v p).1 = rootlen v
            ∧ cwdlen (abspath2 v p).1 = cwdlen v
            ∧ take (cwdlen v - 1) (file2 (abspath2 v p).1)
              = take (cwdlen v - 1) (file2 v)) as H2.
  { intros v p Hv. split; [by apply wf_abspath2|].
    destruct (abspath2_unfold v p) as (_ & E2 & _ & E3 & E4).
    rewrite E2, E3, E4. split; [done|]. split; [done|].
    destruct (abspath__frame v (file2 v) (length (file2 v)) p true)
      as [_ Hfr]; [apply (wf_root _ Hv)|]. done. }
  assert (∀ op call, (delegate1 op call (abspath vfs path)).1.1
                     = (abspath vfs path).1) as Hd.
  { intros op call. unfold delegate1.
    destruct (abspath vfs path) as [v [|w]]; reflexivity. }
  assert ((vfs_rename fs vfs path to).1.1
          = (abspath2 (abspath vfs path).1 to).1) as Hren.
  { unfold vfs_rename. destruct (abspath vfs path) as [v1 p1]. cbn [fst].
    destruct (abspath2 v1 to) as [v2 p2]. simpl.
    destruct (negb (is_null p1) && negb (is_null p2)); reflexivity. }
  assert (∀ vfs', wf vfs' → rootlen vfs' = rootlen vfs →
            cwdlen vfs' = cwdlen vfs →
            take (cwdlen vfs - 1) (file2 vfs')
            = take (cwdlen vfs - 1) (file2 vfs) →
            rootlen vfs' = rootlen vfs ∧ cwdlen vfs' = cwdlen vfs
            ∧ cwd_of vfs' = cwd_of vfs ∧ root_of vfs' = root_of vfs
            ∧ (vfs_getcwd vfs').2 = (vfs_getcwd vfs).2) as Hfin.
  { intros vfs' Hwf' Hr Hc Ht. split; [done|]. split; [done|].
    by apply getcwd__same. }
  destruct (H1 vfs path Hwf) as (A1 & A2 & A3 & A4).
  intros vfs' [->|[->|[->|[->|[->| ->]]]]].
  - by apply Hfin.
  - destruct (H2 vfs path Hwf) as (B1 & B2 & B3 & B4). by apply Hfin.
  - unfold vfs_mkdir. rewrite Hd. by apply Hfin.
  - unfold vfs_rmdir. rewrite Hd. by apply Hfin.
  - unfold vfs_remove. rewrite Hd. by apply Hfin.
  - rewrite Hren. destruct (H2 _ to A1) as (B1 & B2 & B3 & B4).
    apply Hfin; [done|congruence|congruence|].
    rewrite A3 in B4. congruence.
Qed.

Lemma resolve_keeps_cwd_witness :
  wf ex_sub
  ∧ cwd_of (vfs_rename ex_fs ex_sub (bytes "a") (bytes "/sub")).1.1
    = cwd_of ex_sub.
Proof.
  split; [apply ex_sub_wf|].
  apply (resolve_keeps_cwd ex_fs ex_sub (bytes "a") (bytes "/sub") ex_sub_wf).
  by do 5 right.
Defined.
